(** * SISYPHOS: the benchmark job pipeline of the Olex2 plugin

    A shallow embedding of [SISYPHOS.py]: the [BenchJob] class (workspace
    setup, the refinement protocol, the cif scan, the extraction of
    statistics with the propagation of uncertainties, the results file and
    the done marker) and the orchestration in [SISYPHOS.init_sisy_jobs] and
    [SISYPHOS.run].

    Python values are modelled as they occur in the file: floats are IEEE
    binary64 numbers ([spec_float] with 53 bits of precision), strings are
    ASCII strings, dictionaries keep their insertion order, exceptions are
    results of an error monad whose state (the file system, the trace of
    calls into the host program) survives a raise. *)

From Stdlib Require Import ZArith Ascii.
From Stdlib Require Import Floats.SpecFloat.
From stdpp Require Import gmap strings list pretty.

Local Open Scope Z_scope.

(** Strings as lists of characters and back. *)
Abbreviation explode := Strings.String.list_ascii_of_string.
Abbreviation implode := Strings.String.string_of_list_ascii.
Abbreviation strlen := Strings.String.length.

(* ===================================================================== *)
(** * Python floats *)
(* ===================================================================== *)

Module Float.

Definition prec : Z := 53.
Definition emax : Z := 1024.

Abbreviation float := spec_float.

Definition zero : float := S754_zero false.
Definition nan : float := S754_nan.
Definition inf (neg : bool) : float := S754_infinity neg.

Definition mul : float → float → float := SFmul prec emax.
Definition sub : float → float → float := SFsub prec emax.
Definition sqrt : float → float := SFsqrt prec emax.
Definition eqb : float → float → bool := SFeqb.
Definition ltb : float → float → bool := SFltb.

(** An integer as the nearest float. *)
Definition of_Z (z : Z) : float := binary_normalize prec emax z 0 false.

(** The float nearest to [m * 10 ^ e10] (ties to even), [m] not negative,
    with the sign [neg]: the value of a decimal literal. *)
Definition of_decimal (neg : bool) (m e10 : Z) : float :=
  match m with
  | Zpos p =>
      if 0 <=? e10
      then binary_normalize prec emax
             (if neg then - (m * 10 ^ e10) else m * 10 ^ e10) 0 neg
      else SFdiv prec emax (S754_finite neg p 0)
             (S754_finite false (Z.to_pos (10 ^ (- e10))) 0)
  | _ => S754_zero neg
  end.

(** ** [repr]: the shortest decimal string that reads back as the float *)

(** The exact value of a finite float and the half gaps to its two
    neighbours, over a common denominator:
    [(value, half gap below, half gap above, denominator)]. *)
Definition bounds (m : positive) (e : Z) : Z * Z * Z * Z :=
  let boundary := (Zpos m =? 2 ^ (prec - 1)) && (3 - emax - prec <? e) in
  if 0 <=? e
  then (4 * Zpos m * 2 ^ e, (if boundary then 1 else 2) * 2 ^ e, 2 * 2 ^ e, 4)
  else (4 * Zpos m, (if boundary then 1 else 2), 2, 4 * 2 ^ (- e)).

(** [10 ^ (k - 1) <= v < 10 ^ k] for [v = num / den]. *)
Definition lt_pow10 (num den k : Z) : bool :=
  if 0 <=? k then num <? den * 10 ^ k else num * 10 ^ (- k) <? den.

Fixpoint find_decpt (fuel : nat) (num den k : Z) : Z :=
  match fuel with
  | O => k
  | S fuel' =>
      if lt_pow10 num den k then k else find_decpt fuel' num den (k + 1)
  end.

Definition decpt_of (num den : Z) : Z :=
  let est := (Z.log2 num - Z.log2 den) * 30103 / 100000 - 1 in
  find_decpt 8 num den est.

(** The [n]-digit candidate for [v], if one of the two [n]-digit decimals
    around [v] reads back as the float; the nearer of the two when both
    do, the even one on a tie. *)
Definition candidate (even_m : bool) (num lo hi den k n : Z) : option Z :=
  let q := k - n in
  let up := 10 ^ (Z.max 0 (- q)) in
  let a := num * up in
  let b := den * 10 ^ (Z.max 0 q) in
  let inside d :=
    if even_m
    then ((num - lo) * up <=? d * b) && (d * b <=? (num + hi) * up)
    else ((num - lo) * up <? d * b) && (d * b <? (num + hi) * up) in
  let d0 := a / b in
  let d1 := d0 + 1 in
  match inside d0, inside d1 with
  | true, true =>
      match Z.compare (a - d0 * b) (d1 * b - a) with
      | Lt => Some d0
      | Gt => Some d1
      | Eq => Some (if Z.even d0 then d0 else d1)
      end
  | true, false => Some d0
  | false, true => Some d1
  | false, false => None
  end.

Fixpoint shortest (fuel : nat) (even_m : bool) (num lo hi den k n : Z)
  : Z * Z :=
  match fuel with
  | O => (num / den, 0)
  | S fuel' =>
      match candidate even_m num lo hi den k n with
      | Some d => (d, k - n)
      | None => shortest fuel' even_m num lo hi den k (n + 1)
      end
  end.

(** Trailing zeros of the digits move into the exponent. *)
Fixpoint strip_zeros (fuel : nat) (d q : Z) : Z * Z :=
  match fuel with
  | O => (d, q)
  | S fuel' =>
      if (d mod 10 =? 0) && negb (d =? 0)
      then strip_zeros fuel' (d / 10) (q + 1)
      else (d, q)
  end.

(** The digits of the shortest representation and the position of the
    decimal point: the value reads [0.d1d2... * 10 ^ decpt]. *)
Definition digits (m : positive) (e : Z) : string * Z :=
  let '(num, lo, hi, den) := bounds m e in
  let k := decpt_of num den in
  let '(d, q) := shortest 17 (Z.even (Zpos m)) num lo hi den k 1 in
  let '(d, q) := strip_zeros 20 d q in
  let ds := pretty d in
  (ds, Z.of_nat (strlen ds) + q).

Definition zeros (n : Z) : string :=
  implode (replicate (Z.to_nat n) "0"%char).

Definition take (n : Z) (s : string) : string :=
  implode (firstn (Z.to_nat n) (explode s)).

Definition drop (n : Z) (s : string) : string :=
  implode (skipn (Z.to_nat n) (explode s)).

(** The layout [repr] gives the digits: exponent form outside
    [-4 < decpt <= 16], with an exponent of at least two digits. *)
Definition layout (ds : string) (decpt : Z) : string :=
  let len := Z.of_nat (strlen ds) in
  if (decpt <=? -4) || (16 <? decpt)
  then
    let x := decpt - 1 in
    let mant := if len =? 1 then ds else take 1 ds +:+ "." +:+ drop 1 ds in
    let xs := pretty (Z.abs x) in
    mant +:+ "e" +:+ (if x <? 0 then "-" else "+")
         +:+ (if Z.abs x <? 10 then "0" else "") +:+ xs
  else if decpt <=? 0 then "0." +:+ zeros (- decpt) +:+ ds
  else if len <=? decpt then ds +:+ zeros (decpt - len) +:+ ".0"
  else take decpt ds +:+ "." +:+ drop decpt ds.

(** [repr(x)], which is also [str(x)] for a float. *)
Definition repr (x : float) : string :=
  match x with
  | S754_zero s => if s then "-0.0" else "0.0"
  | S754_infinity s => if s then "-inf" else "inf"
  | S754_nan => "nan"
  | S754_finite s m e =>
      let '(ds, decpt) := digits m e in
      (if s then "-" else "") +:+ layout ds decpt
  end.

End Float.

Abbreviation float := spec_float.

(* ===================================================================== *)
(** * Python strings, numbers read from strings, lists, dictionaries *)
(* ===================================================================== *)

Module PyStr.

(** The characters [str.split()], [str.strip()], [float()] and [int()]
    treat as white space. *)
Definition is_space (c : ascii) : bool :=
  let n := nat_of_ascii c in
  ((9 <=? n) && (n <=? 13) || (28 <=? n) && (n <=? 32))%nat.

Fixpoint lstrip (l : list ascii) : list ascii :=
  match l with
  | c :: l' => if is_space c then lstrip l' else l
  | [] => []
  end.

Definition strip_chars (l : list ascii) : list ascii :=
  reverse (lstrip (reverse (lstrip l))).

(** [s.split()]: the maximal runs of characters that are not white space. *)
Fixpoint split_ws_go (l : list ascii) (cur : list ascii) : list string :=
  match l with
  | [] => match cur with [] => [] | _ => [implode (reverse cur)] end
  | c :: l' =>
      if is_space c
      then match cur with
           | [] => split_ws_go l' []
           | _ => implode (reverse cur) :: split_ws_go l' []
           end
      else split_ws_go l' (c :: cur)
  end.

Definition split_ws (s : string) : list string := split_ws_go (explode s) [].

(** [s.split(sep)] for a separator of one character: every occurrence
    splits, empty pieces are kept. *)
Fixpoint split_on_go (sep : ascii) (l cur : list ascii) : list string :=
  match l with
  | [] => [implode (reverse cur)]
  | c :: l' =>
      if Ascii.eqb c sep
      then implode (reverse cur) :: split_on_go sep l' []
      else split_on_go sep l' (c :: cur)
  end.

Definition split_on (sep : ascii) (s : string) : list string :=
  split_on_go sep (explode s) [].

Fixpoint is_prefix (p l : list ascii) : bool :=
  match p, l with
  | [], _ => true
  | a :: p', b :: l' => Ascii.eqb a b && is_prefix p' l'
  | _ :: _, [] => false
  end.

(** [s.startswith(p)]. *)
Definition startswith (s p : string) : bool :=
  is_prefix (explode p) (explode s).

(** [s.endswith(p)]. *)
Definition endswith (s p : string) : bool :=
  is_prefix (reverse (explode p)) (reverse (explode s)).

Fixpoint contains_go (p l : list ascii) : bool :=
  is_prefix p l || match l with [] => false | _ :: l' => contains_go p l' end.

(** [p in s]. *)
Definition contains (p s : string) : bool :=
  contains_go (explode p) (explode s).

(** [s[:-1]]. *)
Definition drop_last (s : string) : string :=
  implode (removelast (explode s)).

Definition digit (c : ascii) : option Z :=
  let n := nat_of_ascii c in
  if ((48 <=? n) && (n <=? 57))%nat then Some (Z.of_nat n - 48) else None.

(** A [digitpart]: digits, single underscores allowed between two of
    them. Gives the value read, the number of digits and the rest. *)
Fixpoint digitpart (l : list ascii) (v n : Z) : Z * Z * list ascii :=
  match l with
  | [] => (v, n, [])
  | c :: l' =>
      match digit c with
      | Some d => digitpart l' (10 * v + d) (n + 1)
      | None =>
          if Ascii.eqb c "_" && (0 <? n)
             && match l' with c' :: _ => bool_decide (is_Some (digit c'))
                            | [] => false end
          then digitpart l' v n
          else (v, n, l)
      end
  end.

Definition sign (l : list ascii) : bool * list ascii :=
  match l with
  | "-"%char :: l' => (true, l')
  | "+"%char :: l' => (false, l')
  | _ => (false, l)
  end.

Definition lower (c : ascii) : ascii :=
  let n := nat_of_ascii c in
  if ((65 <=? n) && (n <=? 90))%nat then ascii_of_nat (n + 32) else c.

(** The exponent of a float literal: [("e" | "E") [sign] digitpart]. *)
Definition exponent (l : list ascii) : option (Z * list ascii) :=
  match l with
  | c :: l' =>
      if Ascii.eqb (lower c) "e"
      then let '(neg, l'') := sign l' in
           let '(v, n, rest) := digitpart l'' 0 0 in
           if 0 <? n then Some (if neg then - v else v, rest) else None
      else Some (0, l)
  | [] => Some (0, [])
  end.

(** [float(s)]: [None] where Python raises ValueError. *)
Definition float_of_string (s : string) : option float :=
  let '(neg, l) := sign (strip_chars (explode s)) in
  let word := implode (map lower l) in
  if bool_decide (word = "inf") || bool_decide (word = "infinity")
  then Some (Float.inf neg)
  else if bool_decide (word = "nan") then Some Float.nan
  else
    let '(vi, ni, l1) := digitpart l 0 0 in
    let '(vf, nf, l2) :=
      match l1 with
      | "."%char :: l1' => digitpart l1' 0 0
      | _ => (0, 0, l1)
      end in
    if (0 <? ni) || (0 <? nf)
    then match exponent l2 with
         | Some (x, []) => Some (Float.of_decimal neg (vi * 10 ^ nf + vf) (x - nf))
         | _ => None
         end
    else None.

(** [int(s)] in base 10: [None] where Python raises ValueError. *)
Definition int_of_string (s : string) : option Z :=
  let '(neg, l) := sign (strip_chars (explode s)) in
  match digitpart l 0 0 with
  | (v, n, []) => if 0 <? n then Some (if neg then - v else v) else None
  | _ => None
  end.

(** [sep.join(l)]. *)
Fixpoint join (sep : string) (l : list string) : string :=
  match l with
  | [] => ""
  | [x] => x
  | x :: l' => x +:+ sep +:+ join sep l'
  end.

End PyStr.

(** A dictionary with string keys: the items in insertion order. *)
Definition pydict (V : Type) : Type := list (string * V).

Module Dict.
Section Ops.
Context {V : Type}.

Fixpoint get (k : string) (d : pydict V) : option V :=
  match d with
  | [] => None
  | (k', v) :: d' => if bool_decide (k' = k) then Some v else get k d'
  end.

(** [d[k] = v]: a present key keeps its place, a new one goes last. *)
Fixpoint set (k : string) (v : V) (d : pydict V) : pydict V :=
  match d with
  | [] => [(k, v)]
  | (k', v') :: d' =>
      if bool_decide (k' = k) then (k, v) :: d' else (k', v') :: set k v d'
  end.

Definition has (k : string) (d : pydict V) : bool :=
  bool_decide (is_Some (get k d)).

Definition keys (d : pydict V) : list string := d.*1.

(** [d.update(e)]. *)
Definition update (d e : pydict V) : pydict V :=
  foldl (λ acc kv, set kv.1 kv.2 acc) d e.
End Ops.
End Dict.

(** The values the host program hands over where the code only prints or
    tests them: the scalars, and any other object as the text [str] gives
    for it together with its truth value. *)
Inductive pyval :=
| PyNone
| PyBool (b : bool)
| PyInt (z : Z)
| PyFloat (f : float)
| PyStr (s : string)
| PyObj (text : string) (truth : bool).

(** [str(v)]. *)
Definition py_str (v : pyval) : string :=
  match v with
  | PyNone => "None"
  | PyBool b => if b then "True" else "False"
  | PyInt z => pretty z
  | PyFloat f => Float.repr f
  | PyStr s => s
  | PyObj text _ => text
  end.

(** The truth value [if v:] tests. *)
Definition truthy (v : pyval) : bool :=
  match v with
  | PyNone => false
  | PyBool b => b
  | PyInt z => negb (z =? 0)
  | PyFloat f => negb (Float.eqb f Float.zero)
  | PyStr s => negb (bool_decide (s = ""))
  | PyObj _ t => t
  end.

(** [v == s] for a string [s]. *)
Definition py_eq_str (v : pyval) (s : string) : bool :=
  match v with
  | PyStr s' => bool_decide (s' = s)
  | PyObj _ _ => false
  | _ => false
  end.

(* ===================================================================== *)
(** * Exceptions and the monad of Python code *)
(* ===================================================================== *)

(** A raised exception: its class name and the text [str(error)] gives.
    [Exc] is an instance of [Exception], which [except Exception] catches;
    [BaseExc] is one of the others (KeyboardInterrupt, SystemExit), which
    only a bare [except:] catches. *)
Inductive exn :=
| Exc (cls msg : string)
| BaseExc (cls msg : string).

Definition exn_str (e : exn) : string :=
  match e with Exc _ msg | BaseExc _ msg => msg end.

Inductive result (A : Type) :=
| Ok (a : A)
| Raise (e : exn).
Arguments Ok {A} a.
Arguments Raise {A} e.

Definition is_ok {A} (r : result A) : bool :=
  match r with Ok _ => true | Raise _ => false end.

(** A computation over a state [S]: the state it leaves, and a value or
    the exception raised. What was done before a raise stays done. *)
Definition M (S A : Type) : Type := S → S * result A.

Definition ret {S A} (a : A) : M S A := λ s, (s, Ok a).

Definition bind {S A B} (m : M S A) (k : A → M S B) : M S B :=
  λ s, match m s with
       | (s', Ok a) => k a s'
       | (s', Raise e) => (s', Raise e)
       end.

Definition raise {S A} (e : exn) : M S A := λ s, (s, Raise e).

Notation "'do' x <- m ; k" := (bind m (λ x, k))
  (at level 10, x name, m at level 100, k at level 200,
   format "'[v' 'do'  x  <-  m ; '/' k ']'").

(** [try: m except Exception as error: h error]. *)
Definition try_except {S A} (m : M S A) (h : exn → M S A) : M S A :=
  λ s, match m s with
       | (s', Raise (Exc cls msg)) => h (Exc cls msg) s'
       | r => r
       end.

(** [try: m except: h], which catches every exception. *)
Definition try_bare {S A} (m : M S A) (h : M S A) : M S A :=
  λ s, match m s with
       | (s', Raise _) => h s'
       | r => r
       end.

(** [for x in l: body x]. *)
Fixpoint for_each {S X} (l : list X) (body : X → M S unit) : M S unit :=
  match l with
  | [] => ret tt
  | x :: l' => do _ <- body x; for_each l' body
  end.

(** A value that may be missing, or the exception for it. *)
Definition from_option {S A} (o : option A) (e : exn) : M S A :=
  match o with Some a => ret a | None => raise e end.

Definition IndexError : exn := Exc "IndexError" "list index out of range".

(** [l[i]] for a list: negative indices count from the end. *)
Definition py_index {A} (l : list A) (i : Z) : option A :=
  if 0 <=? i then l !! Z.to_nat i
  else if 0 <=? Z.of_nat (length l) + i
       then l !! Z.to_nat (Z.of_nat (length l) + i)
       else None.

Definition index {S A} (l : list A) (i : Z) : M S A :=
  from_option (py_index l i) IndexError.

(** [float(s)] and [int(s)]. *)
Definition py_float {S} (s : string) : M S float :=
  from_option (PyStr.float_of_string s)
    (Exc "ValueError" ("could not convert string to float: '" +:+ s +:+ "'")).

Definition py_int {S} (s : string) : M S Z :=
  from_option (PyStr.int_of_string s)
    (Exc "ValueError"
       ("invalid literal for int() with base 10: '" +:+ s +:+ "'")).

(* ===================================================================== *)
(** * The file system *)
(* ===================================================================== *)

(** A path is the list of its components, below the root [[]]. The model
    has no links, no relative paths and no pattern characters in directory
    names. *)
Definition path : Type := list string.

Definition path_str (p : path) : string := PyStr.join "/" p.

Inductive node :=
| File (content : string)
| Dir.

Global Instance node_eq_dec : EqDecision node.
Proof. solve_decision. Defined.

Module FS.

Abbreviation t := (gmap path node).

Definition lookup (fs : t) (p : path) : option node :=
  match p with [] => Some Dir | _ => fs !! p end.

(** [os.path.exists(p)]. *)
Definition exists_ (fs : t) (p : path) : bool :=
  bool_decide (is_Some (lookup fs p)).

(** [os.path.isdir(p)]. *)
Definition isdir (fs : t) (p : path) : bool :=
  bool_decide (lookup fs p = Some Dir).

(** [os.path.dirname(p)]. *)
Definition dirname (p : path) : path := removelast p.

(** [os.path.basename(p)]. *)
Definition basename (p : path) : string := List.last p "".

(** The directories above [p] and [p] itself, outermost first. *)
Definition ancestors (p : path) : list path :=
  (λ n, take n p) <$> seq 1 (length p).

(** One directory on the way to [p]: made if it is missing, left if it
    is there, an error if a file has its name. *)
Definition mkdir (p : path) (acc : result t) (q : path) : result t :=
  match acc with
  | Raise e => Raise e
  | Ok fs' =>
      match lookup fs' q with
      | None => Ok (<[q := Dir]> fs')
      | Some Dir => Ok fs'
      | Some (File _) =>
          Raise (Exc "NotADirectoryError"
                   ("Not a directory: '" +:+ path_str p +:+ "'"))
      end
  end.

(** [os.makedirs(p)]: the missing directories above [p] are made, then
    [p], which must not exist. *)
Definition makedirs (fs : t) (p : path) : result t :=
  if exists_ fs p
  then Raise (Exc "FileExistsError" ("File exists: '" +:+ path_str p +:+ "'"))
  else foldl (mkdir p) (Ok fs) (ancestors p).

(** [shutil.rmtree(p)]: [p] and everything below it goes. *)
Definition rmtree (fs : t) (p : path) : result t :=
  match lookup fs p with
  | Some Dir => Ok (filter (λ kv, ¬ p `prefix_of` kv.1) fs)
  | Some (File _) =>
      Raise (Exc "NotADirectoryError"
               ("Not a directory: '" +:+ path_str p +:+ "'"))
  | None =>
      Raise (Exc "FileNotFoundError"
               ("No such file or directory: '" +:+ path_str p +:+ "'"))
  end.

(** The name matches the pattern ["*" + ext]; a pattern that starts
    with a star leaves out the names that start with a dot. *)
Definition matches (ext name : string) : bool :=
  PyStr.endswith name ext && negb (PyStr.startswith name ".").

(** The entries of directory [d], in the order the map lists them. *)
Definition listdir (fs : t) (d : path) : list (path * node) :=
  if isdir fs d
  then filter (λ kv, dirname kv.1 = d ∧ kv.1 ≠ []) (map_to_list fs)
  else [].

(** [glob.glob(os.path.join(d, "*" + ext))]. *)
Definition glob (fs : t) (d : path) (ext : string) : list path :=
  (filter (λ kv, matches ext (basename kv.1) = true) (listdir fs d)).*1.

(** [shutil.copy(src, dst)]: into [dst] when it is a directory, under
    the name of [src]. *)
Definition copy (fs : t) (src dst : path) : result t :=
  match lookup fs src with
  | Some (File c) =>
      let dst' := if isdir fs dst then dst ++ [basename src] else dst in
      if bool_decide (dst' = src)
      then Raise (Exc "SameFileError"
                    ("'" +:+ path_str src +:+ "' and '" +:+ path_str dst'
                         +:+ "' are the same file"))
      else Ok (<[dst' := File c]> fs)
  | Some Dir =>
      Raise (Exc "IsADirectoryError"
               ("Is a directory: '" +:+ path_str src +:+ "'"))
  | None =>
      Raise (Exc "FileNotFoundError"
               ("No such file or directory: '" +:+ path_str src +:+ "'"))
  end.

Definition content (fs : t) (p : path) : string :=
  match fs !! p with Some (File c) => c | _ => "" end.

(** [open(p, "a")] followed by writing [text]. A failure of the
    operating system to open or write the file is not modelled. *)
Definition append (fs : t) (p : path) (text : string) : t :=
  <[p := File (content fs p +:+ text)]> fs.

(** [open(p, "w")] closed at once: an empty file. *)
Definition create (fs : t) (p : path) : t := <[p := File ""]> fs.

End FS.

(* ===================================================================== *)
(** * The world outside: host program, refinement engine, cctbx *)
(* ===================================================================== *)

(** What the program does that the outside can see, in order. *)
Inductive event :=
| EvCall (fn : string) (args : list pyval)
| EvPrint (text : string)
| EvFinished (i : Z) (answer : bool)
| EvNew (id : Z)
| EvRun (id : Z).

Record World := MkWorld {
  fs : FS.t;
  trace : list event
}.

Definition set_fs (f : FS.t → FS.t) (w : World) : World :=
  MkWorld (f (fs w)) (trace w).

Definition add_event (ev : event) (w : World) : World :=
  MkWorld (fs w) (trace w ++ [ev]).

(** The answers of the outside, by the type of the answer. Each is asked
    with the world as it stands (the files, and every call made so far),
    the name of the function and its arguments, and may raise.

    - [env_unit]: calls whose value is not used (commands to the engine,
      settings, the handles cctbx gives out);
    - [env_val]: a value that is printed or tested;
    - [env_str], [env_float], [env_floats], [env_strs], [env_dict]: a
      string, a float, a list of floats, a list of strings, a dictionary;
    - [env_pairs]: the bonded pairs the distance iterator yields, as the
      indices of the two atoms, each step of the iteration being a pair
      or the exception the step raises;
    - [env_finished]: [is_finished(i)] of the benchmark file;
    - [env_jobs]: the configurations of the benchmark file, in order;
    - [env_pow]: [pow] of the C library, which [math.pow] calls on
      finite arguments: a function of its two arguments, of whose
      rounding nothing is assumed. *)
Record Env := MkEnv {
  env_unit : World → string → list pyval → result unit;
  env_val : World → string → list pyval → result pyval;
  env_str : World → string → list pyval → result string;
  env_float : World → string → list pyval → result float;
  env_floats : World → string → list pyval → result (list float);
  env_strs : World → string → list pyval → result (list string);
  env_dict : World → string → list pyval → result (pydict pyval);
  env_pairs : World → string → list pyval → result (list (result (Z * Z)));
  env_finished : World → Z → result bool;
  env_jobs : World → path → result (list (pydict pyval));
  env_pow : float → float → float
}.

(** The state of a method at work: the world, the object [self] with its
    attributes, and the local variables. *)
Record Frame (Self L : Type) := MkFrame {
  world : World;
  self : Self;
  locals : L
}.
Arguments MkFrame {Self L}.
Arguments world {Self L}.
Arguments self {Self L}.
Arguments locals {Self L}.

Section Primitives.
Context {Self L : Type}.

Definition get_world : M (Frame Self L) World := λ s, (s, Ok (world s)).

Definition modify_world (f : World → World) : M (Frame Self L) unit :=
  λ s, (MkFrame (f (world s)) (self s) (locals s), Ok tt).

Definition get_self : M (Frame Self L) Self := λ s, (s, Ok (self s)).

Definition modify_self (f : Self → Self) : M (Frame Self L) unit :=
  λ s, (MkFrame (world s) (f (self s)) (locals s), Ok tt).

Definition get_locals : M (Frame Self L) L := λ s, (s, Ok (locals s)).

Definition modify_locals (f : L → L) : M (Frame Self L) unit :=
  λ s, (MkFrame (world s) (self s) (f (locals s)), Ok tt).

Definition emit (ev : event) : M (Frame Self L) unit :=
  modify_world (add_event ev).

(** [print(text)]. *)
Definition print (text : string) : M (Frame Self L) unit :=
  emit (EvPrint text).

(** A call to the outside: it is answered from the world as it stands,
    and recorded. *)
Definition ask {A} (answer : World → string → list pyval → result A)
    (fn : string) (args : list pyval) : M (Frame Self L) A :=
  λ s, (MkFrame (add_event (EvCall fn args) (world s)) (self s) (locals s),
        answer (world s) fn args).

(** A file operation that may fail. *)
Definition fs_try (op : FS.t → result FS.t) : M (Frame Self L) unit :=
  λ s, match op (fs (world s)) with
       | Ok fs' => (MkFrame (set_fs (λ _, fs') (world s)) (self s) (locals s),
                    Ok tt)
       | Raise e => (s, Raise e)
       end.

(** A method of [self] called from a method: it runs on the same world
    and object with local variables of its own. *)
Definition invoke {L' A} (m : M (Frame Self L') A) (l0 : L')
  : M (Frame Self L) A :=
  λ s, let '(s', r) := m (MkFrame (world s) (self s) l0) in
       (MkFrame (world s') (self s') (locals s), r).

(** A method of another object [o]: the object as the call leaves it
    comes back with the value. *)
Definition invoke_on {Self' L' A} (o : Self') (m : M (Frame Self' L') A)
    (l0 : L') : M (Frame Self L) (Self' * result A) :=
  λ s, let '(s', r) := m (MkFrame (world s) o l0) in
       (MkFrame (world s') (self s) (locals s), Ok (self s', r)).

End Primitives.

(** The line feed, and the string of [n] copies of a character. *)
Definition nl : string := String "010"%char "".

Definition repeat_char (c : ascii) (n : nat) : string :=
  implode (replicate n c).

(* ===================================================================== *)
(** * class BenchJob *)
(* ===================================================================== *)

Module BenchJob.

(** The attributes of a job. [ins_file] is missing until
    [setup_workspace] sets it. *)
Record t := Make {
  base_work_path : path;
  id : Z;
  use_nos2 : pyval;
  nos2_params : option (pydict pyval);
  work_path : path;
  time_needed : pyval;
  cycles_needed : pyval;
  ins_file : option path
}.

Definition set_ins_file (p : path) (j : t) : t :=
  Make (base_work_path j) (id j) (use_nos2 j) (nos2_params j) (work_path j)
       (time_needed j) (cycles_needed j) (Some p).

Definition set_time_needed (v : pyval) (j : t) : t :=
  Make (base_work_path j) (id j) (use_nos2 j) (nos2_params j) (work_path j)
       v (cycles_needed j) (ins_file j).

Definition set_cycles_needed (v : pyval) (j : t) : t :=
  Make (base_work_path j) (id j) (use_nos2 j) (nos2_params j) (work_path j)
       (time_needed j) v (ins_file j).

(** [os.path.join(base_work_path, f"job_{id}")]. *)
Definition job_dir (base : path) (i : Z) : path :=
  base ++ ["job_" +:+ pretty i].

Definition log_path (j : t) : path := work_path j ++ ["out.log"].
Definition results_path (j : t) : path := work_path j ++ ["results.txt"].
Definition done_path (j : t) : path := work_path j ++ ["done"].

(** [for key in d], where [d] may be [None]. *)
Definition iter_params {S} (d : option (pydict pyval))
  : M S (pydict pyval) :=
  from_option d (Exc "TypeError" "'NoneType' object is not iterable").

(** The values kept in the cif dictionary: a number, or a displacement
    with the digits of its uncertainty. *)
Inductive cifval :=
| CifNum (f : float)
| CifUeq (ueq : float) (delta : Z).

Definition cif_str (v : cifval) : string :=
  match v with
  | CifNum f => Float.repr f
  | CifUeq f d => "(" +:+ Float.repr f +:+ ", " +:+ pretty d +:+ ")"
  end.

Definition dat_names : list string :=
  [ "mu"; "wavelength"; "F000"; "tot_reflIns"; "goof"; "R_all"; "R1"; "wR2";
    "last Shift" ].

Definition corr_filts : list string :=
  [ "exptl_absorpt_coefficient_mu";
    "diffrn_radiation_wavelength";
    "exptl_crystal_F_000";
    "diffrn_reflns_number";
    "refine_ls_goodness_of_fit_ref";
    "refine_ls_R_factor_all";
    "refine_ls_R_factor_gt";
    "refine_ls_wR_factor_ref";
    "REM Shift_max" ].

(** The local variables of [parse_cif]. *)
Record cif_locals := CifLocals {
  out : pydict cifval;
  switch2 : bool
}.

Definition set_out (k : string) (v : cifval) (l : cif_locals) : cif_locals :=
  CifLocals (Dict.set k v (out l)) (switch2 l).

Definition set_switch2 (b : bool) (l : cif_locals) : cif_locals :=
  CifLocals (out l) b.

(** The local variables of [extract_info] that outlive the block that
    assigns them. [cif_stats] is [None] until it is assigned;
    [cell_stats] and [hkl_stats] are assigned before anything reads
    them. *)
Record locals := Locals {
  cell_stats : pydict pyval;
  hkl_stats : pydict pyval;
  cif_stats : option (pydict cifval);
  dist_stats : pydict float;
  dist_errs : pydict float;
  R1_all : pyval;
  R1_gt : pyval;
  wR2 : pyval
}.

Definition no_locals : locals :=
  Locals [] [] None [] [] PyNone PyNone PyNone.

Definition set_cell_stats (f : pydict pyval → pydict pyval) (l : locals)
  : locals :=
  Locals (f (cell_stats l)) (hkl_stats l) (cif_stats l) (dist_stats l)
         (dist_errs l) (R1_all l) (R1_gt l) (wR2 l).

Definition set_hkl_stats (d : pydict pyval) (l : locals) : locals :=
  Locals (cell_stats l) d (cif_stats l) (dist_stats l) (dist_errs l)
         (R1_all l) (R1_gt l) (wR2 l).

Definition set_cif_stats (d : pydict cifval) (l : locals) : locals :=
  Locals (cell_stats l) (hkl_stats l) (Some d) (dist_stats l) (dist_errs l)
         (R1_all l) (R1_gt l) (wR2 l).

Definition set_dist_stats (f : pydict float → pydict float) (l : locals)
  : locals :=
  Locals (cell_stats l) (hkl_stats l) (cif_stats l) (f (dist_stats l))
         (dist_errs l) (R1_all l) (R1_gt l) (wR2 l).

Definition set_dist_errs (f : pydict float → pydict float) (l : locals)
  : locals :=
  Locals (cell_stats l) (hkl_stats l) (cif_stats l) (dist_stats l)
         (f (dist_errs l)) (R1_all l) (R1_gt l) (wR2 l).

Definition set_R1_all (v : pyval) (l : locals) : locals :=
  Locals (cell_stats l) (hkl_stats l) (cif_stats l) (dist_stats l)
         (dist_errs l) v (R1_gt l) (wR2 l).

Definition set_R1_gt (v : pyval) (l : locals) : locals :=
  Locals (cell_stats l) (hkl_stats l) (cif_stats l) (dist_stats l)
         (dist_errs l) (R1_all l) v (wR2 l).

Definition set_wR2 (v : pyval) (l : locals) : locals :=
  Locals (cell_stats l) (hkl_stats l) (cif_stats l) (dist_stats l)
         (dist_errs l) (R1_all l) (R1_gt l) v.

(** ** The covariance of the cell parameters *)

Definition matrix : Type := list (list float).

Definition entry (m : matrix) (i j : nat) : option float :=
  m !! i ≫= (.!! j).

(** [flex.pow2(matrix.diag(errors).as_flex_double_matrix())]: the
    squares of the entries of the diagonal matrix of [errors]. *)
Definition diag_pow2 (errors : list float) : matrix :=
  imap (λ i e,
          <[i := Float.mul e e]>
            (replicate (length errors) (Float.mul Float.zero Float.zero)))
       errors.

(** [m[i, j] = v]. *)
Definition set_entry {S} (m : matrix) (i j : nat) (v : float) : M S matrix :=
  match m !! i with
  | Some row =>
      if bool_decide (j < length row)%nat
      then ret (<[i := <[j := v]> row]> m)
      else raise IndexError
  | None => raise IndexError
  end.

Definition is_finite (x : float) : bool :=
  match x with S754_zero _ | S754_finite _ _ _ => true | _ => false end.

Definition is_inf (x : float) : bool :=
  match x with S754_infinity _ => true | _ => false end.

Definition is_nan (x : float) : bool :=
  match x with S754_nan => true | _ => false end.

Definition is_zero (x : float) : bool :=
  match x with S754_zero _ => true | _ => false end.

(** The value [math.pow(x, 2)] computes: for a finite [x] what [pow]
    of the C library gives, which need not be the correctly rounded
    square; a NaN for a NaN and the positive infinity for an infinity,
    which [math.pow] answers itself. *)
Definition pow2_value (env : Env) (x : float) : float :=
  match x with
  | S754_nan => x
  | S754_infinity _ => S754_infinity false
  | _ => env_pow env x (Float.of_Z 2)
  end.

(** [math.pow(x, 2)]: for a finite [x] a value that is not finite is an
    error, of the range when it is an infinity and [x] is not zero, of
    the domain otherwise. *)
Definition math_pow2 {S} (env : Env) (x : float) : M S float :=
  let r := pow2_value env x in
  if is_finite x && negb (is_finite r)
  then
    if is_inf r && negb (is_zero x)
    then raise (Exc "OverflowError" "math range error")
    else raise (Exc "ValueError" "math domain error")
  else ret r.

(** The test of the symmetry correction for the axes [i] and [j]: the
    conjuncts are looked up and compared from left to right, and the
    first that fails ends the test. *)
Definition symmetric_axes {S} (cell_params cell_errors : list float)
    (i j : Z) : M S bool :=
  let ninety := Float.of_Z 90 in
  do pi <- index cell_params i;
  do pj <- index cell_params j;
  if negb (Float.eqb pi pj) then ret false else
  do ei <- index cell_errors i;
  do ej <- index cell_errors j;
  if negb (Float.eqb ei ej) then ret false else
  do ai <- index cell_params (i + 3);
  if negb (Float.eqb ai ninety) then ret false else
  do si <- index cell_errors (i + 3);
  if negb (Float.eqb si Float.zero) then ret false else
  do aj <- index cell_params (j + 3);
  if negb (Float.eqb aj ninety) then ret false else
  do sj <- index cell_errors (j + 3);
  ret (Float.eqb sj Float.zero).

(** One turn of the inner loop. *)
Definition correct_pair {S} (env : Env) (cell_params cell_errors : list float)
    (m : matrix) (ij : Z * Z) : M S matrix :=
  let '(i, j) := ij in
  do sym <- symmetric_axes cell_params cell_errors i j;
  if sym : bool
  then
    do ei <- index cell_errors i;
    do v <- math_pow2 env ei;
    do m1 <- set_entry m (Z.to_nat i) (Z.to_nat j) v;
    do ei' <- index cell_errors i;
    do v' <- math_pow2 env ei';
    set_entry m1 (Z.to_nat j) (Z.to_nat i) v'
  else ret m.

(** The pairs [for i in range(3): for j in range(i + 1, 3)] visits. *)
Definition axis_pairs : list (Z * Z) := [(0, 1); (0, 2); (1, 2)].

Fixpoint fold_pairs {S} (env : Env) (cell_params cell_errors : list float)
    (pairs : list (Z * Z)) (m : matrix) : M S matrix :=
  match pairs with
  | [] => ret m
  | ij :: rest =>
      do m' <- correct_pair env cell_params cell_errors m ij;
      fold_pairs env cell_params cell_errors rest m'
  end.

(** The cell covariance matrix as the loop leaves it. *)
Definition cell_vcv {S} (env : Env) (cell_params cell_errors : list float)
  : M S matrix :=
  fold_pairs env cell_params cell_errors axis_pairs (diag_pow2 cell_errors).

(** [m.matrix_symmetric_as_packed_u()]: the upper triangle, by rows. *)
Definition packed_u (m : matrix) : list float :=
  concat (imap (λ i row, drop i row) m).

(** ** The methods *)

Section Methods.
Variable env : Env.

Section Plain.
Context {L : Type}.
Implicit Types out text key : string.

(** [setup_workspace]: a fresh directory for the job
    ([make_fresh] is its first statement), with the first
    reflection file and the first model file of the data directory
    copied into it. *)
Definition make_fresh : M (Frame t L) unit :=
  do me <- get_self;
  do w <- get_world;
  if negb (FS.exists_ (fs w) (work_path me))
  then fs_try (λ f, FS.makedirs f (work_path me))
  else
    do _ <- fs_try (λ f, FS.rmtree f (work_path me));
    fs_try (λ f, FS.makedirs f (work_path me)).

Definition setup_workspace : M (Frame t L) unit :=
  do _ <- make_fresh;
  do me <- get_self;
  let data_dir := FS.dirname (base_work_path me) in
  do w <- get_world;
  do hkl <- index (FS.glob (fs w) data_dir ".hkl") 0;
  do _ <- fs_try (λ f, FS.copy f hkl (work_path me));
  do w <- get_world;
  do ins <- index (FS.glob (fs w) data_dir ".ins") 0;
  do _ <- fs_try (λ f, FS.copy f ins (work_path me));
  do w <- get_world;
  do mine <- index (FS.glob (fs w) (work_path me) ".ins") 0;
  modify_self (set_ins_file mine).

(** [write_log(out)]: a line at the end of [out.log]. *)
Definition write_log out : M (Frame t L) unit :=
  do me <- get_self;
  modify_world (set_fs (λ f, FS.append f (log_path me) (out +:+ nl))).

Definition write_log_header out : M (Frame t L) unit :=
  let bar := repeat_char "=" 27 in
  write_log (bar +:+ " " +:+ out +:+ " " +:+ bar).

(** [olex.m(cmd)], [OV.SetParam(key, value)], [OV.GetParam(key)]. *)
Definition olex_m (cmd : string) : M (Frame t L) unit :=
  ask (env_unit env) "olex.m" [PyStr cmd].

Definition SetParam key (v : pyval) : M (Frame t L) unit :=
  ask (env_unit env) "OV.SetParam" [PyStr key; v].

Definition GetParam key : M (Frame t L) pyval :=
  ask (env_val env) "OV.GetParam" [PyStr key].

Definition configure_ORCA : M (Frame t L) unit :=
  do _ <- ask (env_unit env) "olx.xf.EndUpdate" [];
  do gui <- ask (env_val env) "OV.HasGUI" [];
  do _ <- (if truthy gui then ask (env_unit env) "olx.Refresh" []
           else ret tt);
  do _ <- SetParam "snum.NoSpherA2.source" (PyStr "ORCA 6.0");
  do me <- get_self;
  do params <- iter_params (nos2_params me);
  do _ <- for_each params (λ kv,
            do _ <- SetParam ("snum.NoSpherA2." +:+ kv.1)
                             (PyStr (py_str kv.2));
            do v <- GetParam ("snum.NoSpherA2." +:+ kv.1);
            write_log (kv.1 +:+ ": " +:+ py_str v));
  do _ <- SetParam "snum.NoSpherA2.Calculate" (PyBool true);
  do _ <- SetParam "snum.NoSpherA2.precise_output" (PyBool true);
  do _ <- SetParam "snum.NoSpherA2.use_aspherical" (PyBool true);
  do _ <- SetParam "snum.NoSpherA2.h_aniso" (PyBool true);
  do mult <- GetParam "snum.NoSpherA2.multiplicity";
  if py_eq_str mult "0"
  then
    do _ <- write_log "I wil set a Multiplicity of 1, since none selected";
    SetParam "snum.NoSpherA2.multiplicity" (PyStr "1")
  else ret tt.

(** The threshold [0.001] of the extinction branch. *)
Definition exti_threshold : float := Float.of_decimal false 1 (-3).

Definition set_GN : string :=
  "spy.set_refinement_program(olex2.refine, Gauss-Newton)".
Definition set_LM : string :=
  "spy.set_refinement_program(olex2.refine, Levenberg-Marquardt)".

(** The first part of the body of [refine], up to the three
    cycles of the independent atom model. *)
Definition refine_start : M (Frame t L) unit :=
  do me <- get_self;
  do ins <- from_option (ins_file me)
              (Exc "AttributeError"
                 "'BenchJob' object has no attribute 'ins_file'");
  do _ <- olex_m ("reap " +:+ path_str ins);
  do _ <- write_log_header "Starting New Refinement";
  do _ <- write_log ("ID: " +:+ pretty (id me));
  do _ <- write_log ("Was able to load .ins: " +:+ path_str ins);
  do _ <- ask (env_unit env) "olx.AddIns" [PyStr "EXTI"];
  do _ <- ask (env_unit env) "olx.AddIns" [PyStr "ACTA"];
  do _ <- olex_m "fix disp -c";
  do weight <- GetParam "sisyphos.update_weight";
  do _ <- (if truthy weight
           then
             do _ <- SetParam "snum.refinement.update_weight" (PyBool true);
             write_log "Refining the weighting scheme"
           else
             do _ <- SetParam "snum.refinement.update_weight" (PyBool false);
             write_log "keeping weighting scheme");
  do _ <- olex_m set_GN;
  do _ <- write_log "Set refinement engine olex2.refine with G-N";
  do _ <- SetParam "snum.NoSpherA2.use_aspherical" (PyBool false);
  for_each (seq 0 3) (λ _, olex_m "refine 5").

(** The extinction branch, for the value [exti] the engine reported. *)
Definition extinction_branch (exti : string) : M (Frame t L) unit :=
  if negb (bool_decide (exti = "n/a"))
  then
    do head <- index (PyStr.split_on "(" exti) 0;
    do x <- py_float head;
    if Float.ltb x exti_threshold
    then
      do _ <- olex_m "delins EXTI";
      write_log ("Deleted EXTI with exti of: " +:+ exti)
    else
      do _ <- write_log "Exti > 0.001, set L-M instead of G-N";
      olex_m set_LM
  else ret tt.

(** The pass with NoSpherA2. *)
Definition advanced_pass : M (Frame t L) unit :=
  do _ <- configure_ORCA;
  do _ <- write_log "Starting iterative NoSpherA2 refinement";
  do start <- ask (env_float env) "time.perf_counter" [];
  do _ <- olex_m "refine 20";
  do end_ <- ask (env_float env) "time.perf_counter" [];
  do _ <- write_log ("Refinement took "
                     +:+ Float.repr (Float.sub end_ start)
                     +:+ " seconds");
  do cycles <- ask (env_val env) "OV.GetVar" [PyStr "Run_number"];
  do _ <- write_log ("Refinement took " +:+ py_str cycles +:+ " cycles");
  do _ <- modify_self (set_time_needed (PyFloat (Float.sub end_ start)));
  do cycles' <- ask (env_val env) "OV.GetVar" [PyStr "Run_number"];
  modify_self (set_cycles_needed cycles').

(** The end of the body of [refine]: the second pass of the
    independent atom model, then the pass with NoSpherA2 if it is
    selected. *)
Definition refine_end : M (Frame t L) unit :=
  do _ <- olex_m "refine 10";
  do me <- get_self;
  if truthy (use_nos2 me) then advanced_pass else ret tt.

(** The handler of [refine]. *)
Definition refine_failed (error : exn) : M (Frame t L) unit :=
  do _ <- write_log (exn_str error);
  write_log "Failed during refinenement!".

(** [refine]: the protocol, with every [Exception] logged. *)
Definition refine : M (Frame t L) unit :=
  try_except
    (do _ <- refine_start;
     do exti <- ask (env_str env) "olx.xf.rm.Exti" [];
     do _ <- write_log ("Found Extinction: " +:+ exti);
     do _ <- extinction_branch exti;
     refine_end)
    refine_failed.

(** [math.sqrt(x)]. *)
Definition math_sqrt (x : float) : M (Frame t L) float :=
  if Float.ltb x Float.zero
  then raise (Exc "ValueError" "math domain error")
  else ret (Float.sqrt x).

End Plain.

(** ** [parse_cif] *)

(** The scan for the field markers. *)
Definition basic_body (loc : string) : M (Frame t cif_locals) unit :=
  do lines <- ask (env_strs env) "open" [PyStr loc];
  do _ <- for_each lines (λ line,
            for_each (imap (λ i f, (Z.of_nat i, f)) corr_filts) (λ c,
              if PyStr.contains c.2 line
              then
                do last <- index (PyStr.split_ws line) (-1);
                do x <- py_float last;
                do name <- index dat_names c.1;
                modify_locals (set_out name (CifNum x))
              else ret tt));
  write_log "Basic cif extraction succesfull :)".

Definition basic_scan (loc : string) : M (Frame t cif_locals) unit :=
  try_bare (basic_body loc)
           (write_log "Basic cif extraction failed! :(").

Definition atom_header : string :=
  "  _atom_site_refinement_flags_occupancy".

(** One line of the scan for the atom block. *)
Definition atom_line (line : string) : M (Frame t cif_locals) unit :=
  if PyStr.startswith line atom_header
  then modify_locals (set_switch2 true)
  else
    do l <- get_locals;
    if switch2 l
    then
      if PyStr.startswith line nl
      then modify_locals (set_switch2 false)
      else
        let lin := PyStr.split_on " " line in
        do atom <- index lin 1;
        do field <- index lin 6;
        do ueq <- index (PyStr.split_on "(" field) 0;
        do field' <- index lin 6;
        do rest <- index (PyStr.split_on "(" field') 1;
        let ueq_delta := PyStr.drop_last rest in
        do x <- py_float ueq;
        do d <- py_int ueq_delta;
        modify_locals (set_out (atom +:+ "_ueq") (CifUeq x d))
    else ret tt.

(** The scan for the atom block. *)
Definition extended_body (loc : string) : M (Frame t cif_locals) unit :=
  do lines <- ask (env_strs env) "open" [PyStr loc];
  do _ <- modify_locals (set_switch2 false);
  for_each lines atom_line.

Definition extended_scan (loc : string) : M (Frame t cif_locals) unit :=
  try_except (extended_body loc)
    (λ e,
       do _ <- write_log (exn_str e);
       write_log "Extended cif extraction failed!").

Definition parse_cif (loc : string)
  : M (Frame t cif_locals) (pydict cifval) :=
  do _ <- modify_locals (λ l, CifLocals [] (switch2 l));
  do _ <- basic_scan loc;
  do _ <- extended_scan loc;
  do l <- get_locals;
  ret (out l).

(** ** [extract_info] *)

Definition set_cell (k : string) (v : pyval) : M (Frame t locals) unit :=
  modify_locals (set_cell_stats (Dict.set k v)).

(** The cell statistics. *)
Definition cell_body : M (Frame t locals) unit :=
  do _ <- modify_locals (set_cell_stats (λ _, []));
  do _ <- for_each ["a"; "b"; "c"; "alpha"; "beta"; "gamma"] (λ x,
            do val <- ask (env_val env) "olx.xf.uc.CellEx" [PyStr x];
            set_cell x val);
  do v <- ask (env_val env) "olx.xf.uc.VolumeEx" [];
  do _ <- set_cell "volume" v;
  do z <- ask (env_val env) "olx.xf.au.GetZ" [];
  do _ <- set_cell "Z" z;
  do z' <- ask (env_val env) "olx.xf.au.GetZprime" [];
  set_cell "Zprime" z'.

Definition cell_block : M (Frame t locals) unit :=
  try_except cell_body
    (λ error,
       do _ <- write_log (exn_str error);
       write_log "Failed to extract Cell stats.").

(** The reflection statistics. *)
Definition hkl_block : M (Frame t locals) unit :=
  do d <- ask (env_dict env) "olex_core.GetHklStat" [];
  modify_locals (set_hkl_stats d).

(** The statistics of the cif file. The files the engine writes are
    on its side of the interface: which cif files the workspace holds
    and what lines one has are answers of the outside. *)
Definition cif_body : M (Frame t locals) unit :=
  do me <- get_self;
  do found <- ask (env_strs env) "glob.glob"
                [PyStr (path_str (work_path me ++ ["*.cif"]))];
  do locat <- index found 0;
  do stats <- invoke (parse_cif locat) (CifLocals [] false);
  modify_locals (set_cif_stats stats).

Definition cif_block : M (Frame t locals) unit :=
  try_except cif_body
    (λ error,
       do _ <- write_log (exn_str error);
       write_log "Failed to extract cif stats!").

Definition cctbx_imports : list string :=
  [ "cctbx.array_family.flex"; "cctbx.crystal.calculate_distances";
    "olexex.OlexRefinementModel"; "refinement.FullMatrixRefine";
    "scitbx.matrix" ].

(** Propagation, first stage: the normal equations are built. *)
Definition prop_build : M (Frame t locals) unit :=
  do me <- get_self;
  do table_name <-
    (if truthy (use_nos2 me)
     then do v <- GetParam "snum.NoSpherA2.file"; ret (py_str v)
     else ret "");
  do _ <- for_each cctbx_imports (λ m,
            ask (env_unit env) "import" [PyStr m]);
  do _ <- ask (env_unit env) "FullMatrixRefine" [];
  do _ <- (if negb (bool_decide (table_name = ""))
           then ask (env_unit env) "fmr.run"
                  [PyBool true; PyStr table_name]
           else ask (env_unit env) "fmr.run" [PyBool true]);
  ask (env_unit env) "norm_eq.build_up" [PyBool false].

(** Second stage: the three R factors, each assigned as it is got. *)
Definition prop_rfactors : M (Frame t locals) unit :=
  do r <- ask (env_val env) "norm_eq.r1_factor" [];
  do _ <- modify_locals (set_R1_all r);
  do r' <- ask (env_val env) "norm_eq.r1_factor"
             [PyFloat (Float.of_Z 2)];
  do _ <- modify_locals (set_R1_gt r');
  do w <- ask (env_val env) "norm_eq.wR2" [];
  modify_locals (set_wR2 w).

(** Third stage: connectivity, cell covariance, labels, parameter
    covariance. It gives the labels and the packed cell covariance. *)
Definition prop_covariance : M (Frame t locals) (list string * list float) :=
  do _ <- ask (env_unit env) "fmr.reparametrisation.connectivity_table" [];
  do _ <- ask (env_unit env) "fmr.xray_structure" [];
  do cell_params <- ask (env_floats env) "fmr.olx_atoms.getCell" [];
  do cell_errors <- ask (env_floats env) "fmr.olx_atoms.getCellErrors" [];
  do m <- cell_vcv env cell_params cell_errors;
  let packed := packed_u m in
  do sl <- ask (env_strs env) "xs.scatterers().extract_labels" [];
  do _ <- ask (env_unit env) "xs.sites_frac" [];
  do _ <- ask (env_unit env)
            "norm_eq.covariance_matrix_and_annotations().matrix" [];
  do _ <- ask (env_unit env) "xs.parameter_map" [];
  do _ <- ask (env_unit env) "connectivity_full.pair_asu_table" [];
  ret (sl, packed).

(** One turn of the loop over the distances: the [i]-th step of the
    iterator, the label, the distance, the uncertainty. *)
Definition bond_step (sl : list string) (step : Z * result (Z * Z))
  : M (Frame t locals) unit :=
  do d <- (match step.2 with Ok d => ret d | Raise e => raise e end);
  do a <- index sl d.1;
  do b <- index sl d.2;
  let bond := a +:+ "-" +:+ b in
  do dist <- ask (env_float env) "distances.distances" [PyInt step.1];
  do _ <- modify_locals (set_dist_stats (Dict.set bond dist));
  do var <- ask (env_float env) "distances.variances" [PyInt step.1];
  do err <- math_sqrt var;
  modify_locals (set_dist_errs (Dict.set bond err)).

(** Fourth stage: the distances of the bonded pairs. *)
Definition prop_distances (sl : list string) (packed : list float)
  : M (Frame t locals) unit :=
  do steps <- ask (env_pairs env) "calculate_distances"
                (PyFloat <$> packed);
  for_each (imap (λ i o, (Z.of_nat i, o)) steps) (bond_step sl).

(** The propagation of uncertainties, caught as one block. *)
Definition prop_body : M (Frame t locals) unit :=
  do _ <- prop_build;
  do _ <- prop_rfactors;
  do c <- prop_covariance;
  prop_distances c.1 c.2.

Definition propagation : M (Frame t locals) unit :=
  try_except prop_body
    (λ error,
       do _ <- print (exn_str error);
       do _ <- print ("Could not obtain cctbx object and calculate ESDs!"
                      +:+ nl);
       do _ <- write_log (exn_str error);
       write_log "Failed to extract distances").

(** [out.write(text)] on the results file. *)
Definition out_write (text : string) : M (Frame t locals) unit :=
  do me <- get_self;
  modify_world (set_fs (λ f, FS.append f (results_path me) text)).

Definition write_items {V} (str : V → string) (d : pydict V)
  : M (Frame t locals) unit :=
  for_each d (λ kv, out_write (kv.1 +:+ ":" +:+ str kv.2 +:+ ",")).

Definition refine_keys : list string :=
  [ "max_peak"; "max_hole"; "res_rms"; "goof"; "max_shift_over_esd";
    "hooft_str" ].

Definition separator : string := repeat_char "+" 19.

(** The results file. *)
Definition write_results : M (Frame t locals) unit :=
  do me <- get_self;
  do _ <- out_write ("NoSpherA2_Dict:" +:+ nl);
  do _ <- (if truthy (use_nos2 me)
           then do params <- iter_params (nos2_params me);
                write_items py_str params
           else ret tt);
  do _ <- out_write (nl +:+ "Stats-GetHklStat:" +:+ nl);
  do l <- get_locals;
  do _ <- write_items py_str (hkl_stats l);
  do _ <- out_write (nl +:+ "Cell-Stats:" +:+ nl);
  do _ <- write_items py_str (cell_stats l);
  do _ <- out_write (nl +:+ "CIF-stats:" +:+ nl);
  do cif <- from_option (cif_stats l)
              (Exc "UnboundLocalError"
                 "local variable 'cif_stats' referenced before assignment");
  do _ <- write_items cif_str cif;
  do _ <- out_write (nl +:+ "refine_dict:" +:+ nl);
  do _ <- for_each refine_keys (λ key,
            do v <- GetParam ("snum.refinement." +:+ key);
            out_write (key +:+ ":" +:+ py_str v +:+ ","));
  do _ <- out_write ("R1_all:" +:+ py_str (R1_all l)
                     +:+ ",R1_gt:" +:+ py_str (R1_gt l)
                     +:+ ",wR2:" +:+ py_str (wR2 l)
                     +:+ ",cycles:" +:+ py_str (cycles_needed me)
                     +:+ ",time:" +:+ py_str (time_needed me)
                     +:+ ",");
  do _ <- out_write (nl +:+ "bondlengths:" +:+ nl);
  do _ <- write_items Float.repr (dist_stats l);
  do _ <- out_write (nl +:+ "bonderrors:" +:+ nl);
  do _ <- for_each (dist_stats l) (λ kv,
            do e <- from_option (Dict.get kv.1 (dist_errs l))
                      (Exc "KeyError" ("'" +:+ kv.1 +:+ "'"));
            out_write (kv.1 +:+ ":" +:+ Float.repr e +:+ ","));
  do weight <- GetParam "sisyphos.update_weight";
  do _ <- out_write (nl +:+ "Weight:" +:+ py_str weight);
  do npd <- ask (env_val env) "olx.xf.au.NPDCount" [];
  do _ <- out_write (nl +:+ "Nr. NPD:" +:+ py_str npd);
  out_write (nl +:+ separator +:+ nl).

(** The values the derived quantities have before the propagation. *)
Definition set_defaults : M (Frame t locals) unit :=
  do _ <- modify_locals (set_dist_stats (λ _, []));
  do _ <- modify_locals (set_dist_errs (λ _, []));
  do _ <- modify_locals (set_R1_all (PyFloat Float.zero));
  do _ <- modify_locals (set_R1_gt (PyFloat Float.zero));
  modify_locals (set_wR2 (PyFloat Float.zero)).

Definition extract_info : M (Frame t locals) unit :=
  do _ <- cell_block;
  do _ <- hkl_block;
  do _ <- cif_block;
  do _ <- set_defaults;
  do _ <- propagation;
  write_results.

(** ** [run] *)

Section Run.
Context {L : Type}.

(** What [run] does before it calls [extract_info]. *)
Definition run_refinement : M (Frame t L) unit :=
  do me <- get_self;
  do _ <- emit (EvRun (id me));
  do _ <- refine;
  write_log_header "Finished Refinement".

(** What [run] does from the call of [extract_info] on. *)
Definition run_extraction : M (Frame t L) unit :=
  do done <- try_bare
               (do _ <- invoke extract_info no_locals; ret true)
               (do _ <- print "Faield to extract information";
                do _ <- write_log "Failed to extract information!";
                ret false);
  if done : bool
  then
    do _ <- write_log "Extracted Information";
    do me <- get_self;
    modify_world (set_fs (λ f, FS.create f (done_path me)))
  else ret tt.

Definition run : M (Frame t L) unit :=
  do _ <- run_refinement;
  run_extraction.

End Run.

(** ** Construction *)

(** [BenchJob(base_work_path, id, use_nos2, nos2_params)]: the new
    object when [__init__] returns, its exception otherwise. *)
Definition __init__ {Self L} (base : path) (i : Z) (use : pyval)
    (params : option (pydict pyval)) : M (Frame Self L) t :=
  let use' := match params with None => PyBool false | Some _ => use end in
  let me := Make base i use' params (job_dir base i)
                 (PyFloat Float.zero) (PyInt 0) None in
  do r <- invoke_on me (do _ <- emit (EvNew i); setup_workspace) tt;
  match r.2 with
  | Ok _ => ret r.1
  | Raise e => raise e
  end.

End Methods.

Definition __str__ (me : t) : string :=
  let res := "Job with following options:" +:+ nl in
  match nos2_params me with
  | None => res +:+ "IAM Job" +:+ nl
  | Some params =>
      foldl (λ acc kv, acc +:+ kv.1 +:+ ":" +:+ py_str kv.2 +:+ "|")
            res params
  end.

Definition __repr__ (me : t) : string :=
  "<FAPJob Object " +:+ pretty (id me) +:+ ">".

End BenchJob.

(* ===================================================================== *)
(** * class SISYPHOS: the orchestration *)
(* ===================================================================== *)

Module SISYPHOS.

(** The attributes the orchestration reads and writes. *)
Record t := Make {
  work_path : path;
  sisy_job_idx : Z;
  nos2_options : pydict pyval;
  use_nosphera2 : pyval
}.

Definition set_use_nosphera2 (v : pyval) (me : t) : t :=
  Make (work_path me) (sisy_job_idx me) (nos2_options me) v.

Definition set_option (k : string) (v : pyval) (me : t) : t :=
  Make (work_path me) (sisy_job_idx me) (Dict.set k v (nos2_options me))
       (use_nosphera2 me).

Definition nos_params : list string :=
  [ "basis_name"; "method"; "ncpus"; "mem"; "charge"; "multiplicity";
    "full_HAR"; "Max_HAR_Cycles"; "becke_accuracy"; "Relativistic";
    "h_aniso"; "h_afix"; "add_disp"; "cluster_radius"; "DIIS";
    "cluster_grow"; "ORCA_SCF_Conv"; "ORCA_SCF_Strategy"; "ORCA_Solvation";
    "pySCF_Damping"; "ORCA_DAMP" ].

Section Methods.
Variable env : Env.

Section Plain.
Context {L : Type}.

(** Modelled from the spec: the benchmark file of [sisy_jobs], which
    is not among the sources, is "an ordered, indexable sequence of
    configuration mappings" with [is_finished(index) → bool].
    Opening it gives the configurations, [env_jobs]; each answer of
    [is_finished] is [env_finished], recorded in the trace. *)
Definition SisyphosBenchmarkFile (p : path)
  : M (Frame t L) (list (pydict pyval)) :=
  λ s, (s, env_jobs env (world s) p).

Definition is_finished (i : Z) : M (Frame t L) bool :=
  λ s, match env_finished env (world s) i with
       | Ok b => (MkFrame (add_event (EvFinished i b) (world s))
                          (self s) (locals s), Ok b)
       | Raise e => (s, Raise e)
       end.

Definition skip_message (i : Z) : string :=
  "Job " +:+ pretty i +:+ " already finished, skipping".

(** The job for the configuration [job] at index [i]: a plain job
    when the merged options have the key IAM. *)
Definition new_job (i : Z) (job : pydict pyval)
  : M (Frame t L) BenchJob.t :=
  do me <- get_self;
  let tmp_job_dict := Dict.update (nos2_options me) job in
  if Dict.has "IAM" tmp_job_dict
  then BenchJob.__init__ (work_path me) i (PyBool false) None
  else BenchJob.__init__ (work_path me) i (use_nosphera2 me)
         (Some tmp_job_dict).

End Plain.

(** One turn of the loop of the batch mode. *)
Definition batch_step (c : Z * pydict pyval)
  : M (Frame t (list BenchJob.t)) unit :=
  do finished <- is_finished c.1;
  if finished : bool
  then print (skip_message c.1)
  else
    do j <- new_job c.1 c.2;
    modify_locals (λ job_list, job_list ++ [j]).

(** [init_sisy_jobs]; the local variable is [job_list]. *)
Definition init_sisy_jobs
  : M (Frame t (list BenchJob.t)) (list BenchJob.t) :=
  do me <- get_self;
  do sisy_jobs <- SisyphosBenchmarkFile (work_path me);
  if negb (sisy_job_idx me =? -1)
  then
    do finished <- is_finished (sisy_job_idx me);
    if finished : bool
    then
      do _ <- print (skip_message (sisy_job_idx me));
      ret []
    else
      do job <- index sisy_jobs (sisy_job_idx me);
      do j <- new_job (sisy_job_idx me) job;
      ret [j]
  else
    do _ <- modify_locals (λ _, []);
    do _ <- for_each (imap (λ i job, (Z.of_nat i, job)) sisy_jobs)
              batch_step;
    get_locals.

Definition banner (i : Z) : string :=
  repeat_char "-" 26 +:+ "Running job " +:+ pretty i
              +:+ repeat_char "-" 29.

(** [run]: the options are read, the jobs made, then run in order. *)
Definition run : M (Frame t unit) unit :=
  do v <- ask (env_val env) "OV.GetParam" [PyStr "sisyphos.use_nos2"];
  do _ <- modify_self (set_use_nosphera2 v);
  do _ <- for_each nos_params (λ param,
            do v <- ask (env_val env) "OV.GetParam"
                      [PyStr ("snum.NoSpherA2." +:+ param)];
            modify_self (set_option param v));
  do _ <- modify_self (set_option "full_HAR" (PyBool true));
  do _ <- modify_self (set_option "Max_HAR_Cycles" (PyInt 15));
  do job_list <- invoke init_sisy_jobs [];
  for_each job_list (λ job,
    do _ <- print (banner (BenchJob.id job));
    do r <- invoke_on job (BenchJob.run env) tt;
    match r.2 with
    | Ok _ => ret tt
    | Raise e => raise e
    end).

End Methods.

End SISYPHOS.

(* ===================================================================== *)
(** * What a method may do: relations between the states around it *)
(* ===================================================================== *)

(** What is seen of a frame from outside: the world and the object. *)
Definition obs {Self L} (s : Frame Self L) : World * Self :=
  (world s, self s).

(** [steps view I Q m]: from every state whose view satisfies [I], [m]
    leaves a state whose view is related to it by [Q], whether [m]
    returns or raises. *)
Definition steps {S V A} (view : S → V) (I : V → Prop) (Q : relation V)
    (m : M S A) : Prop :=
  ∀ s, I (view s) → Q (view s) (view (m s).1).

(** [I] stays true along [Q]. *)
Class Stable {V} (I : V → Prop) (Q : relation V) : Prop :=
  stable : ∀ v v', I v → Q v v' → I v'.

(** A computation that leaves every state as it is and gives the same
    result from each. *)
Definition pure_m {S A} (m : M S A) : Prop := ∃ r, ∀ s, m s = (s, r).

(** The events [m] adds to the trace, from the state [s]. *)
Definition emitted {Self L A} (m : M (Frame Self L) A) (s : Frame Self L)
  : list event :=
  drop (length (trace (world s))) (trace (world (m s).1)).

(** Two states of a job with the same attributes, but for what [refine]
    and [setup_workspace] assign. *)
Definition same_job (a b : BenchJob.t) : Prop :=
  BenchJob.base_work_path b = BenchJob.base_work_path a
  ∧ BenchJob.id b = BenchJob.id a
  ∧ BenchJob.use_nos2 b = BenchJob.use_nos2 a
  ∧ BenchJob.nos2_params b = BenchJob.nos2_params a
  ∧ BenchJob.work_path b = BenchJob.work_path a.

(** [effects P touch]: the job keeps its attributes, the trace grows by
    events that satisfy [P], and the only files that change are files of
    the workspace whose name satisfies [touch]. *)
Definition effects (P : event → Prop) (touch : string → Prop)
  : relation (World * BenchJob.t) :=
  λ o o',
    same_job o.2 o'.2
    ∧ (∃ new, trace o'.1 = trace o.1 ++ new ∧ Forall P new)
    ∧ (∀ p, (∀ name, touch name → p ≠ BenchJob.work_path o.2 ++ [name]) →
            fs o'.1 !! p = fs o.1 !! p).

Definition any {A} : A → Prop := λ _, True.

(** Calls into the host and printed lines, as opposed to the marks of
    construction, of running and of the finished test. *)
Definition is_io (e : event) : Prop :=
  match e with
  | EvCall _ _ | EvPrint _ => True
  | _ => False
  end.

(** The event of the command [olex.m(c)]. *)
Definition cmd (c : string) : event := EvCall "olex.m" [PyStr c].

(** The names of the files a job writes while it refines and extracts. *)
Definition job_output (name : string) : Prop :=
  name = "out.log" ∨ name = "results.txt".

(* ===================================================================== *)
(** * The statements of the specification, in its words *)
(* ===================================================================== *)



(** The entries [key:value,] of a section of the results file. *)
Definition items {V} (str : V → string) (d : pydict V) : string :=
  foldr (λ kv acc, (kv.1 +:+ ":" +:+ str kv.2 +:+ ",") +:+ acc) "" d.

(** The line of the R factors, the cycles and the time. *)
Definition rfactor_line (me : BenchJob.t) (l : BenchJob.locals) : string :=
  "R1_all:" +:+ py_str (BenchJob.R1_all l)
  +:+ ",R1_gt:" +:+ py_str (BenchJob.R1_gt l)
  +:+ ",wR2:" +:+ py_str (BenchJob.wR2 l)
  +:+ ",cycles:" +:+ py_str (BenchJob.cycles_needed me)
  +:+ ",time:" +:+ py_str (BenchJob.time_needed me)
  +:+ ",".

(** A block of the results file: the sections in the order of the
    specification, each with the text given for it. *)
Definition results_block
    (nos hkl cell cif refine_dict rline bondlengths bonderrors weight npd
       : string) : string :=
  ("NoSpherA2_Dict:" +:+ nl) +:+ nos
  +:+ (nl +:+ "Stats-GetHklStat:" +:+ nl) +:+ hkl
  +:+ (nl +:+ "Cell-Stats:" +:+ nl) +:+ cell
  +:+ (nl +:+ "CIF-stats:" +:+ nl) +:+ cif
  +:+ (nl +:+ "refine_dict:" +:+ nl) +:+ refine_dict
  +:+ rline
  +:+ (nl +:+ "bondlengths:" +:+ nl) +:+ bondlengths
  +:+ (nl +:+ "bonderrors:" +:+ nl) +:+ bonderrors
  +:+ (nl +:+ "Weight:" +:+ weight)
  +:+ (nl +:+ "Nr. NPD:" +:+ npd)
  +:+ (nl +:+ BenchJob.separator +:+ nl).

(** The derived quantities as they stand before the propagation. *)
Definition outputs_default (l : BenchJob.locals) : Prop :=
  BenchJob.R1_all l = PyFloat Float.zero
  ∧ BenchJob.R1_gt l = PyFloat Float.zero
  ∧ BenchJob.wR2 l = PyFloat Float.zero
  ∧ BenchJob.dist_stats l = []
  ∧ BenchJob.dist_errs l = [].

(** A file system in which whatever exists lies in a directory. *)
Definition well_formed (f : FS.t) : Prop :=
  ∀ p x, is_Some (f !! (p ++ [x])) → FS.lookup f p = Some Dir.

(** What lies below the directory [d]. *)
Definition below (f : FS.t) (d : path) : FS.t :=
  filter (λ kv, d `prefix_of` kv.1 ∧ kv.1 ≠ d) f.

(** An event that is none of the marks of the pass with NoSpherA2: its
    refinement of 20 cycles, the first call of [configure_ORCA], the
    reading of the clock. *)
Definition not_advanced (e : event) : Prop :=
  e ≠ cmd "refine 20"
  ∧ e ≠ EvCall "olx.xf.EndUpdate" []
  ∧ e ≠ EvCall "time.perf_counter" [].

(** What the finished test of index [c.1] with answer [c.2] leaves in
    the trace: the answer, then the skip message or the construction. *)
Definition check_events (c : Z * bool) : list event :=
  if c.2
  then [EvFinished c.1 true; EvPrint (SISYPHOS.skip_message c.1)]
  else [EvFinished c.1 false; EvNew c.1].

(** Neither of the two commands of the extinction branch. *)
Definition off_branch (e : event) : Prop :=
  e ≠ cmd "delins EXTI" ∧ e ≠ cmd BenchJob.set_LM.

(** The test of the extinction branch with its two arms left open. *)
Definition branch_of {L} (exti : string)
    (small large : M (Frame BenchJob.t L) unit) : M (Frame BenchJob.t L) unit :=
  if negb (bool_decide (exti = "n/a"))
  then
    do head <- index (PyStr.split_on "(" exti) 0;
    do x <- py_float head;
    if Float.ltb x BenchJob.exti_threshold then small else large
  else ret tt.

(** The three R factors are the same in two states of the local
    variables. *)
Definition same_rfactors (l l' : BenchJob.locals) : Prop :=
  BenchJob.R1_all l' = BenchJob.R1_all l
  ∧ BenchJob.R1_gt l' = BenchJob.R1_gt l
  ∧ BenchJob.wR2 l' = BenchJob.wR2 l.

(** The section of the NoSpherA2 settings: empty without NoSpherA2. *)
Definition nos_section (me : BenchJob.t) : string :=
  if truthy (BenchJob.use_nos2 me)
  then items py_str (default [] (BenchJob.nos2_params me))
  else "".

(** The uncertainties in the order of the distances: each bond of
    [stats] with its entry of [errs]. *)
Definition bond_errors (stats errs : pydict float) : pydict float :=
  omap (λ kv, e ← Dict.get kv.1 errs; Some (kv.1, e)) stats.

(** From [s] to [s'] the job is the same object and its results file
    has grown by [text]. *)
Definition wrote {L} (text : string) (s s' : Frame BenchJob.t L) : Prop :=
  self s' = self s
  ∧ FS.content (fs (world s')) (BenchJob.results_path (self s))
    = FS.content (fs (world s)) (BenchJob.results_path (self s)) +:+ text.

(** The object the constructor starts from, and the state in which it
    calls [setup_workspace] on it. *)
Definition newborn (base : path) (i : Z) (use : pyval)
    (params : option (pydict pyval)) : BenchJob.t :=
  BenchJob.Make base i
    (match params with None => PyBool false | Some _ => use end)
    params (BenchJob.job_dir base i) (PyFloat Float.zero) (PyInt 0) None.

Definition cradle {Self L} (c : Frame Self L) (base : path) (i : Z)
    (use : pyval) (params : option (pydict pyval)) : Frame BenchJob.t unit :=
  MkFrame (add_event (EvNew i) (world c)) (newborn base i use params) tt.

(** A workspace made afresh at [w]: [w] and the directories above it
    are there, and nothing is below [w]. *)
Definition fresh_at (f : FS.t) (w : path) : Prop :=
  (∀ q, q ∈ FS.ancestors w → f !! q = Some Dir)
  ∧ (∀ r, w `prefix_of` r → r ≠ w → f !! r = None).

(** [well_formed], as a test of the entries one by one. *)
Definition well_formedb (f : FS.t) : bool :=
  forallb (λ kv, bool_decide (FS.lookup f (FS.dirname kv.1) = Some Dir))
          (map_to_list f).

(** The events of the finished tests over the indices [idxs], in order,
    and the indices of the jobs made: a test that raises ends them; one
    answered true leaves the message of the skip; one answered false is
    followed by the construction of the job, unless its configuration
    cannot be read, and ends them if the construction fails. *)
Inductive checked : list Z → list event → list Z → Prop :=
| checked_end idxs : checked idxs [] []
| checked_unread i idxs : checked (i :: idxs) [EvFinished i false] []
| checked_failed i idxs : checked (i :: idxs) [EvFinished i false; EvNew i] []
| checked_skipped i idxs evs made :
    checked idxs evs made →
    checked (i :: idxs)
      (EvFinished i true :: EvPrint (SISYPHOS.skip_message i) :: evs) made
| checked_made i idxs evs made :
    checked idxs evs made →
    checked (i :: idxs) (EvFinished i false :: EvNew i :: evs) (i :: made).

(** [adds T m]: [m] adds events to the trace, and [T] holds of its
    result and of the events it adds. *)
Definition adds {Self L A} (T : result A → list event → Prop)
    (m : M (Frame Self L) A) : Prop :=
  ∀ s, ∃ evs, trace (world (m s).1) = trace (world s) ++ evs
              ∧ T (m s).2 evs.

(** An event of the run of one of the jobs [made]. *)
Definition ran (made : list Z) (e : event) : Prop :=
  is_io e ∨ ∃ i, i ∈ made ∧ e = EvRun i.

(** The events of [SISYPHOS.run]: the options are read, the jobs are
    tested and made, the jobs made are run. *)
Definition orchestrated (evs : list event) : Prop :=
  ∃ pre idxs tests made post,
    evs = pre ++ tests ++ post
    ∧ Forall is_io pre
    ∧ NoDup idxs ∧ checked idxs tests made
    ∧ Forall (ran made) post.

(* ===================================================================== *)
(** * Further statements about the methods *)
(* ===================================================================== *)

(** The attribute [f] of an object is the same in two states of it. *)
Definition keeps {Self X} (f : Self → X) : relation Self :=
  λ a b, f b = f a.

(** The log and the results of the job have only grown: what each held
    is the beginning of what it holds. *)
Definition appended : relation (World * BenchJob.t) :=
  λ o o',
    BenchJob.work_path o'.2 = BenchJob.work_path o.2
    ∧ ∀ name, name = "out.log" ∨ name = "results.txt" →
        ∃ text,
          FS.content (fs o'.1) (BenchJob.work_path o.2 ++ [name])
          = FS.content (fs o.1) (BenchJob.work_path o.2 ++ [name]) +:+ text.

(** The body of the [try] block of [refine]. *)
Definition refine_body (env : Env) {L} : M (Frame BenchJob.t L) unit :=
  do _ <- BenchJob.refine_start env;
  do exti <- ask (env_str env) "olx.xf.rm.Exti" [];
  do _ <- BenchJob.write_log ("Found Extinction: " +:+ exti);
  do _ <- BenchJob.extinction_branch env exti;
  BenchJob.refine_end env.

(** The command of an event [olex.m(c)], the key and the value of an
    event [OV.SetParam(key, value)]. *)
Definition olex_command (e : event) : option string :=
  match e with
  | EvCall fn [PyStr c] => if bool_decide (fn = "olex.m") then Some c else None
  | _ => None
  end.

Definition set_param (e : event) : option (string * pyval) :=
  match e with
  | EvCall fn [PyStr k; v] =>
      if bool_decide (fn = "OV.SetParam") then Some (k, v) else None
  | _ => None
  end.

(** [issues proj I T m]: when [m] returns, from a job that satisfies
    [I], the job satisfies [I] still and [T] holds of what [proj] picks
    of the events [m] has added. *)
Definition issues {L A X} (proj : event → option X) (I : BenchJob.t → Prop)
    (T : list X → Prop) (m : M (Frame BenchJob.t L) A) : Prop :=
  ∀ s s' a,
    I (self s) → m s = (s', Ok a) →
    I (self s')
    ∧ ∃ evs, trace (world s') = trace (world s) ++ evs ∧ T (omap proj evs).

(** The commands of the extinction branch for the value reported. *)
Definition branch_commands (exti : string) : list string :=
  if bool_decide (exti = "n/a") then []
  else
    match py_index (PyStr.split_on "(" exti) 0 ≫= PyStr.float_of_string with
    | Some x =>
        if Float.ltb x BenchJob.exti_threshold
        then ["delins EXTI"] else [BenchJob.set_LM]
    | None => []
    end.

(** The parameters [configure_ORCA] sets for the options [params] of a
    job, before it looks at the multiplicity. *)
Definition orca_settings (params : pydict pyval) : list (string * pyval) :=
  ("snum.NoSpherA2.source", PyStr "ORCA 6.0")
  :: ((λ kv, ("snum.NoSpherA2." +:+ kv.1, PyStr (py_str kv.2))) <$> params)
  ++ [ ("snum.NoSpherA2.Calculate", PyBool true);
       ("snum.NoSpherA2.precise_output", PyBool true);
       ("snum.NoSpherA2.use_aspherical", PyBool true);
       ("snum.NoSpherA2.h_aniso", PyBool true) ].

Definition default_multiplicity : list (string * pyval) :=
  [("snum.NoSpherA2.multiplicity", PyStr "1")].

(** The options of the job for the configuration [cfg]: those of the
    plugin, updated with the configuration. *)
Definition merged_options (me : SISYPHOS.t) (cfg : pydict pyval)
  : pydict pyval :=
  Dict.update (SISYPHOS.nos2_options me) cfg.

(** The job [j] is the one [init_sisy_jobs] makes, on the plugin [me],
    for the configuration [cfg]. *)
Definition configured (me : SISYPHOS.t) (cfg : pydict pyval)
    (j : BenchJob.t) : Prop :=
  BenchJob.base_work_path j = SISYPHOS.work_path me
  ∧ BenchJob.work_path j
    = BenchJob.job_dir (SISYPHOS.work_path me) (BenchJob.id j)
  ∧ if Dict.has "IAM" (merged_options me cfg)
    then BenchJob.nos2_params j = None
         ∧ BenchJob.use_nos2 j = PyBool false
    else BenchJob.nos2_params j = Some (merged_options me cfg)
         ∧ BenchJob.use_nos2 j = SISYPHOS.use_nosphera2 me.

(** [d[k]] after [d.update(e)]: the last entry of [e] for [k], or else
    what [d] has. *)
Definition overridden {V} (d e : pydict V) (k : string) : option V :=
  match Dict.get k (reverse e) with
  | Some v => Some v
  | None => Dict.get k d
  end.

(** The two parts of [SISYPHOS.run] around [init_sisy_jobs]: the
    options are read, and the jobs are run. *)
Definition read_options (env : Env) : M (Frame SISYPHOS.t unit) unit :=
  do v <- ask (env_val env) "OV.GetParam" [PyStr "sisyphos.use_nos2"];
  do _ <- modify_self (SISYPHOS.set_use_nosphera2 v);
  do _ <- for_each SISYPHOS.nos_params (λ param,
            do v <- ask (env_val env) "OV.GetParam"
                      [PyStr ("snum.NoSpherA2." +:+ param)];
            modify_self (SISYPHOS.set_option param v));
  do _ <- modify_self (SISYPHOS.set_option "full_HAR" (PyBool true));
  modify_self (SISYPHOS.set_option "Max_HAR_Cycles" (PyInt 15)).

Definition run_jobs (env : Env) (job_list : list BenchJob.t)
  : M (Frame SISYPHOS.t unit) unit :=
  for_each job_list (λ job,
    do _ <- print (SISYPHOS.banner (BenchJob.id job));
    do r <- invoke_on job (BenchJob.run env) tt;
    match r.2 with
    | Ok _ => ret tt
    | Raise e => raise e
    end).

(** The state in which [SISYPHOS.run] calls [init_sisy_jobs]. *)
Definition listing (s : Frame SISYPHOS.t unit)
  : Frame SISYPHOS.t (list BenchJob.t) :=
  MkFrame (world s) (self s) [].

(** The options [run] forces on the plugin. *)
Definition har_forced (me : SISYPHOS.t) : Prop :=
  Dict.get "full_HAR" (SISYPHOS.nos2_options me) = Some (PyBool true)
  ∧ Dict.get "Max_HAR_Cycles" (SISYPHOS.nos2_options me) = Some (PyInt 15).

(** What is outside of the directory [w] is spared: a path that is not
    [w] or below it has what it had, or it had nothing and is now one
    of the directories above [w]. *)
Definition spares (w : path) : relation (gmap path node) :=
  λ f f',
    ∀ p : path, ¬ w `prefix_of` p →
      f' !! p = f !! p
      ∨ (f !! p = None ∧ f' !! p = Some Dir ∧ p `prefix_of` w).

Definition spared : relation (World * BenchJob.t) :=
  λ o o',
    BenchJob.work_path o'.2 = BenchJob.work_path o.2
    ∧ spares (BenchJob.work_path o.2) (fs o.1) (fs o'.1).

Definition works_at (w : path) : World * BenchJob.t → Prop :=
  λ o, BenchJob.work_path o.2 = w.

(** The scan of the fields, line by line: what a line is to it. The
    number of a line is what [float] makes of its last word; a line is
    marked when it contains one of the markers, and readable when it is
    not marked or has a number. *)
Definition field_step (line : string) (c : Z * string)
  : M (Frame BenchJob.t BenchJob.cif_locals) unit :=
  if PyStr.contains c.2 line
  then
    do last <- index (PyStr.split_ws line) (-1);
    do x <- py_float last;
    do name <- index BenchJob.dat_names c.1;
    modify_locals (BenchJob.set_out name (BenchJob.CifNum x))
  else ret tt.

Definition last_number (line : string) : option float :=
  py_index (PyStr.split_ws line) (-1) ≫= PyStr.float_of_string.

Definition marked (line : string) : bool :=
  existsb (λ f, PyStr.contains f line) BenchJob.corr_filts.

Definition readable (line : string) : bool :=
  negb (marked line) || bool_decide (is_Some (last_number line)).

(** The value [v] is the number of a line of [lines] that contains the
    marker of the name [k]. *)
Definition field_of (lines : list string) (k : string)
    (v : BenchJob.cifval) : Prop :=
  ∃ (i : nat) f line x,
    BenchJob.corr_filts !! i = Some f
    ∧ BenchJob.dat_names !! i = Some k
    ∧ line ∈ lines
    ∧ PyStr.contains f line = true
    ∧ last_number line = Some x
    ∧ v = BenchJob.CifNum x.

Definition basic_verdict (lines : list string) : string :=
  if forallb readable lines then "Basic cif extraction succesfull :)"
  else "Basic cif extraction failed! :(".

(* ===================================================================== *)
(** * The file [def.txt], read when the module is loaded *)
(* ===================================================================== *)

Module DefTxt.

(** [s.strip()]. *)
Definition strip (s : string) : string :=
  implode (PyStr.strip_chars (explode s)).

(** One turn of the loop over the lines, on the dictionary [d]: the
    value is looked up before the key. *)
Definition step (d : pydict string) (line : string)
  : result (pydict string) :=
  let line := strip line in
  if bool_decide (line = EmptyString) || PyStr.startswith line "#" then Ok d
  else
    match py_index (PyStr.split_on "=" line) 1 with
    | None => Raise IndexError
    | Some v =>
        match py_index (PyStr.split_on "=" line) 0 with
        | None => Raise IndexError
        | Some k => Ok (Dict.set (strip k) (strip v) d)
        end
    end.

Fixpoint loop (l : list string) (d : pydict string)
  : result (pydict string) :=
  match l with
  | [] => Ok d
  | line :: l' =>
      match step d line with
      | Ok d' => loop l' d'
      | Raise e => Raise e
      end
  end.

(** The dictionary [d] for the lines [l] of the file. *)
Definition d (l : list string) : result (pydict string) := loop l [].

(** [d[k]]. *)
Definition item (d : pydict string) (k : string) : result string :=
  match Dict.get k d with
  | Some v => Ok v
  | None => Raise (Exc "KeyError" ("'" +:+ k +:+ "'"))
  end.

(** The names of the plugin; [p_img] is the value of the expression
    that [def.txt] gives for it. *)
Record names := Names {
  p_name : string;
  p_htm : string;
  p_img : pyval;
  p_scope : string
}.

(** The statements of the module from the [open] of [def.txt] to the
    four names. [opened] is what [open(...).readlines()] gives, the
    lines of the file or the exception of a file that cannot be read;
    [eval] is the builtin, which gives the value of an expression or
    raises. *)
Definition load (eval : string → result pyval)
    (opened : result (list string)) : result names :=
  match opened with
  | Raise e => Raise e
  | Ok l =>
      match d l with
      | Raise e => Raise e
      | Ok d =>
          match item d "p_name" with
          | Raise e => Raise e
          | Ok n =>
              match item d "p_htm" with
              | Raise e => Raise e
              | Ok h =>
                  match item d "p_img" with
                  | Raise e => Raise e
                  | Ok text =>
                      match eval text with
                      | Raise e => Raise e
                      | Ok i =>
                          match item d "p_scope" with
                          | Raise e => Raise e
                          | Ok sc => Ok (Names n h i sc)
                          end
                      end
                  end
              end
          end
      end
  end.

End DefTxt.

(** A line of [def.txt] that is neither blank nor a comment, and a line
    that the loop can read: one that is not significant or has an equals
    sign. *)
Definition significant (line : string) : bool :=
  negb (bool_decide (DefTxt.strip line = EmptyString)
        || PyStr.startswith (DefTxt.strip line) "#").

Definition has_equals (line : string) : bool :=
  bool_decide ("="%char ∈ explode (DefTxt.strip line)).

Definition legible (line : string) : bool :=
  negb (significant line) || has_equals line.

(** The entries of the dictionary of [parse_cif]: a number under one of
    the nine names, or a displacement under the label of an atom. *)
Definition is_field (k : string) (v : BenchJob.cifval) : Prop :=
  k ∈ BenchJob.dat_names ∧ ∃ x, v = BenchJob.CifNum x.

Definition is_ueq (k : string) (v : BenchJob.cifval) : Prop :=
  ∃ atom x d, k = atom +:+ "_ueq" ∧ v = BenchJob.CifUeq x d.

(** What the scan of the atom block may do to the dictionary: it adds
    displacements, and leaves the nine names as they are. *)
Definition atoms_added : relation BenchJob.cif_locals :=
  λ l l',
    (∀ k v, Dict.get k (BenchJob.out l') = Some v →
            Dict.get k (BenchJob.out l) = Some v ∨ is_ueq k v)
    ∧ (∀ k, k ∈ BenchJob.dat_names →
            Dict.get k (BenchJob.out l') = Dict.get k (BenchJob.out l)).

(** What the scan of the fields may do to it: it adds numbers under
    the nine names. *)
Definition fields_added : relation BenchJob.cif_locals :=
  λ l l',
    ∀ k v, Dict.get k (BenchJob.out l') = Some v →
           Dict.get k (BenchJob.out l) = Some v ∨ is_field k v.

(** The marks of construction and of running among the events. *)
Definition new_mark (e : event) : option Z :=
  match e with EvNew i => Some i | _ => None end.

Definition run_mark (e : event) : option Z :=
  match e with EvRun i => Some i | _ => None end.

(** The parameters the first part of [refine] sets: the update of the
    weights as the plugin is set, and the aspherical model off. *)
Definition weight_settings (w : bool) : list (string * pyval) :=
  [ ("snum.refinement.update_weight", PyBool w);
    ("snum.NoSpherA2.use_aspherical", PyBool false) ].

(** The parameters the end of [refine] sets after them, for a job with
    the options [p], with NoSpherA2 selected or not as [u] says. *)
Definition advanced_settings (p : option (pydict pyval)) (u : bool)
    (rest : list (string * pyval)) : Prop :=
  if u
  then ∃ params tail,
         p = Some params
         ∧ rest = orca_settings params ++ tail
         ∧ (tail = [] ∨ tail = default_multiplicity)
  else rest = [].

(** [extract_info] up to the propagation of the uncertainties: the
    three blocks of statistics and the defaults of the derived
    quantities. *)
Definition before_propagation (env : Env)
  : M (Frame BenchJob.t BenchJob.locals) unit :=
  do _ <- BenchJob.cell_block env;
  do _ <- BenchJob.hkl_block env;
  do _ <- BenchJob.cif_block env;
  BenchJob.set_defaults.




(* ===================================================================== *)
(** * Concrete runs: an engine, a data directory, jobs *)
(* ===================================================================== *)

Module Scenario.

(** The float a decimal literal denotes. *)
Definition num (s : string) : float :=
  default Float.nan (PyStr.float_of_string s).

Definition boom (fn : string) : exn := Exc "RuntimeError" (fn +:+ " failed").

(** An engine that answers every call, reports the extinction [exti],
    finds the cif files [cifs] in a workspace, raises in the one
    function named [broken], and has the jobs [finished] marked
    finished. The structure it refines has the atoms O1 and H1, bonded
    at 0.98 with variance 0.0001, in a cell with a = b = 5.0(1),
    c = 7.0(2) and right angles. Its C library rounds [pow] correctly:
    at the exponent 2, the only one asked for, it gives the rounded
    product. *)
Definition engine (exti : string) (cifs : list string) (broken : string)
    (finished : Z → bool) : Env :=
  let guard {A} (fn : string) (r : result A) : result A :=
    if bool_decide (fn = broken) then Raise (boom fn) else r in
  MkEnv
    (λ _ fn _, guard fn (Ok tt))
    (λ _ fn args,
       guard fn
         (Ok (if bool_decide (fn = "norm_eq.r1_factor")
              then match args with
                   | [] => PyFloat (num "0.05")
                   | _ => PyFloat (num "0.04")
                   end
              else if bool_decide (fn = "norm_eq.wR2")
              then PyFloat (num "0.12")
              else if bool_decide (fn = "olx.xf.au.NPDCount")
              then PyInt 0
              else PyBool false)))
    (λ _ fn _, guard fn (Ok exti))
    (λ _ fn _,
       guard fn
         (Ok (if bool_decide (fn = "distances.distances") then num "0.98"
              else if bool_decide (fn = "distances.variances")
              then num "0.0001"
              else num "1.5")))
    (λ _ fn _,
       guard fn
         (Ok (if bool_decide (fn = "fmr.olx_atoms.getCell")
              then num <$> ["5.0"; "5.0"; "7.0"; "90"; "90"; "90"]
              else num <$> ["0.01"; "0.01"; "0.02"; "0"; "0"; "0"])))
    (λ _ fn _,
       guard fn
         (Ok (if bool_decide (fn = "glob.glob") then cifs
              else if bool_decide (fn = "open")
              then [ "_refine_ls_R_factor_all 0.05" +:+ nl;
                     BenchJob.atom_header +:+ nl;
                     " O1 O 0.1 0.2 0.3 0.0123(4) Uani 1 d . . ." +:+ nl;
                     nl ]
              else ["O1"; "H1"])))
    (λ _ fn _, guard fn (Ok [("TotalReflections", PyInt 100)]))
    (λ _ fn _, guard fn (Ok [Ok (0, 1)]))
    (λ _ i, Ok (finished i))
    (λ _ _, Ok [[("IAM", PyBool true)]; [("method", PyStr "PBE")]])
    (λ x _, Float.mul x x).

(** The engine with nothing broken and no job finished. *)
Definition sound (exti : string) : Env :=
  engine exti ["job.cif"] "" (λ _, false).

(** The sound engine but for one function that raises. *)
Definition failing (broken : string) : Env :=
  engine "n/a" ["job.cif"] broken (λ _, false).

(** The sound engine with job 0 marked finished. *)
Definition resumed : Env :=
  engine "n/a" ["job.cif"] "" (λ i, bool_decide (i = 0)).

(** The sound engine in a workspace without a cif file. *)
Definition no_cif : Env := engine "n/a" [] "" (λ _, false).

Definition covariance : string :=
  "norm_eq.covariance_matrix_and_annotations().matrix".

Definition base : path := ["data"; "bench"].

(** A data directory with one reflection file and one model file. *)
Definition disk : FS.t :=
  list_to_map [ (["data"], Dir);
                (["data"; "x.hkl"], File "reflections");
                (["data"; "x.ins"], File "model") ].

(** The same with a second reflection file. *)
Definition disk_two_hkl : FS.t :=
  <[["data"; "y.hkl"] := File "more reflections"]> disk.

(** The same with no model file. *)
Definition disk_no_ins : FS.t := delete ["data"; "x.ins"] disk.

(** The directory of job 0 with leftovers of an earlier run. *)
Definition disk_used : FS.t :=
  list_to_map [ (["data"; "bench"], Dir);
                (["data"; "bench"; "job_0"], Dir);
                (["data"; "bench"; "job_0"; "old.hkl"], File "stale");
                (["data"; "bench"; "job_0"; "done"], File "");
                (["data"; "bench"; "job_0"; "sub"], Dir);
                (["data"; "bench"; "job_0"; "sub"; "x.ins"], File "stale") ]
  ∪ disk.

Definition start (f : FS.t) : World := MkWorld f [].

(** Job 0 before [setup_workspace], and as the constructor leaves it on
    [disk]. *)
Definition raw_job : BenchJob.t :=
  BenchJob.Make base 0 (PyBool false) None (BenchJob.job_dir base 0)
                (PyFloat Float.zero) (PyInt 0) None.

Definition job : BenchJob.t :=
  BenchJob.set_ins_file (BenchJob.job_dir base 0 ++ ["x.ins"]) raw_job.

(** The state of [job] at work in its workspace. *)
Definition at_work {L} (l : L) : Frame BenchJob.t L :=
  MkFrame
    (start (<[BenchJob.job_dir base 0 := Dir]> (<[base := Dir]> disk)))
    job l.

(** The plugin object, for all jobs or for the job [idx]. *)
Definition plugin (idx : Z) : SISYPHOS.t :=
  SISYPHOS.Make base idx [] (PyBool false).

Definition stage (f : FS.t) (idx : Z) : Frame SISYPHOS.t unit :=
  MkFrame (start f) (plugin idx) tt.

(** Job 0 as its constructor calls [setup_workspace] on the disk with
    the leftovers, and as that call leaves it. *)
Definition used : Frame BenchJob.t unit :=
  cradle (stage disk_used 0) base 0 (PyBool false) None.

Definition reused : Frame BenchJob.t unit :=
  (BenchJob.setup_workspace used).1.

(** Job 1 with NoSpherA2 and two options, at work in its workspace. *)
Definition har_job : BenchJob.t :=
  BenchJob.Make base 1 (PyBool true)
    (Some [("method", PyStr "PBE"); ("h_aniso", PyBool false)])
    (BenchJob.job_dir base 1) (PyFloat Float.zero) (PyInt 0)
    (Some (BenchJob.job_dir base 1 ++ ["x.ins"])).

Definition har_at_work {L} (l : L) : Frame BenchJob.t L :=
  MkFrame
    (start (<[BenchJob.job_dir base 1 := Dir]> (<[base := Dir]> disk)))
    har_job l.

(** The plugin with options of its own, in the batch mode, about to
    make its jobs on [disk]; the jobs it makes on the sound engine, and
    the second of them. *)
Definition plugin_with_options : SISYPHOS.t :=
  SISYPHOS.Make base (-1)
    [("method", PyStr "B3LYP"); ("full_HAR", PyBool true)] (PyBool true).

Definition batch : Frame SISYPHOS.t (list BenchJob.t) :=
  MkFrame (start disk) plugin_with_options [].

Definition made : list BenchJob.t :=
  match (SISYPHOS.init_sisy_jobs (sound "n/a") batch).2 with
  | Ok jobs => jobs
  | Raise _ => []
  end.

Definition second_made : BenchJob.t := default raw_job (made !! 1%nat).

(** The sound engine, but for a negative variance of every distance. *)
Definition negative_variance : Env :=
  let e := sound "n/a" in
  MkEnv (env_unit e) (env_val e) (env_str e)
    (λ w fn args,
       if bool_decide (fn = "distances.variances")
       then Ok (num "-0.0001")
       else env_float e w fn args)
    (env_floats e) (env_strs e) (env_dict e) (env_pairs e)
    (env_finished e) (env_jobs e) (env_pow e).


(** The text of a file after a run. *)
Definition read {Self L A} (r : Frame Self L * result A) (p : path)
  : string :=
  FS.content (fs (world r.1)) p.

End Scenario.


(* ===================================================================== *)
(** * Strings *)
(* ===================================================================== *)

Lemma string_app_assoc (s1 s2 s3 : string) :
  (s1 +:+ s2) +:+ s3 = s1 +:+ s2 +:+ s3.
Proof.
  induction s1 as [|a s1 IH]; [reflexivity|].
  change (String a ((s1 +:+ s2) +:+ s3) = String a (s1 +:+ s2 +:+ s3)).
  by rewrite IH.
Qed.

Lemma string_app_nil_r (s : string) : s +:+ "" = s.
Proof.
  induction s as [|a s IH]; [reflexivity|].
  change (String a (s +:+ "") = String a s). by rewrite IH.
Qed.

(* ===================================================================== *)
(** * Rules for [steps] *)
(* ===================================================================== *)

Section StepsRules.
Context {S V : Type} (view : S → V) (I : V → Prop) (Q : relation V).
Context `{!PreOrder Q} `{!Stable I Q}.

Lemma steps_pure {A} (m : M S A) :
  (∀ s, view (m s).1 = view s) → steps view I Q m.
Proof. intros H s _. rewrite H. reflexivity. Qed.

Lemma steps_ret {A} (a : A) : steps view I Q (ret a).
Proof. by apply steps_pure. Qed.

Lemma steps_raise {A} e : steps view I Q (raise (A := A) e).
Proof. by apply steps_pure. Qed.

Lemma steps_bind {A B} (m : M S A) (k : A → M S B) :
  steps view I Q m → (∀ a, steps view I Q (k a)) → steps view I Q (bind m k).
Proof.
  intros Hm Hk s Hs. unfold bind. specialize (Hm s Hs).
  destruct (m s) as [s' [a|e]]; simpl in *; [|done].
  etrans; [exact Hm|]. apply Hk. by eapply stable.
Qed.

Lemma steps_try_except {A} (m : M S A) h :
  steps view I Q m → (∀ e, steps view I Q (h e)) →
  steps view I Q (try_except m h).
Proof.
  intros Hm Hh s Hs. unfold try_except. specialize (Hm s Hs).
  destruct (m s) as [s' [a|[c msg|c msg]]]; simpl in *; try done.
  etrans; [exact Hm|]. apply Hh. by eapply stable.
Qed.

Lemma steps_try_bare {A} (m h : M S A) :
  steps view I Q m → steps view I Q h → steps view I Q (try_bare m h).
Proof.
  intros Hm Hh s Hs. unfold try_bare. specialize (Hm s Hs).
  destruct (m s) as [s' [a|e]]; simpl in *; try done.
  etrans; [exact Hm|]. apply Hh. by eapply stable.
Qed.

Lemma steps_for_each {X} (l : list X) (body : X → M S unit) :
  (∀ x, steps view I Q (body x)) → steps view I Q (for_each l body).
Proof.
  intros Hb. induction l as [|x l IH]; simpl.
  - apply steps_ret.
  - apply steps_bind; auto.
Qed.

Lemma steps_from_option {A} (o : option A) e :
  steps view I Q (from_option o e).
Proof. destruct o; [apply steps_ret | apply steps_raise]. Qed.

Lemma steps_of_pure {A} (m : M S A) : pure_m m → steps view I Q m.
Proof. intros [r Hr]. apply steps_pure. intros s. by rewrite Hr. Qed.
End StepsRules.

Global Instance stable_any {V} (Q : relation V) : Stable any Q.
Proof. by intros v v' _ _. Qed.

(** The rules for what reads and writes the parts of a frame, seen
    through [obs]. *)
Section ObsRules.
Context {Self L : Type} (I : World * Self → Prop) (Q : relation (World * Self)).
Context `{!PreOrder Q} `{!Stable I Q}.
Local Abbreviation steps_o := (steps (obs (Self := Self) (L := L)) I Q).

Lemma steps_get_world : steps_o get_world.
Proof. by apply steps_pure. Qed.

Lemma steps_get_self : steps_o get_self.
Proof. by apply steps_pure. Qed.

Lemma steps_get_locals : steps_o get_locals.
Proof. by apply steps_pure. Qed.

Lemma steps_modify_locals f : steps_o (modify_locals f).
Proof. by apply steps_pure. Qed.

Lemma steps_invoke {L' A} (m : M (Frame Self L') A) l0 :
  steps obs I Q m → steps_o (invoke m l0).
Proof.
  intros Hm s Hs. unfold invoke.
  specialize (Hm (MkFrame (world s) (self s) l0) Hs).
  destruct (m _) as [s' r]. exact Hm.
Qed.

(** After [get_self] the object is known to be the one of the state. *)
Lemma steps_read_self {A} (k : Self → M (Frame Self L) A) :
  (∀ s, I (obs s) → Q (obs s) (obs (k (self s) s).1)) →
  steps_o (bind get_self k).
Proof. intros H s Hs. by apply H. Qed.
End ObsRules.

(** The same, seen through the local variables. *)
Section LocalsRules.
Context {Self L : Type} (I : L → Prop) (Q : relation L).
Context `{!PreOrder Q} `{!Stable I Q}.
Local Abbreviation steps_l := (steps (locals (Self := Self) (L := L)) I Q).

Lemma locals_get_world : steps_l get_world.
Proof. by apply steps_pure. Qed.

Lemma locals_get_self : steps_l get_self.
Proof. by apply steps_pure. Qed.

Lemma locals_get_locals : steps_l get_locals.
Proof. by apply steps_pure. Qed.

Lemma locals_modify_world f : steps_l (modify_world f).
Proof. by apply steps_pure. Qed.

Lemma locals_modify_self f : steps_l (modify_self f).
Proof. by apply steps_pure. Qed.

Lemma locals_ask {A} (answer : World → string → list pyval → result A)
    fn args : steps_l (ask answer fn args).
Proof. by apply steps_pure. Qed.

Lemma locals_modify_locals f :
  (∀ l, I l → Q l (f l)) → steps_l (modify_locals f).
Proof. intros Hf s Hs. by apply Hf. Qed.

Lemma locals_invoke {L' A} (m : M (Frame Self L') A) l0 :
  steps_l (invoke m l0).
Proof.
  apply (steps_pure locals I Q). intros s. unfold invoke. by destruct (m _).
Qed.
End LocalsRules.

(** The same, seen through the object. *)
Section SelfRules.
Context {Self L : Type} (I : Self → Prop) (Q : relation Self).
Context `{!PreOrder Q} `{!Stable I Q}.
Local Abbreviation steps_s := (steps (self (Self := Self) (L := L)) I Q).

Lemma self_get_world : steps_s get_world.
Proof. by apply steps_pure. Qed.

Lemma self_get_self : steps_s get_self.
Proof. by apply steps_pure. Qed.

Lemma self_get_locals : steps_s get_locals.
Proof. by apply steps_pure. Qed.

Lemma self_modify_world f : steps_s (modify_world f).
Proof. by apply steps_pure. Qed.

Lemma self_modify_locals f : steps_s (modify_locals f).
Proof. by apply steps_pure. Qed.

Lemma self_ask {A} (answer : World → string → list pyval → result A)
    fn args : steps_s (ask answer fn args).
Proof. by apply steps_pure. Qed.

Lemma self_fs_try op : steps_s (fs_try op).
Proof.
  apply (steps_pure self I Q). intros s. unfold fs_try. by destruct (op _).
Qed.

Lemma self_modify_self f : (∀ o, I o → Q o (f o)) → steps_s (modify_self f).
Proof. intros Hf s Hs. by apply Hf. Qed.

Lemma self_invoke {L' A} (m : M (Frame Self L') A) l0 :
  steps self I Q m → steps_s (invoke m l0).
Proof.
  intros Hm s Hs. unfold invoke.
  specialize (Hm (MkFrame (world s) (self s) l0) Hs).
  destruct (m _) as [s' r]. exact Hm.
Qed.
End SelfRules.

(* ===================================================================== *)
(** * Rules for [effects] *)
(* ===================================================================== *)

Global Instance same_job_preorder : PreOrder same_job.
Proof.
  split.
  - by intros a.
  - intros a b c (?&?&?&?&?) (?&?&?&?&?). unfold same_job.
    by repeat split; etrans.
Qed.

Section Effects.
Context (P : event → Prop) (touch : string → Prop).

Global Instance effects_preorder : PreOrder (effects P touch).
Proof.
  split.
  - intros o. split; [reflexivity|]. split; [|done].
    exists []. by rewrite app_nil_r.
  - intros o1 o2 o3 (Hj1 & (n1 & Ht1 & Hn1) & Hf1)
                    (Hj2 & (n2 & Ht2 & Hn2) & Hf2).
    split; [by etrans|]. split.
    + exists (n1 ++ n2). rewrite Ht2, Ht1, <- app_assoc. split; [done|].
      by apply Forall_app.
    + intros p Hp. rewrite Hf2, Hf1; [done..|].
      destruct Hj1 as (_&_&_&_&->). done.
Qed.

Context (I : World * BenchJob.t → Prop).

Lemma effects_event {L} ev (s : Frame BenchJob.t L) :
  P ev → effects P touch (obs s) (add_event ev (world s), self s).
Proof.
  intros HP. split; [reflexivity|]. split; [|done].
  exists [ev]. split; [done|]. by constructor.
Qed.

Lemma steps_ask {L A} (answer : World → string → list pyval → result A)
    fn args :
  P (EvCall fn args) →
  steps (obs (L := L)) I (effects P touch) (ask answer fn args).
Proof. intros HP s _. by apply (effects_event (EvCall fn args) s). Qed.

Lemma steps_emit {L} ev :
  P ev → steps (obs (L := L)) I (effects P touch) (emit ev).
Proof. intros HP s _. by apply (effects_event ev s). Qed.

Lemma steps_print {L} text :
  P (EvPrint text) → steps (obs (L := L)) I (effects P touch) (print text).
Proof. apply steps_emit. Qed.

Lemma effects_file {L} name c (s : Frame BenchJob.t L) :
  touch name →
  effects P touch (obs s)
    (set_fs (λ f, <[BenchJob.work_path (self s) ++ [name] := c]> f)
            (world s), self s).
Proof.
  intros Ht. split; [reflexivity|]. split.
  - exists []. by rewrite app_nil_r.
  - intros p Hp. simpl. rewrite lookup_insert_ne; [done|].
    intros <-. by eapply Hp.
Qed.

Lemma steps_write_log {L} out :
  touch "out.log" →
  steps (obs (L := L)) I (effects P touch) (BenchJob.write_log out).
Proof. intros Ht s _. by apply (effects_file "out.log" _ s). Qed.

Lemma steps_out_write text :
  touch "results.txt" →
  steps obs I (effects P touch) (BenchJob.out_write text).
Proof. intros Ht s _. by apply (effects_file "results.txt" _ s). Qed.

Lemma steps_modify_self {L} f :
  (∀ j, same_job j (f j)) →
  steps (obs (L := L)) I (effects P touch) (modify_self f).
Proof.
  intros Hf s _. split; [apply Hf|]. split; [|done].
  exists []. by rewrite app_nil_r.
Qed.
End Effects.

Lemma effects_mono (P P' : event → Prop) (touch touch' : string → Prop) o o' :
  (∀ e, P e → P' e) → (∀ n, touch n → touch' n) →
  effects P touch o o' → effects P' touch' o o'.
Proof.
  intros HP Ht (Hj & (new & Hn & HF) & Hf). split; [done|]. split.
  - exists new. split; [done|]. eapply Forall_impl; eauto.
  - intros p Hp. apply Hf. intros name Hn'. apply Hp. by apply Ht.
Qed.

(** An invariant about the attributes a job keeps stays true. *)
Global Instance stable_use_nos2 P touch v :
  Stable (λ o : World * BenchJob.t, BenchJob.use_nos2 o.2 = v)
         (effects P touch).
Proof. intros o o' H ((_&_&Hu&_)&_). by rewrite Hu. Qed.

Global Instance stable_id P touch i :
  Stable (λ o : World * BenchJob.t, BenchJob.id o.2 = i) (effects P touch).
Proof. intros o o' H ((_&Hi&_)&_). by rewrite Hi. Qed.

Lemma content_append f p text :
  FS.content (FS.append f p text) p = FS.content f p +:+ text.
Proof. unfold FS.content at 1, FS.append. by rewrite lookup_insert_eq. Qed.


Lemma emitted_app {Self L A} (m : M (Frame Self L) A) s new :
  trace (world (m s).1) = trace (world s) ++ new → emitted m s = new.
Proof. intros H. unfold emitted. by rewrite H, drop_app_length. Qed.


Lemma bind_ok {S A B} (m : M S A) (k : A → M S B) s s' b :
  bind m k s = (s', Ok b) → ∃ s1 a, m s = (s1, Ok a) ∧ k a s1 = (s', Ok b).
Proof. unfold bind. destruct (m s) as [s1 [a|e]]; [eauto|done]. Qed.

Lemma bind_assoc {S A B C} (m : M S A) (f : A → M S B) (k : B → M S C) s :
  bind (bind m f) k s = bind m (λ a, bind (f a) k) s.
Proof. unfold bind. by destruct (m s) as [s1 [a|e]]. Qed.


(** The events a method adds, from what [effects] says. *)
Lemma effects_emitted {L A} P touch (m : M (Frame BenchJob.t L) A) s :
  effects P touch (obs s) (obs (m s).1) →
  trace (world (m s).1) = trace (world s) ++ emitted m s
  ∧ Forall P (emitted m s).
Proof.
  intros (_ & (new & Hn & HF) & _). simpl in Hn. unfold emitted.
  rewrite Hn, drop_app_length. done.
Qed.

(* ===================================================================== *)
(** * Computations that leave the state alone *)
(* ===================================================================== *)

Section PureRules.
Context {S : Type}.

Lemma pure_ret {A} (a : A) : pure_m (ret (S := S) a).
Proof. by exists (Ok a). Qed.

Lemma pure_raise {A} e : pure_m (raise (S := S) (A := A) e).
Proof. by exists (Raise e). Qed.

Lemma pure_bind {A B} (m : M S A) (k : A → M S B) :
  pure_m m → (∀ a, pure_m (k a)) → pure_m (bind m k).
Proof.
  intros [[a|e] Hm] Hk.
  - destruct (Hk a) as [r Hr]. exists r. intros s. unfold bind.
    by rewrite Hm.
  - exists (Raise e). intros s. unfold bind. by rewrite Hm.
Qed.

Lemma pure_from_option {A} (o : option A) e :
  pure_m (from_option (S := S) o e).
Proof. destruct o; [apply pure_ret | apply pure_raise]. Qed.
End PureRules.

Ltac head_of t :=
  lazymatch t with
  | ?f _ => head_of f
  | _ => t
  end.

Ltac pure_step :=
  lazymatch goal with
  | |- ∀ _, _ => intros
  | |- pure_m (ret _) => apply pure_ret
  | |- pure_m (raise _) => apply pure_raise
  | |- pure_m (from_option _ _) => apply pure_from_option
  | |- pure_m (bind _ _) => apply pure_bind
  | |- pure_m (if ?b then _ else _) => destruct b
  | |- pure_m (match ?x with _ => _ end) => destruct x
  | |- pure_m ?m => let h := head_of m in progress unfold h
  end.

Ltac pure_tac := repeat pure_step.

Lemma pure_symmetric_axes {S} p e i j :
  pure_m (BenchJob.symmetric_axes (S := S) p e i j).
Proof. pure_tac. Qed.

Lemma pure_correct_pair {S} env p e m ij :
  pure_m (BenchJob.correct_pair (S := S) env p e m ij).
Proof.
  unfold BenchJob.correct_pair. destruct ij as [i j].
  apply pure_bind; [apply pure_symmetric_axes|]. pure_tac.
Qed.

Lemma pure_fold_pairs {S} env p e l m :
  pure_m (BenchJob.fold_pairs (S := S) env p e l m).
Proof.
  revert m. induction l as [|ij l IH]; intros m; simpl.
  - apply pure_ret.
  - apply pure_bind; [apply pure_correct_pair | done].
Qed.

Lemma pure_cell_vcv {S} env p e :
  pure_m (BenchJob.cell_vcv (S := S) env p e).
Proof. apply pure_fold_pairs. Qed.

(* ===================================================================== *)
(** * The automation *)
(* ===================================================================== *)

(** Side conditions: an event satisfies the predicate, a file name may
    be touched, a setter keeps the attributes of the job. *)
Ltac side :=
  solve [ exact I | done | by intros [=]
        | intros ?; by repeat split
        | unfold job_output, any; simpl; tauto
        | intros ? ?; simpl in *; done
        | intros ? ?; by repeat split ].

(** One rule, chosen by the shape of the computation. [extra] is tried
    first: the rules a proof adds. *)
Ltac steps_step extra :=
  first
  [ extra
  | lazymatch goal with
    | |- PreOrder _ => apply _
    | |- Stable _ _ => apply _
    | |- ∀ _, _ => intros
    | |- steps _ _ _ (BenchJob.cell_vcv _ _ _) =>
        apply steps_of_pure; [apply _ | apply pure_cell_vcv]
    | |- steps obs _ _ (BenchJob.write_log _) => apply steps_write_log; side
    | |- steps obs _ _ (BenchJob.out_write _) => apply steps_out_write; side
    | |- steps obs _ _ (ask _ _ _) => apply steps_ask; side
    | |- steps obs _ _ (print _) => apply steps_print; side
    | |- steps obs _ _ (emit _) => apply steps_emit; side
    | |- steps obs _ _ (modify_self _) => apply steps_modify_self; side
    | |- steps obs _ _ get_world => apply steps_get_world
    | |- steps obs _ _ get_self => apply steps_get_self
    | |- steps obs _ _ get_locals => apply steps_get_locals
    | |- steps obs _ _ (modify_locals _) => apply steps_modify_locals
    | |- steps obs _ _ (invoke _ _) => apply steps_invoke
    | |- steps locals _ _ (BenchJob.write_log _) =>
        unfold BenchJob.write_log
    | |- steps locals _ _ (ask _ _ _) => apply locals_ask
    | |- steps locals _ _ (print _) => unfold print
    | |- steps locals _ _ (emit _) => unfold emit
    | |- steps locals _ _ (modify_world _) => apply locals_modify_world
    | |- steps locals _ _ (modify_self _) => apply locals_modify_self
    | |- steps locals _ _ get_world => apply locals_get_world
    | |- steps locals _ _ get_self => apply locals_get_self
    | |- steps locals _ _ get_locals => apply locals_get_locals
    | |- steps locals _ _ (modify_locals _) => apply locals_modify_locals; side
    | |- steps locals _ _ (invoke _ _) => apply locals_invoke
    | |- steps self _ _ (ask _ _ _) => apply self_ask
    | |- steps self _ _ (print _) => unfold print
    | |- steps self _ _ (emit _) => unfold emit
    | |- steps self _ _ (fs_try _) => apply self_fs_try
    | |- steps self _ _ (modify_world _) => apply self_modify_world
    | |- steps self _ _ (modify_locals _) => apply self_modify_locals
    | |- steps self _ _ (modify_self _) => apply self_modify_self; side
    | |- steps self _ _ (invoke _ _) => apply self_invoke
    | |- steps self _ _ get_world => apply self_get_world
    | |- steps self _ _ get_self => apply self_get_self
    | |- steps self _ _ get_locals => apply self_get_locals
    | |- steps _ _ _ (ret _) => apply steps_ret
    | |- steps _ _ _ (raise _) => apply steps_raise
    | |- steps _ _ _ (from_option _ _) => apply steps_from_option
    | |- steps _ _ _ (for_each _ _) => apply steps_for_each
    | |- steps _ _ _ (try_except _ _) => apply steps_try_except
    | |- steps _ _ _ (try_bare _ _) => apply steps_try_bare
    | |- steps _ _ _ (bind _ _) => apply steps_bind
    | |- steps _ _ _ (if ?b then _ else _) => destruct b
    | |- steps _ _ _ (match ?x with _ => _ end) => destruct x
    | |- steps _ _ _ ?m => let h := head_of m in progress unfold h
    end ].

Ltac steps_with extra := repeat steps_step extra.
Ltac steps_tac := steps_with fail.

(* ===================================================================== *)
(** * What the methods of a job do to the world *)
(* ===================================================================== *)

Section JobEffects.
Context (env : Env).

Lemma refine_effects {L} :
  steps (obs (L := L)) any (effects is_io job_output) (BenchJob.refine env).
Proof. steps_tac. Qed.

Lemma extract_info_effects :
  steps obs any (effects is_io job_output) (BenchJob.extract_info env).
Proof. steps_tac. Qed.
End JobEffects.


(* ===================================================================== *)
(** * The done marker (C1) *)
(* ===================================================================== *)

Section DoneMarker.
Context (env : Env) {L : Type}.
Implicit Types s : Frame BenchJob.t L.

Lemma run_refinement_effects :
  steps (obs (L := L)) any (effects any job_output)
        (BenchJob.run_refinement env).
Proof. steps_tac. Qed.

Lemma extract_info_any :
  steps obs any (effects any job_output) (BenchJob.extract_info env).
Proof. steps_tac. Qed.

(** A file of the workspace that is neither the log nor the results is
    as it was, and the workspace is the same. *)
Lemma effects_done P o o' :
  effects P job_output o o' →
  BenchJob.done_path o'.2 = BenchJob.done_path o.2
  ∧ fs o'.1 !! BenchJob.done_path o.2 = fs o.1 !! BenchJob.done_path o.2.
Proof.
  intros ((_&_&_&_&Hw) & _ & Hf). unfold BenchJob.done_path.
  rewrite Hw. split; [done|]. apply Hf.
  intros name [-> | ->] [=]%(inj (app _)).
Qed.
End DoneMarker.

(** C1. [BenchJob.run] creates the empty file [done] in the workspace of
    the job if and only if its call of [extract_info] returns without
    raising, whatever [refine] met and logged before: started where the
    marker does not exist, [run] either leaves while it refines (then
    [extract_info] is not called and there is no marker), or it returns
    and the marker exists, with no content, exactly when the call of
    [extract_info] returned. *)
Theorem done_marker_iff_extraction (env : Env) {L : Type}
    (s : Frame BenchJob.t L) :
  fs (world s) !! BenchJob.done_path (self s) = None →
  let marker (s' : Frame BenchJob.t L) :=
    fs (world s') !! BenchJob.done_path (self s) in
  match BenchJob.run_refinement env s with
  | (s1, Raise e) => BenchJob.run env s = (s1, Raise e) ∧ marker s1 = None
  | (s1, Ok _) =>
      let extraction := invoke (BenchJob.extract_info env) BenchJob.no_locals s1 in
      (BenchJob.run env s).2 = Ok tt
      ∧ (marker (BenchJob.run env s).1 = Some (File "") ↔ extraction.2 = Ok tt)
      ∧ (marker (BenchJob.run env s).1 = None ↔ extraction.2 ≠ Ok tt)
  end.
Proof.
  intros Hnone marker.
  pose proof (run_refinement_effects env s I) as H1.
  apply effects_done in H1 as [Hp1 Hf1].
  unfold BenchJob.run, bind.
  destruct (BenchJob.run_refinement env s) as [s1 [[]|e]] eqn:Hr; simpl in *.
  2:{ split; [done|]. unfold marker. by rewrite Hf1. }
  pose proof (steps_invoke any (effects any job_output) _ BenchJob.no_locals
                (extract_info_any env) s1 I) as H2.
  apply effects_done in H2 as [Hp2 Hf2].
  unfold BenchJob.run_extraction, bind, try_bare.
  destruct (invoke (BenchJob.extract_info env) BenchJob.no_locals s1)
    as [s2 [[]|e]] eqn:He; simpl in *.
  - unfold marker. simpl. unfold FS.create.
    rewrite Hp2, Hp1, lookup_insert_eq. split; [done|].
    split; [done|]. split; [done|]. by intros [].
  - unfold marker. simpl. unfold FS.append. rewrite lookup_insert_ne.
    2:{ unfold BenchJob.done_path, BenchJob.log_path in *.
        apply (inj (λ l, l ++ _)) in Hp1, Hp2. rewrite Hp2, Hp1.
        intros [=]%(inj (app _)). }
    rewrite <- Hp1, Hf2, Hp1, Hf1, Hnone. split; [done|]. split; [done|]. done.
Qed.

(** On the sound engine the job at work has no marker before [run] and
    the empty marker after it. *)
Lemma done_marker_witness :
  fs (world (Scenario.at_work tt)) !! BenchJob.done_path Scenario.job = None
  ∧ fs (world (BenchJob.run (Scenario.sound "0.0005(3)")
                 (Scenario.at_work tt)).1)
       !! BenchJob.done_path Scenario.job = Some (File "").
Proof.
  assert (fs (world (Scenario.at_work tt))
            !! BenchJob.done_path (self (Scenario.at_work tt)) = None) as H0
    by (vm_compute; reflexivity).
  split; [exact H0|].
  pose proof (done_marker_iff_extraction (Scenario.sound "0.0005(3)")
                (Scenario.at_work tt) H0) as H.
  vm_compute in H. vm_compute. tauto.
Defined.


(* ===================================================================== *)
(** * The covariance of the cell (C5) *)
(* ===================================================================== *)







(* ===================================================================== *)
(** * The extinction branch (C4) *)
(* ===================================================================== *)

Section Extinction.
Context (env : Env) {L : Type}.
Implicit Types s : Frame BenchJob.t L.

Lemma refine_start_off_branch :
  steps (obs (L := L)) any (effects off_branch any) (BenchJob.refine_start env).
Proof. steps_tac. Qed.

Lemma refine_end_off_branch :
  steps (obs (L := L)) any (effects off_branch any) (BenchJob.refine_end env).
Proof. steps_tac. Qed.

Lemma refine_failed_off_branch e :
  steps (obs (L := L)) any (effects off_branch any) (BenchJob.refine_failed e).
Proof. steps_tac. Qed.

Lemma branch_of_small (small large : M (Frame BenchJob.t L) unit) :
  branch_of "0.0005(3)" small large = small.
Proof. vm_compute. reflexivity. Qed.

Lemma branch_of_large (small large : M (Frame BenchJob.t L) unit) :
  branch_of "0.002(1)" small large = large.
Proof. vm_compute. reflexivity. Qed.

Lemma branch_of_absent (small large : M (Frame BenchJob.t L) unit) :
  branch_of "n/a" small large = ret tt.
Proof. vm_compute. reflexivity. Qed.

(** What the branch adds to the trace, for the three values. *)
Lemma branch_small s :
  emitted (BenchJob.extinction_branch env "0.0005(3)") s
  = [cmd "delins EXTI"].
Proof.
  apply emitted_app. unfold BenchJob.extinction_branch.
  fold (branch_of "0.0005(3)"
          (do _ <- BenchJob.olex_m env "delins EXTI";
           BenchJob.write_log ("Deleted EXTI with exti of: " +:+ "0.0005(3)"))
          (do _ <- BenchJob.write_log "Exti > 0.001, set L-M instead of G-N";
           BenchJob.olex_m (L := L) env BenchJob.set_LM)).
  rewrite branch_of_small. unfold bind, BenchJob.olex_m, ask.
  by destruct (env_unit env (world s) _ _) as [[]|].
Qed.

Lemma branch_large s :
  emitted (BenchJob.extinction_branch env "0.002(1)") s
  = [cmd BenchJob.set_LM].
Proof.
  apply emitted_app. unfold BenchJob.extinction_branch.
  fold (branch_of "0.002(1)"
          (do _ <- BenchJob.olex_m env "delins EXTI";
           BenchJob.write_log ("Deleted EXTI with exti of: " +:+ "0.002(1)"))
          (do _ <- BenchJob.write_log "Exti > 0.001, set L-M instead of G-N";
           BenchJob.olex_m (L := L) env BenchJob.set_LM)).
  rewrite branch_of_large.
  unfold BenchJob.write_log, bind, BenchJob.olex_m, ask. done.
Qed.

Lemma branch_absent s :
  emitted (BenchJob.extinction_branch env "n/a") s = [].
Proof. apply emitted_app. simpl. by rewrite app_nil_r. Qed.

Lemma branch_effects exti :
  steps (obs (L := L)) any (effects any any)
        (BenchJob.extinction_branch env exti).
Proof. steps_tac. Qed.

(** The trace of [refine] when the protocol reaches the query of the
    extinction and the engine answers [exti]: what came before, the
    query, what the branch does, what comes after; the two commands of
    the branch occur in the third part only. *)
Lemma refine_trace s s1 exti :
  BenchJob.refine_start env s = (s1, Ok tt) →
  env_str env (world s1) "olx.xf.rm.Exti" [] = Ok exti →
  ∃ before after s2,
    emitted (BenchJob.refine env) s
    = before ++ EvCall "olx.xf.rm.Exti" []
             :: emitted (BenchJob.extinction_branch env exti) s2 ++ after
    ∧ Forall off_branch before ∧ Forall off_branch after.
Proof.
  intros Hstart Hexti.
  pose proof (refine_start_off_branch s I) as H1.
  apply effects_emitted in H1 as [Ht1 HF1]. rewrite Hstart in Ht1. simpl in Ht1.
  set (s2 := MkFrame
    (set_fs (λ f, FS.append f (BenchJob.log_path (self s1))
                    (("Found Extinction: " +:+ exti) +:+ nl))
            (add_event (EvCall "olx.xf.rm.Exti" []) (world s1)))
    (self s1) (locals s1)).
  assert (BenchJob.refine env s
          = try_except
              (do _ <- BenchJob.extinction_branch env exti;
               BenchJob.refine_end env)
              BenchJob.refine_failed s2) as Hrefine.
  { unfold BenchJob.refine, try_except, bind at 1 2 3. rewrite Hstart.
    unfold ask. rewrite Hexti. done. }
  exists (emitted (BenchJob.refine_start env) s).
  pose proof (branch_effects exti s2 I) as H2.
  apply effects_emitted in H2 as [Ht2 _].
  assert (∃ after, trace (world (BenchJob.refine env s).1)
                   = trace (world (BenchJob.extinction_branch env exti s2).1)
                     ++ after ∧ Forall off_branch after) as (after & Ht3 & HF3).
  { rewrite Hrefine. unfold try_except, bind.
    destruct (BenchJob.extinction_branch env exti s2) as [s3 [[]|[c m|c m]]];
      simpl.
    - pose proof (refine_end_off_branch s3 I) as H3.
      apply effects_emitted in H3 as [Ht3 HF3].
      destruct (BenchJob.refine_end env s3) as [s4 [[]|[c m|c m]]]; simpl in *;
        by eauto.
    - pose proof (refine_failed_off_branch (Exc c m) s3 I) as H4.
      apply effects_emitted in H4 as [Ht4 HF4]. by eauto.
    - exists []. by rewrite app_nil_r. }
  exists after, s2. split; [|done].
  apply emitted_app. rewrite Ht3, Ht2. subst s2. simpl.
  rewrite Ht1. by rewrite <- !app_assoc.
Qed.
End Extinction.

(** C4. When the protocol of [refine] reaches the query of the extinction:
    if the engine reports "0.0005(3)", the command that deletes EXTI is
    issued and the refinement program is not set to Levenberg-Marquardt;
    if it reports "0.002(1)", the program is set to Levenberg-Marquardt
    and EXTI is not deleted; if it reports "n/a", neither is done. *)
Theorem extinction_branch_determinism (env : Env) {L : Type}
    (s s1 : Frame BenchJob.t L) :
  BenchJob.refine_start env s = (s1, Ok tt) →
  let reported := env_str env (world s1) "olx.xf.rm.Exti" [] in
  let issued := emitted (BenchJob.refine env) s in
  (reported = Ok "0.0005(3)" →
   (cmd "delins EXTI" ∈ issued) ∧ (cmd BenchJob.set_LM ∉ issued))
  ∧ (reported = Ok "0.002(1)" →
     (cmd BenchJob.set_LM ∈ issued) ∧ (cmd "delins EXTI" ∉ issued))
  ∧ (reported = Ok "n/a" →
     (cmd "delins EXTI" ∉ issued) ∧ (cmd BenchJob.set_LM ∉ issued)).
Proof.
  intros Hstart reported issued.
  assert (∀ l, Forall off_branch l →
               (cmd "delins EXTI" ∉ l) ∧ (cmd BenchJob.set_LM ∉ l)) as Hoff.
  { intros l Hl. rewrite Forall_forall in Hl.
    split; intros Hin; apply Hl in Hin as [? ?]; done. }
  split; [|split]; intros Hrep.
  all: destruct (refine_trace env s s1 _ Hstart Hrep)
         as (before & after & s2 & Hissued & [Hb1 Hb2]%Hoff & [Ha1 Ha2]%Hoff).
  all: unfold issued; rewrite Hissued.
  all: rewrite ?branch_small, ?branch_large, ?branch_absent.
  all: split.
  all: rewrite ?elem_of_app, ?elem_of_cons, ?elem_of_app, ?elem_of_cons,
         ?elem_of_nil.
  all: try (by auto).
  all: intros [?|[?|[[?|[]]|?]]] || intros [?|[?|[[]|?]]]; done.
Qed.

(** On the sound engine, from the job at work: the three reports. *)
Lemma extinction_branch_witness :
  (cmd "delins EXTI"
     ∈ emitted (BenchJob.refine (Scenario.sound "0.0005(3)"))
               (Scenario.at_work tt))
  ∧ (cmd BenchJob.set_LM
       ∈ emitted (BenchJob.refine (Scenario.sound "0.002(1)"))
                 (Scenario.at_work tt))
  ∧ (cmd "delins EXTI"
       ∉ emitted (BenchJob.refine (Scenario.sound "n/a"))
                 (Scenario.at_work tt)).
Proof.
  assert (∀ exti,
            BenchJob.refine_start (Scenario.sound exti) (Scenario.at_work tt)
            = ((BenchJob.refine_start (Scenario.sound exti)
                  (Scenario.at_work tt)).1, Ok tt)) as Hstart.
  { intros exti.
    rewrite (surjective_pairing (BenchJob.refine_start _ _)) at 1.
    f_equal. }
  split; [|split].
  - by apply (extinction_branch_determinism _ _ _ (Hstart "0.0005(3)")).
  - by apply (extinction_branch_determinism _ _ _ (Hstart "0.002(1)")).
  - by apply (extinction_branch_determinism _ _ _ (Hstart "n/a")).
Defined.


(* ===================================================================== *)
(** * Jobs without NoSpherA2 parameters (C10) *)
(* ===================================================================== *)

Lemma setup_workspace_same_job {L} :
  steps (self (L := L)) any same_job BenchJob.setup_workspace.
Proof. steps_tac. Qed.

(** What the constructor gives is the object it started from, with the
    model file set. *)
Lemma init_same_job {Self L} base i use params (s s' : Frame Self L) job :
  BenchJob.__init__ base i use params s = (s', Ok job) →
  same_job
    (BenchJob.Make base i
       (match params with None => PyBool false | Some _ => use end)
       params (BenchJob.job_dir base i) (PyFloat Float.zero) (PyInt 0) None)
    job.
Proof.
  unfold BenchJob.__init__.
  set (me := BenchJob.Make _ _ _ _ _ _ _ _).
  set (m := do _ <- emit (L := unit) (EvNew i); BenchJob.setup_workspace).
  unfold bind, invoke_on.
  assert (steps self any same_job m) as Hm by (subst m; steps_tac).
  specialize (Hm (MkFrame (world s) me tt) I).
  destruct (m _) as [s1 [[]|e]]; simpl in *; unfold ret, raise; [|done].
  by intros [= _ <-].
Qed.

(** With the flag false the end of [refine] stops after the second pass
    of the independent atom model. *)
Lemma refine_plain (env : Env) {L} :
  steps (obs (L := L))
        (λ o, BenchJob.use_nos2 o.2 = PyBool false)
        (effects not_advanced any) (BenchJob.refine env).
Proof.
  steps_with
    ltac:(idtac; lazymatch goal with
          | |- steps obs _ _
                 (bind get_self
                    (λ me, if truthy (BenchJob.use_nos2 me) then _ else _)) =>
              apply steps_read_self; intros ? Hflag; simpl in Hflag;
              rewrite Hflag; reflexivity
          end).
Qed.

(** C10. A job constructed with [nos2_params] equal to [None] has the
    flag [use_nos2] false whatever flag was passed, prints as an IAM job,
    and its [refine] never does the pass with NoSpherA2: none of the
    marks of that pass is among the events it adds. *)
Theorem iam_job_never_advanced {Self L} (base : path) (i : Z) (use : pyval)
    (s s' : Frame Self L) (job : BenchJob.t) :
  BenchJob.__init__ base i use None s = (s', Ok job) →
  BenchJob.use_nos2 job = PyBool false
  ∧ BenchJob.__str__ job
    = "Job with following options:" +:+ nl +:+ "IAM Job" +:+ nl
  ∧ ∀ (env : Env) L' (r : Frame BenchJob.t L'),
      self r = job → Forall not_advanced (emitted (BenchJob.refine env) r).
Proof.
  intros (_ & _ & Huse & Hparams & _)%init_same_job. simpl in *.
  split; [done|]. split.
  - unfold BenchJob.__str__. by rewrite Hparams.
  - intros env L' r <-.
    by apply (effects_emitted not_advanced any), (refine_plain env).
Qed.

(** Job 0 of the data directory, asked for with the flag set and no
    parameters. *)
Lemma iam_job_witness :
  ∃ job,
    (BenchJob.__init__ Scenario.base 0 (PyBool true) None
       (Scenario.stage Scenario.disk 0)).2 = Ok job
    ∧ BenchJob.use_nos2 job = PyBool false
    ∧ Forall not_advanced
        (emitted (BenchJob.refine (Scenario.sound "n/a"))
                 (MkFrame (Scenario.start Scenario.disk) job tt)).
Proof.
  destruct (BenchJob.__init__ Scenario.base 0 (PyBool true) None
              (Scenario.stage Scenario.disk 0)) as [s' [job|e]] eqn:Hinit;
    [|by vm_compute in Hinit].
  exists job. split; [done|].
  destruct (iam_job_never_advanced _ _ _ _ _ _ Hinit) as (Huse & _ & Hrefine).
  split; [exact Huse|]. by apply Hrefine.
Defined.


(* ===================================================================== *)
(** * The results file (C9) *)
(* ===================================================================== *)

Lemma wrote_refl {L} (s : Frame BenchJob.t L) : wrote "" s s.
Proof. split; [done|]. by rewrite string_app_nil_r. Qed.

Lemma wrote_app {L} t1 t2 (s s1 s2 : Frame BenchJob.t L) :
  wrote t1 s s1 → wrote t2 s1 s2 → wrote (t1 +:+ t2) s s2.
Proof.
  intros [Hs1 Hc1] [Hs2 Hc2]. rewrite Hs1 in Hs2, Hc2. split; [done|].
  by rewrite Hc2, Hc1, string_app_assoc.
Qed.

Lemma wrote_skip {L} t (s s1 s2 : Frame BenchJob.t L) :
  wrote "" s s1 → wrote t s1 s2 → wrote t s s2.
Proof. apply (wrote_app "" t). Qed.

(** What is done before the results file is opened leaves it alone. *)
Lemma quiet_wrote {A} (m : M (Frame BenchJob.t BenchJob.locals) A) s :
  steps obs any (effects is_io (λ n, n = "out.log")) m →
  steps self any eq m →
  wrote "" s (m s).1.
Proof.
  intros Ho Hs. destruct (Ho s I) as (_ & _ & Hfs). split.
  - symmetry. apply (Hs s I).
  - rewrite string_app_nil_r. unfold FS.content. simpl in Hfs.
    rewrite Hfs; [done|]. intros name -> H.
    by apply (inj (λ l, BenchJob.work_path (self s) ++ l)) in H.
Qed.

Lemma out_write_wrote text s :
  BenchJob.out_write text s = ((BenchJob.out_write text s).1, Ok tt)
  ∧ wrote text s (BenchJob.out_write text s).1.
Proof. split; [done|]. split; [done|]. simpl. apply content_append. Qed.

Lemma ask_wrote {L A} (answer : World → string → list pyval → result A)
    fn args (s : Frame BenchJob.t L) :
  wrote "" s (ask answer fn args s).1.
Proof. split; [done|]. simpl. by rewrite string_app_nil_r. Qed.

Lemma write_items_wrote {V} (str : V → string) d s :
  (BenchJob.write_items str d s).2 = Ok tt
  ∧ wrote (items str d) s (BenchJob.write_items str d s).1.
Proof.
  revert s. induction d as [|kv d IH]; intros s.
  - split; [done|]. apply wrote_refl.
  - destruct (IH (BenchJob.out_write (kv.1 +:+ ":" +:+ str kv.2 +:+ ",") s).1)
      as [Hr Hw].
    split; [exact Hr|].
    eapply wrote_app; [apply out_write_wrote | exact Hw].
Qed.

Section Sections.
Context (env : Env).

(** The entries of [refine_dict]: one parameter of the host a key. *)
Lemma refine_dict_wrote keys s s' :
  for_each keys (λ key,
    do v <- BenchJob.GetParam env ("snum.refinement." +:+ key);
    BenchJob.out_write (key +:+ ":" +:+ py_str v +:+ ",")) s = (s', Ok tt) →
  ∃ vals, length vals = length keys
          ∧ wrote (items py_str (zip keys vals)) s s'.
Proof.
  revert s. induction keys as [|key keys IH]; intros s H.
  - injection H as <-. exists []. split; [done|]. apply wrote_refl.
  - simpl in H. apply bind_ok in H as (s2 & [] & Hstep & H).
    apply bind_ok in Hstep as (s1 & v & Hv & Hw).
    destruct (IH s2 H) as (vals & Hlen & Hrest).
    exists (v :: vals). split; [simpl; by rewrite Hlen|].
    pose proof (ask_wrote (env_val env) "OV.GetParam"
                  [PyStr ("snum.refinement." +:+ key)] s) as W1.
    unfold BenchJob.GetParam in Hv. rewrite Hv in W1.
    pose proof (out_write_wrote (key +:+ ":" +:+ py_str v +:+ ",") s1)
      as [_ W2].
    rewrite Hw in W2.
    exact (wrote_app _ _ _ _ _ (wrote_app _ _ _ _ _ W1 W2) Hrest).
Qed.

(** The entries of the uncertainties, in the order of the distances. *)
Lemma bond_errors_wrote (stats errs : pydict float) s s' :
  for_each stats (λ kv,
    do e <- from_option (Dict.get kv.1 errs)
              (Exc "KeyError" ("'" +:+ kv.1 +:+ "'"));
    BenchJob.out_write (kv.1 +:+ ":" +:+ Float.repr e +:+ ",")) s
  = (s', Ok tt) →
  wrote (items Float.repr (bond_errors stats errs)) s s'.
Proof.
  revert s. induction stats as [|kv stats IH]; intros s H.
  - injection H as <-. apply wrote_refl.
  - simpl in H. apply bind_ok in H as (s2 & [] & Hstep & H).
    apply bind_ok in Hstep as (s1 & e & He & Hw).
    unfold bond_errors. simpl.
    destruct (Dict.get kv.1 errs) as [e'|]; [|done].
    injection He as <- <-. simpl.
    pose proof (out_write_wrote (kv.1 +:+ ":" +:+ Float.repr e' +:+ ",") s)
      as [_ W]. rewrite Hw in W.
    exact (wrote_app _ _ _ _ _ W (IH s2 H)).
Qed.

(** The results of a run grow by the block of its sections. *)
Lemma locals_kept {A} (m : M (Frame BenchJob.t BenchJob.locals) A) s s1 r :
  steps locals any eq m → m s = (s1, r) → locals s1 = locals s.
Proof. intros Hm Heq. specialize (Hm s I). by rewrite Heq in Hm. Qed.

(** The section of the NoSpherA2 settings. *)
Lemma nos_section_wrote (me : BenchJob.t) s s' :
  (if truthy (BenchJob.use_nos2 me)
   then do params <- BenchJob.iter_params (BenchJob.nos2_params me);
        BenchJob.write_items py_str params
   else ret tt) s = (s', Ok tt) →
  wrote (nos_section me) s s'.
Proof.
  unfold nos_section. destruct (truthy (BenchJob.use_nos2 me)).
  - intros H. apply bind_ok in H as (s1 & params & Hp & H).
    destruct (BenchJob.nos2_params me) as [d|]; [|done].
    injection Hp as <- <-.
    pose proof (proj2 (write_items_wrote py_str d s)) as W.
    by rewrite H in W.
  - intros [= <-]. apply wrote_refl.
Qed.

Ltac wrote_step H W :=
  let s1 := fresh "s" in
  let H1 := fresh "H" in
  apply bind_ok in H as (s1 & [] & H1 & H);
  lazymatch type of H1 with
  | BenchJob.out_write ?t ?s = _ =>
      pose proof (proj2 (out_write_wrote t s)) as W; rewrite H1 in W
  | BenchJob.write_items ?str ?d ?s = _ =>
      pose proof (proj2 (write_items_wrote str d s)) as W; rewrite H1 in W
  | for_each BenchJob.refine_keys _ _ = _ =>
      apply refine_dict_wrote in H1 as W
  | for_each _ _ _ = _ =>
      apply bond_errors_wrote in H1 as W
  | _ => apply nos_section_wrote in H1 as W
  end.

Ltac asked_step H v W :=
  let s1 := fresh "s" in
  let H1 := fresh "H" in
  apply bind_ok in H as (s1 & v & H1 & H);
  lazymatch type of H1 with
  | ask ?f ?fn ?args ?s = _ =>
      pose proof (ask_wrote f fn args s) as W; rewrite H1 in W
  | BenchJob.GetParam ?e ?k ?s = _ =>
      pose proof (ask_wrote (env_val e) "OV.GetParam" [PyStr k] s) as W;
      unfold BenchJob.GetParam in H1; rewrite H1 in W
  end.

(** The text a complete [write_results] appends. *)
Lemma write_results_wrote s s' :
  BenchJob.write_results env s = (s', Ok tt) →
  ∃ (vals : list pyval) (weight npd : pyval),
    length vals = length BenchJob.refine_keys
    ∧ wrote
        (results_block
           (nos_section (self s))
           (items py_str (BenchJob.hkl_stats (locals s)))
           (items py_str (BenchJob.cell_stats (locals s)))
           (items BenchJob.cif_str (default [] (BenchJob.cif_stats (locals s))))
           (items py_str (zip BenchJob.refine_keys vals))
           (rfactor_line (self s) (locals s))
           (items Float.repr (BenchJob.dist_stats (locals s)))
           (items Float.repr
              (bond_errors (BenchJob.dist_stats (locals s))
                           (BenchJob.dist_errs (locals s))))
           (py_str weight) (py_str npd))
        s s'.
Proof.
  intros H. unfold BenchJob.write_results in H.
  apply bind_ok in H as (s0 & me & Hme & H). injection Hme as <- <-.
  wrote_step H W1. wrote_step H W2. wrote_step H W3.
  apply bind_ok in H as (s3 & l & Hl & H). injection Hl as <- <-.
  assert (locals s2 = locals s) as Hlocals.
  { erewrite (locals_kept _ s1 s2), (locals_kept _ s0 s1),
      (locals_kept _ s s0); [done|..|eassumption]; try eassumption;
      steps_tac. }
  rewrite Hlocals in H. clear Hlocals.
  wrote_step H W4. wrote_step H W5. wrote_step H W6. wrote_step H W7.
  apply bind_ok in H as (s8 & cif & Hcif & H).
  destruct (BenchJob.cif_stats (locals s)) as [cif'|] eqn:Hc; [|done].
  injection Hcif as <- <-.
  wrote_step H W8. wrote_step H W9. wrote_step H W10.
  destruct W10 as (vals & Hlen & W10).
  wrote_step H W11. wrote_step H W12. wrote_step H W13. wrote_step H W14.
  wrote_step H W15.
  asked_step H weight W16. wrote_step H W17.
  asked_step H npd W18. wrote_step H W19.
  lazymatch type of H with
  | BenchJob.out_write ?t ?s = _ =>
      pose proof (proj2 (out_write_wrote t s)) as W20; rewrite H in W20
  end.
  exists vals, weight, npd. split; [done|].
  unfold results_block.
  eapply wrote_app; [exact W1|]. eapply wrote_app; [exact W2|].
  eapply wrote_app; [exact W3|]. eapply wrote_app; [exact W4|].
  eapply wrote_app; [exact W5|]. eapply wrote_app; [exact W6|].
  eapply wrote_app; [exact W7|]. eapply wrote_app; [exact W8|].
  eapply wrote_app; [exact W9|]. eapply wrote_app; [exact W10|].
  eapply wrote_app; [exact W11|]. eapply wrote_app; [exact W12|].
  eapply wrote_app; [exact W13|]. eapply wrote_app; [exact W14|].
  eapply wrote_app; [exact W15|].
  apply (wrote_skip _ _ _ _ W16). eapply wrote_app; [exact W17|].
  apply (wrote_skip _ _ _ _ W18). eapply wrote_app; [exact W19|].
  exact W20.
Qed.

End Sections.

Lemma results_block_split c nos hkl cell cif rd rline bl be w npd :
  c +:+ results_block nos hkl cell cif rd rline bl be w npd
  = (c +:+ ("NoSpherA2_Dict:" +:+ nl) +:+ nos
       +:+ (nl +:+ "Stats-GetHklStat:" +:+ nl) +:+ hkl
       +:+ (nl +:+ "Cell-Stats:" +:+ nl) +:+ cell
       +:+ (nl +:+ "CIF-stats:" +:+ nl) +:+ cif
       +:+ (nl +:+ "refine_dict:" +:+ nl) +:+ rd +:+ rline)
    +:+ (nl +:+ "bondlengths:" +:+ nl) +:+ bl
    +:+ (nl +:+ "bonderrors:" +:+ nl) +:+ be
    +:+ ((nl +:+ "Weight:" +:+ w) +:+ (nl +:+ "Nr. NPD:" +:+ npd)
         +:+ (nl +:+ BenchJob.separator +:+ nl)).
Proof. unfold results_block. by rewrite !string_app_assoc. Qed.

Lemma one_bond_items :
  items Float.repr [("O1-H1", Scenario.num "0.98")] = "O1-H1:0.98,"
  ∧ items Float.repr
      (bond_errors [("O1-H1", Scenario.num "0.98")]
                   [("O1-H1", Scenario.num "0.01")])
    = "O1-H1:0.01,".
Proof. by vm_compute. Qed.

(** C9. When [extract_info] returns, the results file has grown by one
    block with the sections in the order NoSpherA2_Dict, Stats-GetHklStat,
    Cell-Stats, CIF-stats, refine_dict, the line of the R factors, the
    cycles and the time, bondlengths, bonderrors, the weighting flag, the
    count of NPD atoms and the separator; the entries of each section
    are those of the dictionary it is written from. For the one bond
    O1-H1 with distance 0.98 and uncertainty 0.01 the section
    bondlengths holds [O1-H1:0.98,] and the section bonderrors, after
    it, [O1-H1:0.01,]. *)
Theorem results_file_sections (env : Env)
    (s s' : Frame BenchJob.t BenchJob.locals) :
  BenchJob.extract_info env s = (s', Ok tt) →
  (∃ (vals : list pyval) (weight npd : pyval),
     length vals = length BenchJob.refine_keys
     ∧ FS.content (fs (world s')) (BenchJob.results_path (self s))
       = FS.content (fs (world s)) (BenchJob.results_path (self s))
         +:+ results_block
               (nos_section (self s))
               (items py_str (BenchJob.hkl_stats (locals s')))
               (items py_str (BenchJob.cell_stats (locals s')))
               (items BenchJob.cif_str
                  (default [] (BenchJob.cif_stats (locals s'))))
               (items py_str (zip BenchJob.refine_keys vals))
               (rfactor_line (self s) (locals s'))
               (items Float.repr (BenchJob.dist_stats (locals s')))
               (items Float.repr
                  (bond_errors (BenchJob.dist_stats (locals s'))
                               (BenchJob.dist_errs (locals s'))))
               (py_str weight) (py_str npd))
  ∧ (BenchJob.dist_stats (locals s') = [("O1-H1", Scenario.num "0.98")] →
     BenchJob.dist_errs (locals s') = [("O1-H1", Scenario.num "0.01")] →
     ∃ before after,
       FS.content (fs (world s')) (BenchJob.results_path (self s))
       = before
         +:+ (nl +:+ "bondlengths:" +:+ nl) +:+ "O1-H1:0.98,"
         +:+ (nl +:+ "bonderrors:" +:+ nl) +:+ "O1-H1:0.01,"
         +:+ after).
Proof.
  intros H. unfold BenchJob.extract_info in H.
  apply bind_ok in H as (s1 & [] & H1 & H).
  apply bind_ok in H as (s2 & [] & H2 & H).
  apply bind_ok in H as (s3 & [] & H3 & H).
  apply bind_ok in H as (s4 & [] & H4 & H).
  apply bind_ok in H as (s5 & [] & H5 & H).
  pose proof (quiet_wrote (BenchJob.cell_block env) s
                ltac:(steps_tac) ltac:(steps_tac)) as W1.
  pose proof (quiet_wrote (BenchJob.hkl_block env) s1
                ltac:(steps_tac) ltac:(steps_tac)) as W2.
  pose proof (quiet_wrote (BenchJob.cif_block env) s2
                ltac:(steps_tac) ltac:(steps_tac)) as W3.
  pose proof (quiet_wrote BenchJob.set_defaults s3
                ltac:(steps_tac) ltac:(steps_tac)) as W4.
  pose proof (quiet_wrote (BenchJob.propagation env) s4
                ltac:(steps_tac) ltac:(steps_tac)) as W5.
  rewrite H1 in W1. rewrite H2 in W2. rewrite H3 in W3. rewrite H4 in W4.
  rewrite H5 in W5.
  pose proof (wrote_skip _ _ _ _ W1
                (wrote_skip _ _ _ _ W2
                   (wrote_skip _ _ _ _ W3 (wrote_skip _ _ _ _ W4 W5))))
    as [Hself _].
  assert (locals s5 = locals s') as Hlocals.
  { symmetry. eapply locals_kept; [|exact H]. steps_tac. }
  destruct (write_results_wrote env s5 s' H) as (vals & weight & npd & Hlen & W).
  pose proof (wrote_skip _ _ _ _ W1
                (wrote_skip _ _ _ _ W2
                   (wrote_skip _ _ _ _ W3
                      (wrote_skip _ _ _ _ W4 (wrote_skip _ _ _ _ W5 W)))))
    as [_ Hc].
  simpl in Hself. rewrite Hself, Hlocals in Hc.
  split; [by exists vals, weight, npd|].
  intros Hd He. rewrite Hc, Hd, He, results_block_split.
  destruct one_bond_items as [-> ->]. eauto.
Qed.

(** A sound run of the engine on the structure with the one bond
    O1-H1: the two entries are in the results file, in their order. *)
Lemma results_file_witness :
  ∃ before after,
    FS.content
      (fs (world (BenchJob.extract_info (Scenario.sound "n/a")
                    (Scenario.at_work BenchJob.no_locals)).1))
      (BenchJob.results_path Scenario.job)
    = before
      +:+ (nl +:+ "bondlengths:" +:+ nl) +:+ "O1-H1:0.98,"
      +:+ (nl +:+ "bonderrors:" +:+ nl) +:+ "O1-H1:0.01,"
      +:+ after.
Proof.
  refine (proj2 (results_file_sections (Scenario.sound "n/a")
                   (Scenario.at_work BenchJob.no_locals)
                   (BenchJob.extract_info (Scenario.sound "n/a")
                      (Scenario.at_work BenchJob.no_locals)).1 _) _ _);
    vm_compute; reflexivity.
Defined.


(* ===================================================================== *)
(** * The input files of a job (C6) *)
(* ===================================================================== *)

(** Two reflection files in the data directory: the constructor
    returns the job, no exception is raised. *)
Lemma two_reflection_files_accepted :
  length (FS.glob Scenario.disk_two_hkl (FS.dirname Scenario.base) ".hkl")
  = 2%nat
  ∧ (BenchJob.__init__ Scenario.base 0 (PyBool false) None
       (Scenario.stage Scenario.disk_two_hkl 0)).2
    = Ok Scenario.job.
Proof. by vm_compute. Qed.

Lemma make_fresh_self {L} (s : Frame BenchJob.t L) :
  self (BenchJob.make_fresh s).1 = self s.
Proof.
  assert (steps (self (L := L)) any eq BenchJob.make_fresh) as H
    by steps_tac.
  symmetry. apply (H s I).
Qed.

Lemma first_of {A} (x : A) l : py_index (x :: l) 0 = Some x.
Proof. done. Qed.

Section Setup.
Context {L : Type} (s s1 : Frame BenchJob.t L).
Hypothesis Hfresh : BenchJob.make_fresh s = (s1, Ok tt).

Lemma fresh_self : self s1 = self s.
Proof. pose proof (make_fresh_self s) as H. by rewrite Hfresh in H. Qed.

Lemma setup_no_hkl :
  FS.glob (fs (world s1)) (FS.dirname (BenchJob.base_work_path (self s)))
          ".hkl" = [] →
  BenchJob.setup_workspace s = (s1, Raise IndexError).
Proof.
  intros Hglob. unfold BenchJob.setup_workspace, bind. rewrite Hfresh.
  unfold get_self, get_world, index. by rewrite fresh_self, Hglob.
Qed.

Lemma setup_no_ins hkl more f2 :
  FS.glob (fs (world s1)) (FS.dirname (BenchJob.base_work_path (self s)))
          ".hkl" = hkl :: more →
  FS.copy (fs (world s1)) hkl (BenchJob.work_path (self s)) = Ok f2 →
  FS.glob f2 (FS.dirname (BenchJob.base_work_path (self s))) ".ins" = [] →
  (BenchJob.setup_workspace s).2 = Raise IndexError.
Proof.
  intros Hglob Hcopy Hglob'.
  unfold BenchJob.setup_workspace, bind. rewrite Hfresh.
  unfold get_self, get_world, index. rewrite fresh_self, Hglob, first_of.
  unfold from_option at 1, ret, fs_try at 1. rewrite Hcopy.
  cbn [world fs set_fs]. by rewrite Hglob'.
Qed.

Lemma setup_found hkl more f2 ins more' f3 mine more'' :
  FS.glob (fs (world s1)) (FS.dirname (BenchJob.base_work_path (self s)))
          ".hkl" = hkl :: more →
  FS.copy (fs (world s1)) hkl (BenchJob.work_path (self s)) = Ok f2 →
  FS.glob f2 (FS.dirname (BenchJob.base_work_path (self s))) ".ins"
  = ins :: more' →
  FS.copy f2 ins (BenchJob.work_path (self s)) = Ok f3 →
  FS.glob f3 (BenchJob.work_path (self s)) ".ins" = mine :: more'' →
  (BenchJob.setup_workspace s).2 = Ok tt
  ∧ fs (world (BenchJob.setup_workspace s).1) = f3
  ∧ self (BenchJob.setup_workspace s).1 = BenchJob.set_ins_file mine (self s).
Proof.
  intros Hglob Hcopy Hglob' Hcopy' Hmine.
  assert (BenchJob.setup_workspace s
          = (MkFrame (set_fs (λ _, f3) (set_fs (λ _, f2) (world s1)))
                     (BenchJob.set_ins_file mine (self s1)) (locals s1),
             Ok tt)) as ->; [|by rewrite fresh_self].
  unfold BenchJob.setup_workspace, bind. rewrite Hfresh.
  unfold get_self, get_world, index. rewrite fresh_self, Hglob, first_of.
  unfold from_option at 1, ret, fs_try at 1. rewrite Hcopy.
  cbn [world fs set_fs]. rewrite Hglob', first_of.
  unfold from_option at 1, ret, fs_try. cbn [world fs set_fs].
  rewrite Hcopy'. cbn [world fs set_fs]. rewrite Hmine, first_of.
  cbn. by rewrite fresh_self.
Qed.
End Setup.

(** The constructor gives what [setup_workspace] leaves of the new
    object, or raises what it raises. *)
Lemma init_unfold {Self L} (c : Frame Self L) base i use params :
  BenchJob.__init__ base i use params c
  = (MkFrame
       (world (BenchJob.setup_workspace (cradle c base i use params)).1)
       (self c) (locals c),
     match (BenchJob.setup_workspace (cradle c base i use params)).2 with
     | Ok _ => Ok (self (BenchJob.setup_workspace
                           (cradle c base i use params)).1)
     | Raise e => Raise e
     end).
Proof.
  unfold BenchJob.__init__, bind, invoke_on, emit, modify_world.
  fold (newborn base i use params). cbn [world self locals].
  fold (cradle c base i use params).
  by destruct (BenchJob.setup_workspace (cradle c base i use params))
    as [s' [[]|e]].
Qed.

(** C6, as the code has it. With the workspace of the new job made
    afresh: if the data directory has no reflection file, or it has one
    and no model file, the lookup raises the index error and the
    constructor ends with it, so that there is no job; if it has one or
    more of each, the first that the lookup lists is copied, of both,
    and the constructor returns the job once the copy of the model is
    found in the workspace. *)
Theorem missing_input_aborts_construction {Self L} (c : Frame Self L)
    (base : path) (i : Z) (use : pyval) (params : option (pydict pyval))
    (s1 : Frame BenchJob.t unit) :
  BenchJob.make_fresh (cradle c base i use params) = (s1, Ok tt) →
  (FS.glob (fs (world s1)) (FS.dirname base) ".hkl" = [] →
   (BenchJob.__init__ base i use params c).2 = Raise IndexError)
  ∧ (∀ hkl more f2,
       FS.glob (fs (world s1)) (FS.dirname base) ".hkl" = hkl :: more →
       FS.copy (fs (world s1)) hkl (BenchJob.job_dir base i) = Ok f2 →
       FS.glob f2 (FS.dirname base) ".ins" = [] →
       (BenchJob.__init__ base i use params c).2 = Raise IndexError)
  ∧ (∀ hkl more f2 ins more' f3 mine more'',
       FS.glob (fs (world s1)) (FS.dirname base) ".hkl" = hkl :: more →
       FS.copy (fs (world s1)) hkl (BenchJob.job_dir base i) = Ok f2 →
       FS.glob f2 (FS.dirname base) ".ins" = ins :: more' →
       FS.copy f2 ins (BenchJob.job_dir base i) = Ok f3 →
       FS.glob f3 (BenchJob.job_dir base i) ".ins" = mine :: more'' →
       (BenchJob.__init__ base i use params c).2
       = Ok (BenchJob.set_ins_file mine (newborn base i use params))
       ∧ fs (world (BenchJob.__init__ base i use params c).1) = f3).
Proof.
  intros Hfresh. rewrite init_unfold. cbn [fst snd world].
  split; [|split].
  - intros Hglob.
    by rewrite (setup_no_hkl _ _ Hfresh Hglob).
  - intros hkl more f2 Hglob Hcopy Hglob'.
    by rewrite (setup_no_ins _ _ Hfresh hkl more f2 Hglob Hcopy Hglob').
  - intros hkl more f2 ins more' f3 mine more'' Hglob Hcopy Hglob' Hcopy'
      Hmine.
    destruct (setup_found _ _ Hfresh hkl more f2 ins more' f3 mine more''
                Hglob Hcopy Hglob' Hcopy' Hmine) as (-> & -> & ->).
    done.
Qed.

(** An empty disk, and the data directory without a model file: the
    constructor raises the index error. *)
Lemma missing_input_witness :
  (BenchJob.__init__ Scenario.base 0 (PyBool false) None
     (Scenario.stage ∅ 0)).2 = Raise IndexError
  ∧ (BenchJob.__init__ Scenario.base 0 (PyBool false) None
       (Scenario.stage Scenario.disk_no_ins 0)).2 = Raise IndexError.
Proof.
  split.
  - refine (proj1 (missing_input_aborts_construction
                     (Scenario.stage ∅ 0) Scenario.base 0 (PyBool false) None
                     (BenchJob.make_fresh
                        (cradle (Scenario.stage ∅ 0) Scenario.base 0
                                (PyBool false) None)).1 _) _);
      vm_compute; reflexivity.
  - refine (proj1 (proj2 (missing_input_aborts_construction
                     (Scenario.stage Scenario.disk_no_ins 0)
                     Scenario.base 0 (PyBool false) None
                     (BenchJob.make_fresh
                        (cradle (Scenario.stage Scenario.disk_no_ins 0)
                                Scenario.base 0 (PyBool false) None)).1 _))
                  ["data"; "x.hkl"] []
                  (<[ ["data"; "bench"; "job_0"; "x.hkl"]
                      := File "reflections" ]>
                     (fs (world (BenchJob.make_fresh
                        (cradle (Scenario.stage Scenario.disk_no_ins 0)
                                Scenario.base 0 (PyBool false) None)).1)))
                  _ _ _);
      vm_compute; reflexivity.
Defined.


(* ===================================================================== *)
(** * The workspace made twice (C7) *)
(* ===================================================================== *)

Lemma lookup_ne (f : gmap path node) (q : path) : q ≠ [] → FS.lookup f q = f !! q.
Proof. by destruct q. Qed.

Lemma ancestors_spec w q :
  q ∈ FS.ancestors w ↔ ∃ n, (1 ≤ n ≤ length w)%nat ∧ q = take n w.
Proof.
  unfold FS.ancestors. rewrite list_elem_of_fmap. split.
  - intros (n & -> & Hn). apply elem_of_seq in Hn. exists n. split; [lia|done].
  - intros (n & Hn & ->). exists n. split; [done|]. apply elem_of_seq. lia.
Qed.

Lemma ancestors_ne w : [] ∉ FS.ancestors w.
Proof.
  intros (n & Hn & H)%ancestors_spec. symmetry in H.
  apply (f_equal length) in H. rewrite length_take in H. simpl in H. lia.
Qed.

Lemma ancestors_self w : w ≠ [] → w ∈ FS.ancestors w.
Proof.
  intros Hw. apply ancestors_spec. exists (length w). split.
  - destruct w; [done|simpl; lia].
  - by rewrite firstn_all.
Qed.

Lemma ancestors_prefix w q : q ∈ FS.ancestors w → q `prefix_of` w.
Proof.
  intros (n & _ & ->)%ancestors_spec. exists (drop n w).
  by rewrite take_drop.
Qed.

Lemma below_not_ancestor w r :
  w `prefix_of` r → r ≠ w → r ∉ FS.ancestors w.
Proof.
  intros Hwr Hne Hr%ancestors_prefix. apply Hne.
  apply prefix_length_eq; [done|]. by apply prefix_length.
Qed.

Lemma mkdir_raise p e qs : foldl (FS.mkdir p) (Raise e) qs = Raise e.
Proof. by induction qs. Qed.

(** What the directories made on the way leave of a file system. *)
Lemma mkdir_fold (p : path) (qs : list path) (f f1 : gmap path node) :
  [] ∉ qs →
  foldl (FS.mkdir p) (Ok f) qs = Ok f1 →
  (∀ q, q ∈ qs → f1 !! q = Some Dir) ∧ (∀ r, r ∉ qs → f1 !! r = f !! r).
Proof.
  revert f. induction qs as [|q qs IH]; intros f Hne H.
  - injection H as <-. split; [|done]. by intros q ?%elem_of_nil.
  - apply not_elem_of_cons in Hne as [Hq Hne]. simpl in H.
    assert (∃ f2, foldl (FS.mkdir p) (Ok f2) qs = Ok f1
                  ∧ f2 !! q = Some Dir
                  ∧ ∀ r, r ≠ q → f2 !! r = f !! r) as (f2 & H2 & Hq2 & Hr2).
    { revert H.
      destruct (FS.lookup f q) as [[c|]|] eqn:Hfq; intros H;
        rewrite lookup_ne in Hfq by done.
      - by rewrite mkdir_raise in H.
      - by exists f.
      - exists (<[q := Dir]> f). split; [done|].
        split; [by rewrite lookup_insert_eq|].
        intros r Hr. by rewrite lookup_insert_ne. }
    destruct (IH f2 Hne H2) as [Hdirs Hrest]. split.
    + intros q' [Heq|Hq']%elem_of_cons; [subst q'|by apply Hdirs].
      destruct (decide (q ∈ qs)); [by apply Hdirs|]. by rewrite Hrest.
    + intros r [Hrq Hrqs]%not_elem_of_cons. rewrite Hrest by done.
      by apply Hr2.
Qed.

(** Directories that are there or missing can all be made. *)
Lemma mkdir_run (p : path) (qs : list path) (f : gmap path node) :
  [] ∉ qs →
  (∀ q, q ∈ qs → f !! q = None ∨ f !! q = Some Dir) →
  ∃ f1, foldl (FS.mkdir p) (Ok f) qs = Ok f1.
Proof.
  revert f. induction qs as [|q qs IH]; intros f Hne H; [by exists f|].
  apply not_elem_of_cons in Hne as [Hq Hne]. simpl.
  rewrite lookup_ne by done.
  destruct (H q) as [Hl|Hl]; [by left| |]; rewrite Hl.
  - apply IH; [done|]. intros q' Hq'.
    destruct (decide (q' = q)) as [->|]; [right; by rewrite lookup_insert_eq|].
    rewrite lookup_insert_ne by done. apply H. by right.
  - apply IH; [done|]. intros q' Hq'. apply H. by right.
Qed.

(** In a well-formed file system nothing lies below what is missing. *)
Lemma nothing_below (f : gmap path node) (w r : path) :
  well_formed f → w ≠ [] → f !! w = None → w `prefix_of` r → f !! r = None.
Proof.
  intros Hwf Hw Hnone [k ->]. induction k as [|x k IH] using rev_ind.
  - by rewrite app_nil_r.
  - destruct (f !! (w ++ k ++ [x])) eqn:Hl; [|done].
    rewrite app_assoc in Hl.
    assert (FS.lookup f (w ++ k) = Some Dir) as Hdir
      by (apply (Hwf _ x); by rewrite Hl).
    rewrite lookup_ne in Hdir by (by destruct w).
    by rewrite IH in Hdir.
Qed.

Lemma exists_false (f : gmap path node) (w : path) :
  w ≠ [] → FS.exists_ f w = false → f !! w = None.
Proof.
  intros Hw H%bool_decide_eq_false. apply eq_None_not_Some.
  by rewrite <- (lookup_ne f w Hw).
Qed.

Lemma outside_kept (f : gmap path node) (w r : path) :
  ¬ w `prefix_of` r →
  filter (λ kv : path * node, ¬ w `prefix_of` kv.1) f !! r = f !! r.
Proof.
  intros Hr. apply option_eq. intros x. rewrite map_lookup_filter_Some.
  simpl. tauto.
Qed.

Lemma inside_gone (f : gmap path node) (w r : path) :
  w `prefix_of` r →
  filter (λ kv : path * node, ¬ w `prefix_of` kv.1) f !! r = None.
Proof.
  intros Hr. apply map_lookup_filter_None_2. right. intros x _ HP.
  by apply HP.
Qed.

(** [rmtree] succeeds on a directory, with what is outside of it. *)
Lemma rmtree_dir (f : gmap path node) (w : path) :
  w ≠ [] → f !! w = Some Dir →
  FS.rmtree f w = Ok (filter (λ kv : path * node, ¬ w `prefix_of` kv.1) f).
Proof. intros Hw Hd. unfold FS.rmtree. by rewrite lookup_ne, Hd. Qed.

Lemma rmtree_ok (f g : gmap path node) (w : path) :
  FS.rmtree f w = Ok g →
  g = filter (λ kv : path * node, ¬ w `prefix_of` kv.1) f.
Proof.
  unfold FS.rmtree. destruct (FS.lookup f w) as [[c|]|]; [done| |done].
  by intros [= <-].
Qed.

(** [make_fresh] leaves a fresh workspace. *)
Lemma make_fresh_fresh {L} (s s1 : Frame BenchJob.t L) :
  well_formed (fs (world s)) →
  BenchJob.work_path (self s) ≠ [] →
  BenchJob.make_fresh s = (s1, Ok tt) →
  fresh_at (fs (world s1)) (BenchJob.work_path (self s)).
Proof.
  intros Hwf Hw H. unfold BenchJob.make_fresh, bind, get_self, get_world in H.
  assert (∃ g, FS.makedirs g (BenchJob.work_path (self s))
               = Ok (fs (world s1))
               ∧ ∀ r, BenchJob.work_path (self s) `prefix_of` r →
                      g !! r = None) as (g & Hmk & Hg).
  { destruct (FS.exists_ (fs (world s)) (BenchJob.work_path (self s)))
      eqn:Hex; simpl in H; unfold fs_try in H.
    - destruct (FS.rmtree (fs (world s)) (BenchJob.work_path (self s)))
        as [g|e] eqn:Hrm; [|done].
      apply rmtree_ok in Hrm. simpl in H.
      destruct (FS.makedirs g (BenchJob.work_path (self s)))
        as [f1|e] eqn:Hmk; [|done].
      injection H as <-. exists g. split; [done|].
      intros r Hr. subst g. by apply inside_gone.
    - destruct (FS.makedirs (fs (world s)) (BenchJob.work_path (self s)))
        as [f1|e] eqn:Hmk; [|done].
      injection H as <-. exists (fs (world s)). split; [done|].
      intros r Hr. eapply nothing_below; eauto using exists_false. }
  unfold FS.makedirs in Hmk.
  destruct (FS.exists_ g (BenchJob.work_path (self s))); [done|].
  apply mkdir_fold in Hmk as [Hdirs Hrest]; [|apply ancestors_ne].
  split; [done|]. intros r Hr Hne.
  rewrite Hrest by (by apply below_not_ancestor). by apply Hg.
Qed.

(** A workspace that was fresh, and has been filled since, is made
    fresh again as it was. *)
Lemma makedirs_again (f f1 : gmap path node) (w : path) :
  w ≠ [] →
  fresh_at f1 w →
  (∀ r, ¬ w `prefix_of` r → f !! r = f1 !! r) →
  FS.makedirs (filter (λ kv : path * node, ¬ w `prefix_of` kv.1) f) w
  = Ok f1.
Proof.
  intros Hw [Hdirs Hbelow] Hout. unfold FS.makedirs.
  set (g := filter _ f).
  assert (FS.exists_ g w = false) as ->.
  { apply bool_decide_eq_false. rewrite lookup_ne by done.
    unfold g. rewrite inside_gone by done. apply is_Some_None. }
  destruct (mkdir_run w (FS.ancestors w) g) as [f1' Hrun].
  { apply ancestors_ne. }
  { intros q Hq. destruct (decide (w `prefix_of` q)) as [Hwq|Hwq].
    - left. by apply inside_gone.
    - right. unfold g. rewrite outside_kept, Hout by done. by apply Hdirs. }
  rewrite Hrun. f_equal. apply map_eq. intros r.
  apply mkdir_fold in Hrun as [Hdirs' Hrest']; [|apply ancestors_ne].
  destruct (decide (r ∈ FS.ancestors w)) as [Hr|Hr].
  { by rewrite Hdirs', Hdirs. }
  rewrite Hrest' by done.
  destruct (decide (w `prefix_of` r)) as [Hwr|Hwr].
  - unfold g. rewrite inside_gone by done. symmetry. apply Hbelow; [done|].
    intros ->. by apply Hr, ancestors_self.
  - unfold g. rewrite outside_kept by done. by apply Hout.
Qed.

Lemma make_fresh_again {L} (s : Frame BenchJob.t L) (f1 : gmap path node) :
  BenchJob.work_path (self s) ≠ [] →
  fresh_at f1 (BenchJob.work_path (self s)) →
  fs (world s) !! BenchJob.work_path (self s) = Some Dir →
  (∀ r, ¬ BenchJob.work_path (self s) `prefix_of` r →
        fs (world s) !! r = f1 !! r) →
  ∃ s1, BenchJob.make_fresh s = (s1, Ok tt) ∧ fs (world s1) = f1
        ∧ self s1 = self s.
Proof.
  intros Hw Hfresh Hdir Hout.
  unfold BenchJob.make_fresh, bind, get_self, get_world.
  assert (FS.exists_ (fs (world s)) (BenchJob.work_path (self s)) = true)
    as ->.
  { apply bool_decide_eq_true. rewrite lookup_ne, Hdir by done. eauto. }
  simpl. unfold fs_try. rewrite (rmtree_dir _ _ Hw Hdir). simpl.
  rewrite (makedirs_again _ f1 _ Hw Hfresh Hout). eauto.
Qed.

(** What a successful copy into a directory does. *)
Lemma copy_into (f f2 : gmap path node) (src w : path) :
  w ≠ [] → f !! w = Some Dir →
  FS.copy f src w = Ok f2 →
  ∃ c, FS.lookup f src = Some (File c)
       ∧ f2 = <[w ++ [FS.basename src] := File c]> f.
Proof.
  intros Hw Hdir. unfold FS.copy.
  destruct (FS.lookup f src) as [[c|]|]; [|done..].
  assert (FS.isdir f w = true) as ->.
  { apply bool_decide_eq_true. by rewrite lookup_ne. }
  destruct (bool_decide _); [done|]. intros [= <-]. eauto.
Qed.

(** What the lookup of the files of a directory lists. *)
Lemma glob_spec (f : gmap path node) (d p : path) ext :
  p ∈ FS.glob f d ext →
  FS.dirname p = d ∧ FS.matches ext (FS.basename p) = true.
Proof.
  unfold FS.glob, FS.listdir. intros ([p' x] & -> & H)%list_elem_of_fmap.
  apply list_elem_of_filter in H as [Hm H].
  destruct (FS.isdir f d); [|by apply elem_of_nil in H].
  apply list_elem_of_filter in H as [[Hd _] _]. done.
Qed.

Lemma index_first {S A} (l : list A) (s s' : S) x :
  index l 0 s = (s', Ok x) → s' = s ∧ ∃ more, l = x :: more.
Proof.
  unfold index. destruct l as [|y l]; [done|]. intros [= <- <-]. eauto.
Qed.

Lemma fs_try_ok {Self L} op (s s' : Frame Self L) :
  fs_try op s = (s', Ok tt) →
  ∃ f, op (fs (world s)) = Ok f
       ∧ s' = MkFrame (set_fs (λ _, f) (world s)) (self s) (locals s).
Proof.
  unfold fs_try. destruct (op _) as [f|e]; [|done]. intros [= <-]. eauto.
Qed.

(** A call of [setup_workspace] that returns, step by step. *)
Lemma setup_inv {L} (s s' : Frame BenchJob.t L) :
  BenchJob.setup_workspace s = (s', Ok tt) →
  ∃ s1 hkl more f2 ins more' f3 mine more'',
    BenchJob.make_fresh s = (s1, Ok tt)
    ∧ FS.glob (fs (world s1)) (FS.dirname (BenchJob.base_work_path (self s)))
              ".hkl" = hkl :: more
    ∧ FS.copy (fs (world s1)) hkl (BenchJob.work_path (self s)) = Ok f2
    ∧ FS.glob f2 (FS.dirname (BenchJob.base_work_path (self s))) ".ins"
      = ins :: more'
    ∧ FS.copy f2 ins (BenchJob.work_path (self s)) = Ok f3
    ∧ FS.glob f3 (BenchJob.work_path (self s)) ".ins" = mine :: more''.
Proof.
  intros H. unfold BenchJob.setup_workspace in H.
  apply bind_ok in H as (s1 & [] & Hfresh & H).
  pose proof (fresh_self _ _ Hfresh) as Hself.
  apply bind_ok in H as (? & me & [= <- <-] & H).
  apply bind_ok in H as (? & w1 & [= <- <-] & H).
  apply bind_ok in H as (? & hkl & [-> [more Hglob]]%index_first & H).
  apply bind_ok in H as (s2 & [] & (f2 & Hcopy & ->)%fs_try_ok & H).
  apply bind_ok in H as (? & w2 & [= <- <-] & H).
  apply bind_ok in H as (? & ins & [-> [more' Hglob']]%index_first & H).
  apply bind_ok in H as (s3 & [] & (f3 & Hcopy' & ->)%fs_try_ok & H).
  apply bind_ok in H as (? & w3 & [= <- <-] & H).
  apply bind_ok in H as (? & mine & [-> [more'' Hmine]]%index_first & H).
  rewrite Hself in *. simpl in *.
  by exists s1, hkl, more, f2, ins, more', f3, mine, more''.
Qed.

Lemma below_fresh (f1 : gmap path node) (w : path) :
  fresh_at f1 w → below f1 w = ∅.
Proof.
  intros [_ Hbelow]. apply map_empty. intros r.
  apply map_lookup_filter_None_2.
  destruct (f1 !! r) as [x|] eqn:Hr; [|by left]. right.
  intros x' _ [Hpre Hne]. simpl in *. by rewrite Hbelow in Hr.
Qed.

Lemma below_insert (f : gmap path node) (w : path) name x :
  below (<[w ++ [name] := x]> f) w = <[w ++ [name] := x]> (below f w).
Proof.
  unfold below. apply map_filter_insert_True. simpl. split.
  - by exists [name].
  - intros H. apply (f_equal length) in H. rewrite length_app in H.
    simpl in H. lia.
Qed.

Lemma not_inside (w r : path) name :
  ¬ w `prefix_of` r → r ≠ w ++ [name].
Proof. intros H ->. apply H. by exists [name]. Qed.

Lemma dirname_length (p : path) : (length (FS.dirname p) ≤ length p)%nat.
Proof.
  unfold FS.dirname. rewrite removelast_firstn_len, length_take. lia.
Qed.

(** A file of the data directory is not in the workspace of a job. *)
Lemma data_outside (base p : path) (i : Z) name :
  FS.dirname p = FS.dirname base → p ≠ BenchJob.job_dir base i ++ [name].
Proof.
  intros H ->. unfold FS.dirname in H. rewrite removelast_last in H.
  apply (f_equal length) in H. unfold BenchJob.job_dir in H.
  rewrite length_app in H. pose proof (dirname_length base) as Hl.
  unfold FS.dirname in Hl. simpl in H. lia.
Qed.

Lemma ext_distinct name :
  FS.matches ".hkl" name = true → FS.matches ".ins" name = true → False.
Proof.
  unfold FS.matches, PyStr.endswith.
  intros [H1 _]%andb_true_iff [H2 _]%andb_true_iff. revert H1 H2.
  destruct (reverse (explode name)) as [|a r]; [done|].
  change (reverse (explode ".hkl")) with (explode "lkh.").
  change (reverse (explode ".ins")) with (explode "sni.").
  cbn [PyStr.is_prefix explode Strings.String.list_ascii_of_string].
  intros [H1 _]%andb_true_iff [H2 _]%andb_true_iff.
  apply Ascii.eqb_eq in H1, H2. by subst a.
Qed.

Lemma well_formedb_ok (f : gmap path node) :
  well_formedb f = true → well_formed f.
Proof.
  intros H p x [v Hv]. unfold well_formedb in H.
  rewrite forallb_forall in H.
  specialize (H (p ++ [x], v)). simpl in H.
  unfold FS.dirname in H. rewrite removelast_last in H.
  eapply bool_decide_eq_true_1, H, list_elem_of_In.
  by apply elem_of_map_to_list.
Qed.

(** C7. On a well-formed file system, when [setup_workspace] returns,
    what lies in the directory of the job is exactly two files, whatever
    the directory held before: the copy of a reflection file and the
    copy of a model file of the data directory, under their names and
    with their contents. A second call returns too, and leaves the file
    system and the job as the first call left them. *)
Theorem workspace_made_twice {L} (s s' : Frame BenchJob.t L) :
  well_formed (fs (world s)) →
  BenchJob.work_path (self s)
  = BenchJob.job_dir (BenchJob.base_work_path (self s)) (BenchJob.id (self s)) →
  BenchJob.setup_workspace s = (s', Ok tt) →
  (∃ hkl ins ch ci,
     FS.dirname hkl = FS.dirname (BenchJob.base_work_path (self s))
     ∧ FS.matches ".hkl" (FS.basename hkl) = true
     ∧ FS.dirname ins = FS.dirname (BenchJob.base_work_path (self s))
     ∧ FS.matches ".ins" (FS.basename ins) = true
     ∧ FS.basename hkl ≠ FS.basename ins
     ∧ fs (world s') !! hkl = Some (File ch)
     ∧ fs (world s') !! ins = Some (File ci)
     ∧ below (fs (world s')) (BenchJob.work_path (self s))
       = <[BenchJob.work_path (self s) ++ [FS.basename ins] := File ci]>
           (<[BenchJob.work_path (self s) ++ [FS.basename hkl] := File ch]>
              ∅))
  ∧ (BenchJob.setup_workspace s').2 = Ok tt
  ∧ fs (world (BenchJob.setup_workspace s').1) = fs (world s')
  ∧ self (BenchJob.setup_workspace s').1 = self s'.
Proof.
  intros Hwf Hpath Hrun.
  destruct (setup_inv s s' Hrun)
    as (s1 & hkl & more & f2 & ins & more' & f3 & mine & more''
        & Hfresh & Hglob & Hcopy & Hglob' & Hcopy' & Hmine).
  destruct (setup_found s s1 Hfresh hkl more f2 ins more' f3 mine more''
              Hglob Hcopy Hglob' Hcopy' Hmine) as (_ & Hfs & Hself).
  rewrite Hrun in Hfs, Hself. simpl in Hfs, Hself.
  set (w := BenchJob.work_path (self s)) in *.
  set (base := BenchJob.base_work_path (self s)) in *.
  assert (w ≠ []) as Hw by (rewrite Hpath; by destruct base).
  pose proof (make_fresh_fresh s s1 Hwf Hw Hfresh) as Hf1.
  fold w in Hf1. set (f1 := fs (world s1)) in *.
  assert (f1 !! w = Some Dir) as Hdir by (by apply Hf1, ancestors_self).
  destruct (copy_into f1 f2 hkl w Hw Hdir Hcopy) as (ch & Hch & ->).
  assert (<[w ++ [FS.basename hkl] := File ch]> f1 !! w = Some Dir) as Hdir2.
  { rewrite lookup_insert_ne; [done|].
    intros H. apply (f_equal length) in H. rewrite length_app in H.
    simpl in H. lia. }
  destruct (copy_into _ f3 ins w Hw Hdir2 Hcopy') as (ci & Hci & Hf3).
  assert (hkl ∈ FS.glob f1 (FS.dirname base) ".hkl") as [Hd1 Hm1]%glob_spec
    by (rewrite Hglob; apply list_elem_of_here).
  assert (ins ∈ FS.glob (<[w ++ [FS.basename hkl] := File ch]> f1)
                        (FS.dirname base) ".ins") as [Hd2 Hm2]%glob_spec
    by (rewrite Hglob'; apply list_elem_of_here).
  assert (FS.basename hkl ≠ FS.basename ins) as Hnames.
  { intros Heq. rewrite Heq in Hm1. by destruct (ext_distinct _ Hm1 Hm2). }
  assert (hkl ≠ []) as Hhkl by (intros ->; done).
  assert (ins ≠ []) as Hins by (intros ->; done).
  rewrite lookup_ne in Hch, Hci by done.
  assert (∀ r, ¬ w `prefix_of` r → f3 !! r = f1 !! r) as Hout.
  { intros r Hr. rewrite Hf3.
    by rewrite !lookup_insert_ne by (symmetry; by apply not_inside). }
  assert (f3 !! w = Some Dir) as Hdir3.
  { rewrite Hf3. rewrite lookup_insert_ne; [done|].
    intros H. apply (f_equal length) in H. rewrite length_app in H.
    simpl in H. lia. }
  split.
  { exists hkl, ins, ch, ci. rewrite Hfs. repeat (split; [done|]).
    split; [|split].
    - rewrite Hf3, Hpath.
      rewrite !lookup_insert_ne by (symmetry; by apply data_outside).
      done.
    - rewrite Hf3, Hpath.
      rewrite lookup_insert_ne by (symmetry; by apply data_outside).
      by rewrite <- Hpath.
    - rewrite Hf3. by rewrite !below_insert, (below_fresh _ _ Hf1). }
  assert (BenchJob.work_path (self s') = w) as Hw' by (by rewrite Hself).
  assert (BenchJob.base_work_path (self s') = base) as Hb'
    by (by rewrite Hself).
  destruct (make_fresh_again s' f1) as (s1' & Hfresh' & Hfs1' & Hself1').
  { by rewrite Hw'. } { by rewrite Hw'. } { by rewrite Hw', Hfs. }
  { rewrite Hw', Hfs. exact Hout. }
  destruct (setup_found s' s1' Hfresh' hkl more
              (<[w ++ [FS.basename hkl] := File ch]> f1)
              ins more' f3 mine more'') as (Hr & Hfs' & Hself').
  { by rewrite Hfs1', Hb'. } { by rewrite Hfs1', Hw'. }
  { by rewrite Hb'. } { by rewrite Hw'. } { by rewrite Hw'. }
  split; [done|]. split; [by rewrite Hfs', Hfs|].
  rewrite Hself'. by rewrite Hself.
Qed.

(** The directory of job 0 holds the leftovers of an earlier run: a
    second call after the first changes nothing. *)
Lemma workspace_made_twice_witness :
  (BenchJob.setup_workspace Scenario.reused).2 = Ok tt
  ∧ fs (world (BenchJob.setup_workspace Scenario.reused).1)
    = fs (world Scenario.reused)
  ∧ self (BenchJob.setup_workspace Scenario.reused).1 = self Scenario.reused.
Proof.
  refine (proj2 (workspace_made_twice Scenario.used Scenario.reused _ _ _)).
  - apply well_formedb_ok. vm_compute. reflexivity.
  - vm_compute. reflexivity.
  - vm_compute. reflexivity.
Defined.


(* ===================================================================== *)
(** * Finished jobs are skipped (C8) *)
(* ===================================================================== *)

Lemma trace_kept {Self L A} (m : M (Frame Self L) A) :
  (∀ s, trace (world (m s).1) = trace (world s)) →
  steps (λ s : Frame Self L, trace (world s)) any eq m.
Proof. intros H s _. by rewrite H. Qed.

Lemma trace_fs_try {Self L} op :
  steps (λ s : Frame Self L, trace (world s)) any eq (fs_try op).
Proof.
  apply trace_kept. intros s. unfold fs_try.
  by destruct (op (fs (world s))).
Qed.

(** [setup_workspace] calls nothing of the host. *)
Lemma setup_workspace_trace {L} (s : Frame BenchJob.t L) :
  trace (world (BenchJob.setup_workspace s).1) = trace (world s).
Proof.
  assert (steps (λ s : Frame BenchJob.t L, trace (world s)) any eq
                BenchJob.setup_workspace) as H.
  { steps_with
      ltac:(idtac; lazymatch goal with
            | |- steps _ _ _ (fs_try _) => apply trace_fs_try
            | |- steps _ _ _ get_self => by apply trace_kept
            | |- steps _ _ _ get_world => by apply trace_kept
            | |- steps _ _ _ (modify_self _) => by apply trace_kept
            end). }
  symmetry. apply (H s I).
Qed.

(** The construction of a job: its mark in the trace, its index. *)
Lemma new_job_spec {L} i job (s s' : Frame SISYPHOS.t L) r :
  SISYPHOS.new_job i job s = (s', r) →
  trace (world s') = trace (world s) ++ [EvNew i]
  ∧ locals s' = locals s
  ∧ ∀ j, r = Ok j → BenchJob.id j = i.
Proof.
  unfold SISYPHOS.new_job, bind, get_self.
  destruct (Dict.has "IAM" _); rewrite init_unfold; intros [= <- <-];
    (split; [simpl; by rewrite setup_workspace_trace|]); (split; [done|]);
    intros j Hj;
    match goal with
    | _ : context [BenchJob.setup_workspace ?c] |- _ =>
        pose proof (setup_workspace_same_job c I) as (_ & Hid & _);
        destruct (BenchJob.setup_workspace c) as [s1 [[]|e]]; [|done]
    end;
    injection Hj as <-; exact Hid.
Qed.

Section Init.
Context (env : Env).

(** One turn of the loop: the test raised or the construction failed,
    the job was skipped, or it was made and appended. *)
Lemma batch_step_spec c (s : Frame SISYPHOS.t (list BenchJob.t)) :
  match SISYPHOS.batch_step env c s with
  | (s', Raise e) =>
      trace (world s') = trace (world s)
      ∨ trace (world s')
        = trace (world s) ++ [EvFinished c.1 false; EvNew c.1]
  | (s', Ok _) =>
      (trace (world s')
       = trace (world s)
         ++ [EvFinished c.1 true; EvPrint (SISYPHOS.skip_message c.1)]
       ∧ locals s' = locals s)
      ∨ (∃ j, trace (world s')
              = trace (world s) ++ [EvFinished c.1 false; EvNew c.1]
              ∧ locals s' = locals s ++ [j]
              ∧ BenchJob.id j = c.1)
  end.
Proof.
  unfold SISYPHOS.batch_step, bind at 1, SISYPHOS.is_finished.
  destruct (env_finished env (world s) c.1) as [[|]|e]; [| |by left].
  - left. simpl. by rewrite <- app_assoc.
  - unfold bind.
    match goal with
    | |- context [SISYPHOS.new_job ?i ?job ?s1] =>
        destruct (SISYPHOS.new_job i job s1) as [s2 r] eqn:Hnew
    end.
    apply new_job_spec in Hnew as (Ht & Hl & Hid). simpl in Ht, Hl.
    rewrite <- app_assoc in Ht. destruct r as [j|e]; [|by right].
    right. exists j. simpl. rewrite Hl. auto.
Qed.

Lemma loop_checked cs (s : Frame SISYPHOS.t (list BenchJob.t)) :
  ∃ evs made,
    trace (world (for_each cs (SISYPHOS.batch_step env) s).1)
    = trace (world s) ++ evs
    ∧ checked cs.*1 evs made
    ∧ ((for_each cs (SISYPHOS.batch_step env) s).2 = Ok tt →
       BenchJob.id <$> locals (for_each cs (SISYPHOS.batch_step env) s).1
       = (BenchJob.id <$> locals s) ++ made).
Proof.
  revert s. induction cs as [|c cs IH]; intros s.
  { exists [], []. simpl. rewrite !app_nil_r. split; [done|].
    split; [constructor|done]. }
  simpl. unfold bind. pose proof (batch_step_spec c s) as Hstep.
  destruct (SISYPHOS.batch_step env c s) as [s1 [[]|e]].
  - destruct (IH s1) as (evs & made & Ht & Hc & Hl).
    destruct Hstep as [[Ht1 Hl1]|(j & Ht1 & Hl1 & Hid)].
    + eexists _, made. split; [|split].
      * rewrite Ht, Ht1, <- app_assoc. reflexivity.
      * simpl. by constructor.
      * intros Hr. by rewrite (Hl Hr), Hl1.
    + eexists _, (c.1 :: made). split; [|split].
      * rewrite Ht, Ht1, <- app_assoc. reflexivity.
      * simpl. by constructor.
      * intros Hr. rewrite (Hl Hr), Hl1, fmap_app, <- app_assoc. simpl.
        by rewrite Hid.
  - destruct Hstep as [Ht1|Ht1]; simpl.
    + exists [], []. rewrite app_nil_r. split; [done|].
      split; [constructor|done].
    + eexists _, []. split; [exact Ht1|]. split; [constructor|done].
Qed.

Lemma enumerate_indices {A} (l : list A) k :
  (imap (λ i x, (Z.of_nat (k + i), x)) l).*1
  = Z.of_nat <$> seq k (length l).
Proof.
  revert k. induction l as [|x l IH]; intros k; [done|].
  rewrite imap_cons. simpl. rewrite Nat.add_0_r. f_equal.
  rewrite <- IH. f_equal. apply imap_ext. intros i y _. simpl.
  by rewrite Nat.add_succ_r.
Qed.

Lemma enumerate_nodup {A} (l : list A) :
  NoDup (imap (λ i x, (Z.of_nat i, x)) l).*1.
Proof.
  change (NoDup (imap (λ i x, (Z.of_nat (0 + i), x)) l).*1).
  rewrite enumerate_indices.
  apply NoDup_fmap; [apply _|apply NoDup_seq].
Qed.

(** [init_sisy_jobs], in either mode: the tests in the order of their
    indices, no index twice, and the jobs it gives are those made. *)
Lemma init_adds :
  adds (λ r evs, ∃ idxs made,
          NoDup idxs ∧ checked idxs evs made
          ∧ ∀ jobs, r = Ok jobs → BenchJob.id <$> jobs = made)
       (SISYPHOS.init_sisy_jobs env).
Proof.
  intros s.
  destruct (SISYPHOS.init_sisy_jobs env s) as [s' r] eqn:H. simpl.
  revert H.
  unfold SISYPHOS.init_sisy_jobs, bind at 1 2, get_self,
    SISYPHOS.SisyphosBenchmarkFile.
  destruct (env_jobs env (world s) (SISYPHOS.work_path (self s)))
    as [jobs|e].
  2:{ intros [= <- <-]. exists []. rewrite app_nil_r. split; [done|].
      exists [], []. split; [constructor|]. split; [constructor|done]. }
  destruct (negb (SISYPHOS.sisy_job_idx (self s) =? -1)).
  - set (idx := SISYPHOS.sisy_job_idx (self s)).
    unfold bind at 1, SISYPHOS.is_finished.
    destruct (env_finished env (world s) idx) as [[|]|e].
    + intros [= <- <-]. eexists. split; [simpl; by rewrite <- app_assoc|].
      exists [idx], []. split; [apply NoDup_singleton|].
      split; [do 2 constructor|]. by intros jobs' [= <-].
    + unfold bind at 1, index, from_option.
      destruct (py_index jobs idx) as [job|].
      2:{ intros [= <- <-]. eexists. split; [done|]. exists [idx], [].
          split; [apply NoDup_singleton|]. split; [constructor|done]. }
      unfold ret at 1, bind.
      match goal with
      | |- context [SISYPHOS.new_job ?i ?job ?s1] =>
          destruct (SISYPHOS.new_job i job s1) as [s2 r2] eqn:Hnew
      end.
      apply new_job_spec in Hnew as (Ht & _ & Hid). simpl in Ht.
      rewrite <- app_assoc in Ht.
      destruct r2 as [j|e]; intros [= <- <-]; (eexists; split; [exact Ht|]).
      * exists [idx], [idx]. split; [apply NoDup_singleton|].
        split; [do 2 constructor|]. intros jobs' [= <-]. simpl.
        by rewrite (Hid j).
      * exists [idx], []. split; [apply NoDup_singleton|].
        split; [constructor|done].
    + intros [= <- <-]. exists []. rewrite app_nil_r. split; [done|].
      exists [], []. split; [constructor|]. split; [constructor|done].
  - unfold bind at 1, modify_locals. unfold bind, get_locals.
    set (s0 := MkFrame (world s) (self s) []).
    destruct (loop_checked (imap (λ i job, (Z.of_nat i, job)) jobs) s0)
      as (evs & made & Ht & Hc & Hl).
    destruct (for_each _ _ s0) as [s1 [[]|e]]; simpl in *;
      intros [= <- <-]; exists evs; (split; [done|]);
      exists (imap (λ i job, (Z.of_nat i, job)) jobs).*1, made;
      (split; [apply enumerate_nodup|]); (split; [exact Hc|]).
    + intros jobs' [= <-]. by apply Hl.
    + done.
Qed.
End Init.

#[local] Set Warnings "-clear-no-such-hyp".

(** The events of the tests concern the indices tested. *)
Lemma checked_indices idxs evs made :
  checked idxs evs made →
  (∀ j b, EvFinished j b ∈ evs → j ∈ idxs)
  ∧ (∀ j, EvNew j ∈ evs → j ∈ idxs)
  ∧ (∀ j, j ∈ made → j ∈ idxs)
  ∧ (∀ j, EvRun j ∉ evs).
Proof.
  induction 1 as [idxs|i idxs|i idxs|i idxs evs made _ (IH1&IH2&IH3&IH4)
                  |i idxs evs made _ (IH1&IH2&IH3&IH4)];
    repeat split; intros *; unfold not; rewrite ?elem_of_cons, ?elem_of_nil;
    naive_solver.
Qed.

(** A job whose test was answered true is not made. *)
Lemma checked_skip idxs evs made i :
  checked idxs evs made → NoDup idxs →
  EvFinished i true ∈ evs → (EvNew i ∉ evs) ∧ (i ∉ made).
Proof.
  induction 1 as [idxs|j idxs|j idxs|j idxs evs made Hc IH
                  |j idxs evs made Hc IH];
    intros [Hj Hnd]%NoDup_cons || intros _;
    rewrite ?elem_of_cons, ?elem_of_nil, ?not_elem_of_cons;
    try naive_solver;
    destruct (checked_indices _ _ _ Hc) as (H1 & H2 & H3 & _);
    intros [[=]|[[=]|Hin]]; subst; naive_solver.
Qed.

(** A job is made right after its test was answered false. *)
Lemma checked_before idxs evs made pre post j :
  checked idxs evs made →
  evs = pre ++ EvNew j :: post →
  ∃ pre', pre = pre' ++ [EvFinished j false].
Proof.
  intros Hc. revert pre.
  induction Hc as [idxs|i idxs|i idxs|i idxs evs made Hc IH
                   |i idxs evs made Hc IH];
    intros [|e1 [|e2 pre]] [=]; subst;
    try (by destruct pre);
    try (by exists []);
    destruct (IH pre eq_refl) as [pre' ->];
    by eexists (_ :: _ :: pre').
Qed.

(** The run of a job: its mark, then calls of the host and printed
    lines. *)
Lemma steps_known_id {L A} i P touch
    (k : BenchJob.t → M (Frame BenchJob.t L) A) :
  (∀ me, BenchJob.id me = i →
         steps obs (λ o, BenchJob.id o.2 = i) (effects P touch) (k me)) →
  steps obs (λ o, BenchJob.id o.2 = i) (effects P touch) (bind get_self k).
Proof. intros H s Hs. exact (H (self s) Hs s Hs). Qed.

Lemma job_run_events (env : Env) {L} i :
  steps (obs (L := L)) (λ o, BenchJob.id o.2 = i)
        (effects (λ e, is_io e ∨ e = EvRun i) any) (BenchJob.run env).
Proof.
  steps_with
    ltac:(idtac; lazymatch goal with
          | |- steps obs _ _ (bind get_self (λ me, modify_world _)) =>
              apply steps_read_self; intros s _;
              by apply (effects_file _ _ "done" (File "") s)
          | |- steps obs _ _ (bind get_self (λ me, bind (emit _) _)) =>
              apply steps_known_id; intros me Hme
          | |- steps obs _ _ (emit (EvRun _)) =>
              apply steps_emit; right; congruence
          end).
Qed.

(** ** The events of [SISYPHOS.run] *)

Section Adds.
Context {Self L : Type} (P : event → Prop).
Local Abbreviation all := (λ (_ : result _) evs, Forall P evs).

Lemma adds_quiet {A} (m : M (Frame Self L) A) :
  (∀ s, world (m s).1 = world s) → adds all m.
Proof.
  intros H s. exists []. rewrite H, app_nil_r. by split.
Qed.

Lemma adds_ask {A} (answer : World → string → list pyval → result A)
    fn args :
  P (EvCall fn args) → adds (Self := Self) (L := L) all (ask answer fn args).
Proof. intros HP s. exists [EvCall fn args]. split; [done|]. by constructor. Qed.

Lemma adds_bind {A B} (m : M (Frame Self L) A) (k : A → M (Frame Self L) B) :
  adds all m → (∀ a, adds all (k a)) → adds all (bind m k).
Proof.
  intros Hm Hk s. destruct (Hm s) as (e1 & Ht1 & HP1). unfold bind.
  destruct (m s) as [s1 [a|e]]; simpl in *; [|by exists e1].
  destruct (Hk a s1) as (e2 & Ht2 & HP2). exists (e1 ++ e2). split.
  - by rewrite Ht2, Ht1, <- app_assoc.
  - by apply Forall_app.
Qed.

Lemma adds_for_each {X} (l : list X) (body : X → M (Frame Self L) unit) :
  (∀ x, x ∈ l → adds all (body x)) → adds all (for_each l body).
Proof.
  induction l as [|x l IH]; intros Hb; simpl.
  - by apply adds_quiet.
  - apply adds_bind; [apply Hb; by left|]. intros _. apply IH.
    intros y Hy. apply Hb. by right.
Qed.
End Adds.

Section Run.
Context (env : Env).

(** What comes before the jobs are made only calls the host. *)
Lemma adds_before {A B} (m : M (Frame SISYPHOS.t unit) A)
    (k : A → M (Frame SISYPHOS.t unit) B) :
  adds (λ _ evs, Forall is_io evs) m →
  (∀ a, adds (λ _ evs, orchestrated evs) (k a)) →
  adds (λ _ evs, orchestrated evs) (bind m k).
Proof.
  intros Hm Hk s. destruct (Hm s) as (e1 & Ht1 & HP1). unfold bind.
  destruct (m s) as [s1 [a|e]]; simpl in *.
  - destruct (Hk a s1)
      as (e2 & Ht2 & pre & idxs & tests & made & post & -> & Hpre & Hrest).
    exists (e1 ++ pre ++ tests ++ post). split.
    { by rewrite Ht2, Ht1, <- app_assoc. }
    exists (e1 ++ pre), idxs, tests, made, post.
    split; [by rewrite <- app_assoc|]. split; [by apply Forall_app|done].
  - exists e1. split; [done|]. exists e1, [], [], [], [].
    rewrite !app_nil_r. repeat split; try done; constructor.
Qed.

(** One job of the list is run. *)
Lemma adds_job made (job : BenchJob.t) :
  BenchJob.id job ∈ made →
  adds (Self := SISYPHOS.t) (L := unit) (λ _ evs, Forall (ran made) evs)
    (do _ <- print (SISYPHOS.banner (BenchJob.id job));
     do r <- invoke_on job (BenchJob.run env) tt;
     match r.2 with
     | Ok _ => ret tt
     | Raise e => raise e
     end).
Proof.
  intros Hin s. unfold bind, print, emit, modify_world, invoke_on.
  set (s1 := MkFrame _ job tt).
  destruct (job_run_events env (BenchJob.id job) s1 eq_refl)
    as (_ & (new & Hnew & HP) & _).
  destruct (BenchJob.run env s1) as [s2 r]. simpl in *.
  exists (EvPrint (SISYPHOS.banner (BenchJob.id job)) :: new). split.
  - destruct r; simpl; by rewrite Hnew, <- app_assoc.
  - constructor; [by left|]. eapply Forall_impl; [exact HP|].
    intros e [He| ->]; [by left|]. right. eauto.
Qed.

(** The jobs are tested and made, then those made are run. *)
Lemma adds_jobs :
  adds (Self := SISYPHOS.t) (L := unit) (λ _ evs, orchestrated evs)
    (do job_list <- invoke (SISYPHOS.init_sisy_jobs env) [];
     for_each job_list (λ job,
       do _ <- print (SISYPHOS.banner (BenchJob.id job));
       do r <- invoke_on job (BenchJob.run env) tt;
       match r.2 with
       | Ok _ => ret tt
       | Raise e => raise e
       end)).
Proof.
  intros s. unfold bind at 1, invoke.
  set (s0 := MkFrame (world s) (self s) []).
  destruct (init_adds env s0)
    as (tests & Ht & idxs & made & Hnd & Hc & Hjobs).
  destruct (SISYPHOS.init_sisy_jobs env s0) as [s1 [jobs|e]]; simpl in *.
  - specialize (Hjobs jobs eq_refl).
    set (s1' := MkFrame (world s1) (self s1) (locals s)).
    destruct (adds_for_each (ran made) jobs _
                (λ job Hjob, adds_job made job
                   ltac:(rewrite <- Hjobs; by apply list_elem_of_fmap_2))
                s1') as (post & Ht' & Hpost).
    exists (tests ++ post). split.
    { rewrite Ht'. subst s1'. cbn [world]. by rewrite Ht, <- app_assoc. }
    by exists [], idxs, tests, made, post.
  - exists tests. split; [done|]. exists [], idxs, tests, made, [].
    rewrite app_nil_r. repeat split; try done; constructor.
Qed.

Lemma run_adds : adds (λ _ evs, orchestrated evs) (SISYPHOS.run env).
Proof.
  unfold SISYPHOS.run.
  repeat first
    [ apply adds_jobs
    | apply adds_before
    | apply adds_for_each
    | apply adds_bind
    | by apply adds_ask
    | by apply adds_quiet
    | intros ].
Qed.
End Run.

Lemma not_io_finished i b : ¬ is_io (EvFinished i b).
Proof. by intros []. Qed.

Lemma ran_not_tested made e :
  ran made e → (∀ i b, e ≠ EvFinished i b) ∧ (∀ i, e ≠ EvNew i).
Proof.
  intros [He|(i & _ & ->)]; [|done]. split; intros *; by intros ->.
Qed.

(** C8. In either mode, a job whose finished test is answered true is
    not made by [init_sisy_jobs] and is not among the jobs it gives;
    a job is made only right after its own test was answered false;
    and in the whole of [SISYPHOS.run] such a job is neither made nor
    run. *)
Theorem finished_jobs_skipped (env : Env) (i : Z) :
  (∀ s0 : Frame SISYPHOS.t (list BenchJob.t),
     EvFinished i true ∈ emitted (SISYPHOS.init_sisy_jobs env) s0 →
     (EvNew i ∉ emitted (SISYPHOS.init_sisy_jobs env) s0)
     ∧ ∀ jobs, (SISYPHOS.init_sisy_jobs env s0).2 = Ok jobs →
               i ∉ BenchJob.id <$> jobs)
  ∧ (∀ (s0 : Frame SISYPHOS.t (list BenchJob.t)) pre post,
       emitted (SISYPHOS.init_sisy_jobs env) s0 = pre ++ EvNew i :: post →
       ∃ pre', pre = pre' ++ [EvFinished i false])
  ∧ (∀ s : Frame SISYPHOS.t unit,
       EvFinished i true ∈ emitted (SISYPHOS.run env) s →
       (EvNew i ∉ emitted (SISYPHOS.run env) s)
       ∧ (EvRun i ∉ emitted (SISYPHOS.run env) s)).
Proof.
  split; [|split].
  - intros s0.
    destruct (init_adds env s0)
      as (tests & Ht & idxs & made & Hnd & Hc & Hjobs).
    rewrite (emitted_app _ _ _ Ht). intros Hin.
    destruct (checked_skip _ _ _ _ Hc Hnd Hin) as [Hnew Hmade].
    split; [done|]. intros jobs Hr. by rewrite (Hjobs jobs Hr).
  - intros s0 pre post.
    destruct (init_adds env s0)
      as (tests & Ht & idxs & made & Hnd & Hc & Hjobs).
    rewrite (emitted_app _ _ _ Ht). by apply (checked_before idxs tests made).
  - intros s.
    destruct (run_adds env s)
      as (evs & Ht & pre & idxs & tests & made & post & -> & Hpre & Hnd
          & Hc & Hpost).
    rewrite (emitted_app _ _ _ Ht). rewrite !elem_of_app.
    rewrite Forall_forall in Hpre, Hpost.
    destruct (checked_indices _ _ _ Hc) as (_ & _ & _ & Hrun).
    intros [Hin|[Hin|Hin]].
    + by apply Hpre in Hin.
    + destruct (checked_skip _ _ _ _ Hc Hnd Hin) as [Hnew Hmade].
      split; intros [H|[H|H]]; try done.
      * by apply Hpre in H.
      * apply Hpost, ran_not_tested in H as [_ H]. by apply (H i).
      * by apply Hpre in H.
      * by apply Hrun in H.
      * apply Hpost in H as [H|(j & Hj & [= ->])]; done.
    + apply Hpost, ran_not_tested in Hin as [Hin _]. by destruct (Hin i true).
Qed.

(** Job 0 is marked finished, job 1 is not: in the batch mode job 0 is
    neither made nor run. *)
Lemma finished_jobs_witness :
  (EvNew 0 ∉ emitted (SISYPHOS.run Scenario.resumed)
                     (Scenario.stage Scenario.disk (-1)))
  ∧ (EvRun 0 ∉ emitted (SISYPHOS.run Scenario.resumed)
                       (Scenario.stage Scenario.disk (-1))).
Proof.
  refine (proj2 (proj2 (finished_jobs_skipped Scenario.resumed 0))
            (Scenario.stage Scenario.disk (-1)) _).
  apply (list_elem_of_lookup_2 _ 22). vm_compute. reflexivity.
Defined.


(* ===================================================================== *)
(** * What a job leaves alone *)
(* ===================================================================== *)

Global Instance keeps_preorder {Self X} (f : Self → X) : PreOrder (keeps f).
Proof.
  split.
  - by intros a.
  - intros a b c Hab Hbc. unfold keeps in *. by rewrite Hbc.
Qed.

Global Instance stable_eq {V} (I : V → Prop) : Stable I eq.
Proof. by intros v v' Hv <-. Qed.

(** After [get_self] the object is the one of the state, seen through
    the object. *)
Lemma self_read_self {Self L A} (I : Self → Prop) (Q : relation Self)
    (k : Self → M (Frame Self L) A) :
  (∀ s, I (self s) → Q (self s) (self (k (self s) s).1)) →
  steps self I Q (bind get_self k).
Proof. intros H s Hs. by apply H. Qed.

Section Frames.
Context (env : Env) {L : Type}.

Lemma refine_ins_file :
  steps (self (L := L)) any (keeps BenchJob.ins_file) (BenchJob.refine env).
Proof. steps_tac. Qed.

(** Without NoSpherA2 [refine] assigns nothing. *)
Lemma refine_plain_self :
  steps (self (L := L)) (λ me, truthy (BenchJob.use_nos2 me) = false) eq
        (BenchJob.refine env).
Proof.
  steps_with
    ltac:(idtac; lazymatch goal with
          | |- steps self _ _
                 (bind get_self
                    (λ me, if truthy (BenchJob.use_nos2 me) then _ else _)) =>
              apply self_read_self; intros ? Hflag; simpl in Hflag;
              rewrite Hflag; reflexivity
          end).
Qed.

Lemma run_ins_file :
  steps (self (L := L)) any (keeps BenchJob.ins_file) (BenchJob.run env).
Proof. steps_tac. Qed.

Lemma run_same_job :
  steps (obs (L := L)) any (effects any any) (BenchJob.run env).
Proof.
  steps_with
    ltac:(idtac; lazymatch goal with
          | |- steps obs _ _ (bind get_self (λ me, modify_world _)) =>
              apply steps_read_self; intros s _;
              apply (effects_file _ _ "done" (File "") s); done
          end).
Qed.

Lemma refine_same_job :
  steps (obs (L := L)) any (effects any any) (BenchJob.refine env).
Proof. steps_tac. Qed.
End Frames.

(** X1. [refine] keeps the attributes of the job but for the time and
    the cycles needed, which are all it can assign: the base path, the
    number, the NoSpherA2 flag and parameters, the workspace and the
    model file are as they were, whether it returns or raises; and
    without NoSpherA2 it assigns nothing, the job being left as it
    was. *)
Theorem refine_keeps_the_job (env : Env) {L : Type}
    (s : Frame BenchJob.t L) :
  same_job (self s) (self (BenchJob.refine env s).1)
  ∧ BenchJob.ins_file (self (BenchJob.refine env s).1)
    = BenchJob.ins_file (self s)
  ∧ (truthy (BenchJob.use_nos2 (self s)) = false →
     self (BenchJob.refine env s).1 = self s).
Proof.
  destruct (refine_same_job env s I) as (Hjob & _).
  split; [done|split].
  - apply (refine_ins_file env s I).
  - intros Hflag. symmetry. by apply (refine_plain_self env s).
Qed.

(** A job without NoSpherA2 is the same object after [refine]. *)
Lemma refine_keeps_witness :
  self (BenchJob.refine (Scenario.sound "n/a") (Scenario.at_work tt)).1
  = Scenario.job.
Proof.
  apply (proj2 (proj2 (refine_keeps_the_job (Scenario.sound "n/a")
                         (Scenario.at_work tt)))).
  vm_compute. reflexivity.
Defined.

(** X2. [run], with the refinement, the extraction and the scan of the
    cif file it calls, keeps the attributes of the job but for the time
    and the cycles needed, whether it returns or raises: the job that
    is marked done is the job that was started, in the same
    workspace. *)
Theorem run_keeps_the_job (env : Env) {L : Type}
    (s : Frame BenchJob.t L) :
  same_job (self s) (self (BenchJob.run env s).1)
  ∧ BenchJob.ins_file (self (BenchJob.run env s).1)
    = BenchJob.ins_file (self s)
  ∧ BenchJob.done_path (self (BenchJob.run env s).1)
    = BenchJob.done_path (self s).
Proof.
  destruct (run_same_job env s I) as (Hjob & _).
  split; [done|split].
  - apply (run_ins_file env s I).
  - unfold BenchJob.done_path. destruct Hjob as (_ & _ & _ & _ & Hw).
    simpl in Hw. by rewrite Hw.
Qed.

(* ===================================================================== *)
(** * The log and the results only grow *)
(* ===================================================================== *)

Global Instance appended_preorder : PreOrder appended.
Proof.
  split.
  - intros o. split; [done|]. intros name _. exists "".
    by rewrite string_app_nil_r.
  - intros o1 o2 o3 [Hw1 H1] [Hw2 H2]. split; [by rewrite Hw2|].
    intros name Hname. destruct (H1 name Hname) as [t1 Ht1].
    destruct (H2 name Hname) as [t2 Ht2]. rewrite Hw1 in Ht2.
    exists (t1 +:+ t2). by rewrite Ht2, Ht1, string_app_assoc.
Qed.

Section Appended.
Context (I : World * BenchJob.t → Prop).

Lemma appended_same_fs {L} (s s' : Frame BenchJob.t L) :
  fs (world s') = fs (world s) →
  BenchJob.work_path (self s') = BenchJob.work_path (self s) →
  appended (obs s) (obs s').
Proof.
  intros Hfs Hw. split; [done|]. intros name _. exists "". simpl.
  by rewrite Hfs, string_app_nil_r.
Qed.

Lemma appended_append {L} (s : Frame BenchJob.t L) name text :
  appended (obs s)
    (set_fs (λ f, FS.append f (BenchJob.work_path (self s) ++ [name]) text)
            (world s), self s).
Proof.
  split; [done|]. intros name' _. simpl.
  destruct (decide (name' = name)) as [->|Hne].
  - exists text. apply content_append.
  - exists "". rewrite string_app_nil_r. unfold FS.content, FS.append.
    rewrite lookup_insert_ne; [done|].
    intros H. by apply (inj (λ l, BenchJob.work_path (self s) ++ l)) in H
      as [= ->].
Qed.

Lemma appended_write_log {L} out :
  steps (obs (L := L)) I appended (BenchJob.write_log out).
Proof. intros s _. apply (appended_append s "out.log"). Qed.

Lemma appended_out_write text :
  steps obs I appended (BenchJob.out_write text).
Proof. intros s _. apply (appended_append s "results.txt"). Qed.

Lemma appended_ask {L A} (answer : World → string → list pyval → result A)
    fn args :
  steps (obs (L := L)) I appended (ask answer fn args).
Proof. intros s _. by apply appended_same_fs. Qed.

Lemma appended_emit {L} ev : steps (obs (L := L)) I appended (emit ev).
Proof. intros s _. by apply appended_same_fs. Qed.

Lemma appended_modify_self {L} f :
  (∀ j, BenchJob.work_path (f j) = BenchJob.work_path j) →
  steps (obs (L := L)) I appended (modify_self f).
Proof. intros Hf s _. apply appended_same_fs; [done|apply Hf]. Qed.

(** The done marker is another file. *)
Lemma appended_done {L} (s : Frame BenchJob.t L) :
  appended (obs s)
    (set_fs (λ f, FS.create f (BenchJob.done_path (self s))) (world s),
     self s).
Proof.
  split; [done|]. intros name Hname. exists "". simpl.
  rewrite string_app_nil_r. unfold FS.content, FS.create.
  rewrite lookup_insert_ne; [done|]. unfold BenchJob.done_path.
  intros H. apply (inj (λ l, BenchJob.work_path (self s) ++ l)) in H.
  by destruct Hname as [->| ->].
Qed.
End Appended.

Ltac appended_rules :=
  idtac;
  lazymatch goal with
  | |- steps obs _ _ (BenchJob.write_log _) => apply appended_write_log
  | |- steps obs _ _ (BenchJob.out_write _) => apply appended_out_write
  | |- steps obs _ _ (ask _ _ _) => apply appended_ask
  | |- steps obs _ _ (print _) => apply appended_emit
  | |- steps obs _ _ (emit _) => apply appended_emit
  | |- steps obs _ _ (modify_self _) => by apply appended_modify_self
  | |- steps obs _ _ (bind get_self (λ me, modify_world _)) =>
      apply steps_read_self; intros s _; apply (appended_done s)
  end.

Lemma run_appended (env : Env) {L : Type} :
  steps (obs (L := L)) any appended (BenchJob.run env).
Proof. steps_with appended_rules. Qed.

(** X3. [run] only appends to the log and to the results of the job:
    what either file held before the call is the beginning of what it
    holds after it, whether [run] returns or raises. *)
Theorem run_only_appends (env : Env) {L : Type} (s : Frame BenchJob.t L) :
  ∃ logged written,
    FS.content (fs (world (BenchJob.run env s).1)) (BenchJob.log_path (self s))
    = FS.content (fs (world s)) (BenchJob.log_path (self s)) +:+ logged
    ∧ FS.content (fs (world (BenchJob.run env s).1))
                 (BenchJob.results_path (self s))
      = FS.content (fs (world s)) (BenchJob.results_path (self s))
        +:+ written.
Proof.
  destruct (run_appended env s I) as [_ H].
  destruct (H "out.log") as [logged Hlog]; [by left|].
  destruct (H "results.txt") as [written Hres]; [by right|].
  by exists logged, written.
Qed.


(* ===================================================================== *)
(** * What [refine] tells the engine, in order *)
(* ===================================================================== *)

Lemma refine_unfold (env : Env) {L} :
  BenchJob.refine (L := L) env
  = try_except (refine_body env) BenchJob.refine_failed.
Proof. reflexivity. Qed.

Section Issues.
Context {L X : Type} (proj : event → option X) (I : BenchJob.t → Prop).
Local Abbreviation iss := (issues (L := L) proj I).

Lemma issues_same {A} (m : M (Frame BenchJob.t L) A) :
  (∀ s, trace (world (m s).1) = trace (world s) ∧ self (m s).1 = self s) →
  iss (eq []) m.
Proof.
  intros H s s' a Hs Hm. destruct (H s) as [Hw Hj]. rewrite Hm in Hw, Hj.
  simpl in *. rewrite Hj. split; [done|]. exists []. by rewrite Hw, app_nil_r.
Qed.

Lemma issues_ret {A} (a : A) : iss (eq []) (ret a).
Proof. apply issues_same. intros s. split; reflexivity. Qed.

Lemma issues_raise {A} e : iss (eq []) (raise (A := A) e).
Proof. apply issues_same. intros s. split; reflexivity. Qed.

Lemma issues_from_option {A} (o : option A) e : iss (eq []) (from_option o e).
Proof. destruct o; [apply issues_ret|apply issues_raise]. Qed.

Lemma issues_write_log out : iss (eq []) (BenchJob.write_log out).
Proof. apply issues_same. intros s. split; reflexivity. Qed.

Lemma issues_ask {A} (answer : World → string → list pyval → result A)
    fn args :
  iss (eq (omap proj [EvCall fn args])) (ask answer fn args).
Proof. intros s s' a Hs [= <- _]. split; [done|]. by exists [EvCall fn args]. Qed.

Lemma issues_modify_self f :
  (∀ j, I j → I (f j)) → iss (eq []) (modify_self f).
Proof.
  intros Hf s s' a Hs [= <- _]. split; [by apply Hf|]. exists [].
  by rewrite app_nil_r.
Qed.

Lemma issues_read_self {A} T (k : BenchJob.t → M (Frame BenchJob.t L) A) :
  (∀ me, I me → iss T (k me)) → iss T (bind get_self k).
Proof. intros H s s' a Hs Hm. by apply (H (self s) Hs s s' a). Qed.

Lemma issues_bind {A B} l1 T2 T (m : M (Frame BenchJob.t L) A)
    (k : A → M (Frame BenchJob.t L) B) :
  iss (eq l1) m → (∀ a, iss T2 (k a)) → (∀ l2, T2 l2 → T (l1 ++ l2)) →
  iss T (bind m k).
Proof.
  intros Hm Hk HT s s' b Hs H. apply bind_ok in H as (s1 & a & H1 & H2).
  destruct (Hm s s1 a Hs H1) as (Hs1 & e1 & Ht1 & Hl1).
  destruct (Hk a s1 s' b Hs1 H2) as (Hs' & e2 & Ht2 & HT2).
  split; [done|]. exists (e1 ++ e2). split.
  - by rewrite Ht2, Ht1, <- app_assoc.
  - rewrite omap_app, <- Hl1. by apply HT.
Qed.

Lemma issues_seq {A B} l1 l2 (m : M (Frame BenchJob.t L) A)
    (k : A → M (Frame BenchJob.t L) B) :
  iss (eq l1) m → (∀ a, iss (eq l2) (k a)) → iss (eq (l1 ++ l2)) (bind m k).
Proof. intros Hm Hk. eapply issues_bind; eauto. by intros l <-. Qed.

Lemma issues_for_each {Y} (f : Y → list X) (l : list Y)
    (body : Y → M (Frame BenchJob.t L) unit) :
  (∀ y, iss (eq (f y)) (body y)) → iss (eq (l ≫= f)) (for_each l body).
Proof.
  intros Hb. induction l as [|y l IH]; simpl.
  - apply issues_ret.
  - apply issues_seq; [apply Hb|]. by intros _.
Qed.

Lemma issues_weaken {A} (T T' : list X → Prop) (m : M (Frame BenchJob.t L) A) :
  (∀ l, T' l → T l) → iss T' m → iss T m.
Proof.
  intros HT Hm s s' a Hs H. destruct (Hm s s' a Hs H) as (? & evs & ? & ?).
  split; [done|]. exists evs. auto.
Qed.
End Issues.

Section MoreIssues.
Context {L X : Type} (proj : event → option X) (I : BenchJob.t → Prop).
Local Abbreviation iss := (issues (L := L) proj I).

(** What fails issues whatever is asked of it. *)
Lemma issues_fails {A} T (m : M (Frame BenchJob.t L) A) :
  (∀ s, ∃ s' e, m s = (s', Raise e)) → iss T m.
Proof. intros H s s' a _ Hm. destruct (H s) as (s1 & e & He). congruence. Qed.

Lemma issues_from_some {A B} T (a : A) e
    (k : A → M (Frame BenchJob.t L) B) :
  iss T (k a) → iss T (bind (from_option (Some a) e) k).
Proof. intros H. exact H. Qed.

Lemma issues_from_none {A B} T e (k : A → M (Frame BenchJob.t L) B) :
  iss T (bind (from_option None e) k).
Proof. apply issues_fails. intros s. by exists s, e. Qed.

Lemma issues_ret_bind {A B} T (a : A) (k : A → M (Frame BenchJob.t L) B) :
  iss T (k a) → iss T (bind (ret a) k).
Proof. intros H. exact H. Qed.

Lemma issues_raise_bind {A B} T e (k : A → M (Frame BenchJob.t L) B) :
  iss T (bind (raise e) k).
Proof. apply issues_fails. intros s. by exists s, e. Qed.

Lemma issues_push {A B} l1 T (m : M (Frame BenchJob.t L) A)
    (k : A → M (Frame BenchJob.t L) B) :
  iss (eq l1) m → (∀ a, iss (λ l2, T (l1 ++ l2)) (k a)) → iss T (bind m k).
Proof. intros Hm Hk. by eapply issues_bind. Qed.

Lemma issues_for_each_nil {Y} (l : list Y)
    (body : Y → M (Frame BenchJob.t L) unit) :
  (∀ y, iss (eq []) (body y)) → iss (eq []) (for_each l body).
Proof.
  intros Hb. induction l as [|y l IH]; simpl.
  - apply issues_ret.
  - apply (issues_seq proj I [] []); [apply Hb|]. by intros _.
Qed.

Lemma issues_ask_is {A}
    (answer : World → string → list pyval → result A) fn args l :
  omap proj [EvCall fn args] = l → iss (eq l) (ask answer fn args).
Proof. intros <-. apply issues_ask. Qed.

Lemma issues_is {A} l T (m : M (Frame BenchJob.t L) A) :
  iss (eq l) m → T l → iss T m.
Proof. intros Hm HT. revert Hm. apply issues_weaken. by intros l' <-. Qed.
End MoreIssues.

(** One rule for a computation whose list is to be found; [extra] is
    tried first. *)
Ltac issues_step extra :=
  first
  [ extra
  | lazymatch goal with
    | |- ∀ _, _ => intros
    | |- issues _ _ _ (bind get_self _) =>
        apply issues_read_self; intros ? ?
    | |- issues _ _ (eq _) (bind _ _) => eapply issues_seq
    | |- issues _ _ _ (ask _ _ _) => apply issues_ask_is; reflexivity
    | |- issues _ _ _ (BenchJob.write_log _) => apply issues_write_log
    | |- issues _ _ _ (ret _) => eapply issues_is; [apply issues_ret|reflexivity]
    | |- issues _ _ _ (raise _) => apply issues_raise
    | |- issues _ _ _ (from_option _ _) => apply issues_from_option
    | |- issues _ _ _ (for_each (seq _ _) _) => simpl
    | |- issues _ _ _ (for_each _ _) =>
        apply issues_for_each_nil; intros ?; eapply issues_is
    | |- issues _ _ _ (if ?b then _ else _) => destruct b
    | |- issues _ _ _ ?m => let h := head_of m in progress unfold h
    end ].

Ltac issues_with extra := repeat issues_step extra.
Ltac issues_tac := issues_with fail.

Section Protocol.
Context (env : Env) {L : Type}.
Context (ins : path) (u : bool).

(** The job has the model file [ins], and NoSpherA2 is selected or
    not as [u] says. *)
Local Abbreviation job_is :=
  (λ me, BenchJob.ins_file me = Some ins ∧ truthy (BenchJob.use_nos2 me) = u).

Lemma refine_start_commands :
  issues (L := L) olex_command job_is
    (eq [ "reap " +:+ path_str ins; "fix disp -c"; BenchJob.set_GN;
          "refine 5"; "refine 5"; "refine 5" ])
    (BenchJob.refine_start env).
Proof.
  eapply issues_is;
    issues_with
      ltac:(idtac; lazymatch goal with
            | H : _ ∧ _
              |- issues _ _ _ (bind (from_option (BenchJob.ins_file _) _) _) =>
                rewrite (proj1 H); apply issues_from_some
            end);
    reflexivity.
Qed.

Lemma extinction_branch_commands exti :
  issues (L := L) olex_command job_is (eq (branch_commands exti))
    (BenchJob.extinction_branch env exti).
Proof.
  unfold BenchJob.extinction_branch, branch_commands, index, py_float.
  destruct (bool_decide (exti = "n/a")); simpl; [apply issues_ret|].
  destruct (py_index (PyStr.split_on "(" exti) 0) as [head|]; simpl;
    [|apply issues_raise_bind].
  apply issues_ret_bind.
  destruct (PyStr.float_of_string head) as [x|]; simpl;
    [|apply issues_raise_bind].
  apply issues_ret_bind.
  destruct (Float.ltb x BenchJob.exti_threshold);
    eapply issues_is; issues_tac; reflexivity.
Qed.

Lemma refine_end_commands :
  issues (L := L) olex_command job_is
    (eq ("refine 10" :: if u then ["refine 20"] else []))
    (BenchJob.refine_end env).
Proof.
  unfold BenchJob.refine_end.
  apply (issues_seq _ _ ["refine 10"]); [by apply issues_ask_is|]. intros _.
  apply issues_read_self. intros me [_ Hu]. rewrite Hu. destruct u.
  - eapply issues_is;
      issues_with
        ltac:(idtac; lazymatch goal with
              | |- issues _ _ _ (modify_self _) =>
                  apply issues_modify_self; intros ? ?; assumption
              end);
      reflexivity.
  - apply issues_ret.
Qed.
End Protocol.

Section Rest.
Context (env : Env) {L : Type} (ins : path) (u : bool).

Lemma refine_rest_commands exti :
  issues (L := L) olex_command
    (λ me, BenchJob.ins_file me = Some ins
           ∧ truthy (BenchJob.use_nos2 me) = u)
    (eq (branch_commands exti
         ++ "refine 10" :: if u then ["refine 20"] else []))
    (do _ <- BenchJob.write_log ("Found Extinction: " +:+ exti);
     do _ <- BenchJob.extinction_branch env exti;
     BenchJob.refine_end env).
Proof.
  apply (issues_seq _ _ []); [apply issues_write_log|]. intros _.
  apply issues_seq; [apply extinction_branch_commands|]. intros _.
  apply refine_end_commands.
Qed.
End Rest.

(** X5. When the body of [refine] completes, the commands it has given
    the engine through [olex.m] are, in this order: the model file is
    loaded, the dispersion is fixed, Gauss-Newton is set, three times
    five cycles are refined, then the command of the extinction branch
    for the value the engine reported (EXTI deleted, Levenberg-Marquardt
    set, or none), ten cycles, and with NoSpherA2 twenty more. *)
Theorem refine_command_protocol (env : Env) {L : Type}
    (s s' : Frame BenchJob.t L) :
  refine_body env s = (s', Ok tt) →
  ∃ ins s1 exti,
    BenchJob.ins_file (self s) = Some ins
    ∧ BenchJob.refine_start env s = (s1, Ok tt)
    ∧ env_str env (world s1) "olx.xf.rm.Exti" [] = Ok exti
    ∧ omap olex_command (emitted (BenchJob.refine env) s)
      = [ "reap " +:+ path_str ins; "fix disp -c"; BenchJob.set_GN;
          "refine 5"; "refine 5"; "refine 5" ]
        ++ branch_commands exti
        ++ "refine 10"
           :: if truthy (BenchJob.use_nos2 (self s)) then ["refine 20"]
              else [].
Proof.
  intros H.
  assert (emitted (BenchJob.refine env) s = emitted (refine_body env) s)
    as ->.
  { unfold emitted. rewrite refine_unfold. unfold try_except. by rewrite H. }
  destruct (BenchJob.ins_file (self s)) as [ins|] eqn:Hins.
  2:{ unfold refine_body, BenchJob.refine_start, bind at 1 2 3, get_self in H.
      by rewrite Hins in H. }
  unfold emitted. rewrite H. unfold refine_body in H.
  apply bind_ok in H as (s1 & [] & H1 & H).
  apply bind_ok in H as (s2 & exti & H2 & H).
  destruct (refine_start_commands env ins _ s s1 tt (conj Hins eq_refl) H1)
    as (Hs1 & e1 & Ht1 & Hl1).
  assert (env_str env (world s1) "olx.xf.rm.Exti" [] = Ok exti
          ∧ trace (world s2)
            = trace (world s1) ++ [EvCall "olx.xf.rm.Exti" []]
          ∧ self s2 = self s1) as (Hexti & Ht2 & Hs2).
  { by injection H2 as <- ->. }
  rewrite <- Hs2 in Hs1.
  destruct (refine_rest_commands env ins _ exti s2 s' tt Hs1 H)
    as (_ & e3 & Ht3 & Hl3).
  exists ins, s1, exti. repeat (split; [done|]). simpl.
  rewrite Ht3, Ht2, Ht1, <- !app_assoc, drop_app_length, !omap_app.
  by rewrite <- Hl1, <- Hl3.
Qed.

(** A small extinction on the job without NoSpherA2. *)
Lemma refine_protocol_witness :
  omap olex_command
    (emitted (BenchJob.refine (Scenario.sound "0.0005(3)"))
             (Scenario.at_work tt))
  = [ "reap data/bench/job_0/x.ins"; "fix disp -c"; BenchJob.set_GN;
      "refine 5"; "refine 5"; "refine 5"; "delins EXTI"; "refine 10" ].
Proof.
  destruct (refine_command_protocol (Scenario.sound "0.0005(3)")
              (Scenario.at_work tt)
              (refine_body (Scenario.sound "0.0005(3)")
                 (Scenario.at_work tt)).1)
    as (ins & s1 & exti & Hins & _ & Hexti & ->).
  { vm_compute. reflexivity. }
  injection Hins as <-. injection Hexti as <-. vm_compute. reflexivity.
Defined.


(* ===================================================================== *)
(** * The parameters [configure_ORCA] sets *)
(* ===================================================================== *)

Section Configure.
Context (env : Env) {L : Type} (params : pydict pyval).

Lemma configure_ORCA_issues :
  issues (L := L) set_param (λ me, BenchJob.nos2_params me = Some params)
    (λ l, ∃ tail, l = orca_settings params ++ tail
                  ∧ (tail = [] ∨ tail = default_multiplicity))
    (BenchJob.configure_ORCA env).
Proof.
  unfold BenchJob.configure_ORCA, BenchJob.SetParam, BenchJob.GetParam.
  apply (issues_push _ _ []); [by apply issues_ask_is|]. intros _.
  apply (issues_push _ _ []); [by apply issues_ask_is|]. intros gui.
  apply (issues_push _ _ []).
  { destruct (truthy gui); [by apply issues_ask_is|apply issues_ret]. }
  intros _.
  apply (issues_push _ _ [("snum.NoSpherA2.source", PyStr "ORCA 6.0")]);
    [by apply issues_ask_is|]. intros _.
  apply issues_read_self. intros me ->. apply issues_from_some.
  apply (issues_push _ _
           (params ≫= λ kv, [("snum.NoSpherA2." +:+ kv.1,
                               PyStr (py_str kv.2))])).
  { apply issues_for_each. intros kv.
    apply (issues_seq _ _
             [("snum.NoSpherA2." +:+ kv.1, PyStr (py_str kv.2))] []);
      [by apply issues_ask_is|]. intros _.
    apply (issues_seq _ _ [] []); [by apply issues_ask_is|]. intros v.
    apply issues_write_log. }
  intros _.
  apply (issues_push _ _ [("snum.NoSpherA2.Calculate", PyBool true)]);
    [by apply issues_ask_is|]. intros _.
  apply (issues_push _ _ [("snum.NoSpherA2.precise_output", PyBool true)]);
    [by apply issues_ask_is|]. intros _.
  apply (issues_push _ _ [("snum.NoSpherA2.use_aspherical", PyBool true)]);
    [by apply issues_ask_is|]. intros _.
  apply (issues_push _ _ [("snum.NoSpherA2.h_aniso", PyBool true)]);
    [by apply issues_ask_is|]. intros _.
  apply (issues_push _ _ []); [by apply issues_ask_is|]. intros mult.
  assert (∀ tail : list (string * pyval),
            [("snum.NoSpherA2.source", PyStr "ORCA 6.0")]
            ++ (params ≫= λ kv, [("snum.NoSpherA2." +:+ kv.1,
                                   PyStr (py_str kv.2))])
            ++ [("snum.NoSpherA2.Calculate", PyBool true)]
            ++ [("snum.NoSpherA2.precise_output", PyBool true)]
            ++ [("snum.NoSpherA2.use_aspherical", PyBool true)]
            ++ [("snum.NoSpherA2.h_aniso", PyBool true)] ++ [] ++ tail
            = orca_settings params ++ tail) as Hlist.
  { intros tail. unfold orca_settings. simpl. f_equal.
    rewrite <- !app_assoc. simpl.
    generalize (("snum.NoSpherA2.Calculate", PyBool true)
                :: ("snum.NoSpherA2.precise_output", PyBool true)
                :: ("snum.NoSpherA2.use_aspherical", PyBool true)
                :: ("snum.NoSpherA2.h_aniso", PyBool true) :: tail).
    intros rest. clear. induction params as [|kv l IH]; [done|].
    simpl. by f_equal. }
  destruct (py_eq_str mult "0").
  - apply (issues_is _ _ default_multiplicity).
    + apply (issues_seq _ _ [] default_multiplicity);
        [apply issues_write_log|]. intros _. by apply issues_ask_is.
    + exists default_multiplicity. split; [|by right].
      by rewrite <- Hlist.
  - apply (issues_is _ _ []); [apply issues_ret|].
    exists []. split; [|by left]. rewrite <- Hlist. by simpl.
Qed.

(** Without options the loop over them raises. *)
Lemma configure_ORCA_needs_options :
  issues (L := L) set_param (λ me, BenchJob.nos2_params me = None)
    (λ _, False) (BenchJob.configure_ORCA env).
Proof.
  unfold BenchJob.configure_ORCA, BenchJob.SetParam, BenchJob.GetParam.
  apply (issues_push _ _ []); [by apply issues_ask_is|]. intros _.
  apply (issues_push _ _ []); [by apply issues_ask_is|]. intros gui.
  apply (issues_push _ _ []).
  { destruct (truthy gui); [by apply issues_ask_is|apply issues_ret]. }
  intros _.
  apply (issues_push _ _ [("snum.NoSpherA2.source", PyStr "ORCA 6.0")]);
    [by apply issues_ask_is|]. intros _.
  apply issues_read_self. intros me ->. apply issues_from_none.
Qed.
End Configure.

(** X6. When [configure_ORCA] returns, the parameters it has set are, in
    this order: the source ORCA 6.0; every option of the job, as the text
    of its value, in the order of the options; then Calculate,
    precise_output, use_aspherical and h_aniso, all True; and at the end
    the multiplicity 1, or nothing. A source among the options of the
    job thus replaces ORCA 6.0, and an h_aniso among them is replaced. *)
Theorem configure_ORCA_parameters (env : Env) {L : Type}
    (s s' : Frame BenchJob.t L) :
  BenchJob.configure_ORCA env s = (s', Ok tt) →
  ∃ params tail,
    BenchJob.nos2_params (self s) = Some params
    ∧ omap set_param (emitted (BenchJob.configure_ORCA env) s)
      = orca_settings params ++ tail
    ∧ (tail = [] ∨ tail = default_multiplicity).
Proof.
  intros H.
  destruct (BenchJob.nos2_params (self s)) as [params|] eqn:Hp.
  2:{ by destruct (configure_ORCA_needs_options env s s' tt Hp H)
        as (_ & ? & _ & []). }
  destruct (configure_ORCA_issues env params s s' tt Hp H)
    as (_ & evs & Ht & tail & Hl & Htail).
  exists params, tail. repeat split; [|done].
  unfold emitted. rewrite H. simpl. by rewrite Ht, drop_app_length.
Qed.

(** The job with two options, one of them h_aniso, on the sound
    engine: the option is set first, and True after it. *)
Lemma configure_ORCA_witness :
  omap set_param
    (emitted (BenchJob.configure_ORCA (Scenario.sound "n/a"))
             (Scenario.har_at_work tt))
  = [ ("snum.NoSpherA2.source", PyStr "ORCA 6.0");
      ("snum.NoSpherA2.method", PyStr "PBE");
      ("snum.NoSpherA2.h_aniso", PyStr "False");
      ("snum.NoSpherA2.Calculate", PyBool true);
      ("snum.NoSpherA2.precise_output", PyBool true);
      ("snum.NoSpherA2.use_aspherical", PyBool true);
      ("snum.NoSpherA2.h_aniso", PyBool true) ].
Proof.
  destruct (configure_ORCA_parameters (Scenario.sound "n/a")
              (Scenario.har_at_work tt)
              (BenchJob.configure_ORCA (Scenario.sound "n/a")
                 (Scenario.har_at_work tt)).1)
    as (params & tail & Hp & _ & _).
  { vm_compute. reflexivity. }
  vm_compute. reflexivity.
Defined.


(* ===================================================================== *)
(** * The jobs [init_sisy_jobs] makes *)
(* ===================================================================== *)

Section DictLaws.
Context {V : Type}.
Implicit Types (d e : pydict V) (k : string) (v : V).

Lemma get_set d k k' v :
  Dict.get k' (Dict.set k v d)
  = if bool_decide (k = k') then Some v else Dict.get k' d.
Proof.
  induction d as [|[k0 v0] d IH]; simpl; [done|].
  repeat case_bool_decide; simpl; rewrite ?IH;
    repeat case_bool_decide; congruence.
Qed.

Lemma get_app d e k :
  Dict.get k (d ++ e)
  = match Dict.get k d with Some v => Some v | None => Dict.get k e end.
Proof.
  induction d as [|[k0 v0] d IH]; simpl; [done|].
  by destruct (bool_decide (k0 = k)).
Qed.

Lemma get_update d e k : Dict.get k (Dict.update d e) = overridden d e k.
Proof.
  unfold Dict.update, overridden. revert d.
  induction e as [|[k0 v0] e IH]; intros d; simpl; [done|].
  rewrite IH, reverse_cons, get_app, get_set. simpl.
  destruct (Dict.get k (reverse e)); [done|].
  by destruct (bool_decide (k0 = k)).
Qed.
End DictLaws.

Section Made.
Context (env : Env).

Lemma new_job_configured {L} i cfg (s s' : Frame SISYPHOS.t L) j :
  SISYPHOS.new_job i cfg s = (s', Ok j) →
  self s' = self s ∧ locals s' = locals s ∧ BenchJob.id j = i
  ∧ configured (self s) cfg j.
Proof.
  unfold SISYPHOS.new_job, bind, get_self, configured.
  fold (merged_options (self s) cfg).
  destruct (Dict.has "IAM" (merged_options (self s) cfg)); intros H;
    pose proof (init_same_job _ _ _ _ _ _ _ H) as (Hb & Hi & Hu & Hp & Hw);
    simpl in Hb, Hi, Hu, Hp, Hw;
    rewrite init_unfold in H; injection H as <- _;
    rewrite Hi, Hw; auto 10.
Qed.

Lemma batch_step_configured c (s s' : Frame SISYPHOS.t (list BenchJob.t)) :
  SISYPHOS.batch_step env c s = (s', Ok tt) →
  self s' = self s
  ∧ (locals s' = locals s
     ∨ ∃ j, locals s' = locals s ++ [j] ∧ BenchJob.id j = c.1
            ∧ configured (self s) c.2 j).
Proof.
  unfold SISYPHOS.batch_step. intros H.
  apply bind_ok in H as (s1 & finished & H1 & H).
  assert (self s1 = self s ∧ locals s1 = locals s) as [Hs1 Hl1].
  { revert H1. unfold SISYPHOS.is_finished.
    destruct (env_finished env (world s) c.1); [|done].
    by intros [= <- _]. }
  destruct finished.
  - injection H as <-. by auto.
  - apply bind_ok in H as (s2 & j & H2 & H).
    apply new_job_configured in H2 as (Hs2 & Hl2 & Hid & Hc).
    injection H as <-. simpl. rewrite Hs2, Hl2, Hs1, Hl1 in *.
    split; [done|]. right. by exists j.
Qed.

Lemma loop_configured cs (s s' : Frame SISYPHOS.t (list BenchJob.t)) :
  for_each cs (SISYPHOS.batch_step env) s = (s', Ok tt) →
  self s' = self s
  ∧ ∃ new, locals s' = locals s ++ new
           ∧ ∀ j, j ∈ new →
                  ∃ cfg, (BenchJob.id j, cfg) ∈ cs
                         ∧ configured (self s) cfg j.
Proof.
  revert s. induction cs as [|c cs IH]; intros s; simpl.
  - intros [= <-]. split; [done|]. exists []. rewrite app_nil_r.
    split; [done|]. by intros j Hj%elem_of_nil.
  - intros H. apply bind_ok in H as (s1 & [] & H1 & H).
    apply batch_step_configured in H1 as (Hs1 & Hl1).
    apply IH in H as (Hs' & new & Hl' & Hnew). rewrite Hs1 in Hs', Hnew.
    split; [done|].
    assert (∀ j, j ∈ new → ∃ cfg, (BenchJob.id j, cfg) ∈ c :: cs
                                   ∧ configured (self s) cfg j) as Hnew'.
    { intros j Hj. destruct (Hnew j Hj) as (cfg & Hin & Hc).
      exists cfg. split; [by right|done]. }
    destruct Hl1 as [Hl1|(j & Hl1 & Hid & Hc)].
    + exists new. by rewrite Hl', Hl1.
    + exists (j :: new). split.
      * by rewrite Hl', Hl1, <- app_assoc.
      * intros j' [->|Hj]%elem_of_cons; [|by apply Hnew'].
        exists c.2. split; [|done]. rewrite Hid. destruct c. by left.
Qed.

Lemma enumerate_index {A} (file : list A) i (x : A) :
  (i, x) ∈ imap (λ i job, (Z.of_nat i, job)) file → py_index file i = Some x.
Proof.
  intros (n & y & [= -> ->] & Hn)%elem_of_lookup_imap.
  unfold py_index.
  destruct (0 <=? Z.of_nat n) eqn:H0; [|apply Z.leb_gt in H0; lia].
  by rewrite Nat2Z.id.
Qed.

Lemma init_configured (s s' : Frame SISYPHOS.t (list BenchJob.t)) jobs :
  SISYPHOS.init_sisy_jobs env s = (s', Ok jobs) →
  ∃ file,
    env_jobs env (world s) (SISYPHOS.work_path (self s)) = Ok file
    ∧ self s' = self s
    ∧ ∀ j, j ∈ jobs →
           ∃ cfg, py_index file (BenchJob.id j) = Some cfg
                  ∧ configured (self s) cfg j.
Proof.
  unfold SISYPHOS.init_sisy_jobs. intros H.
  apply bind_ok in H as (? & me & [= <- <-] & H).
  apply bind_ok in H as (s1 & file & H1 & H).
  unfold SISYPHOS.SisyphosBenchmarkFile in H1.
  destruct (env_jobs env (world s) (SISYPHOS.work_path (self s)))
    as [file'|e] eqn:Hfile; [|done].
  injection H1 as <- <-. exists file'. split; [done|].
  destruct (negb (SISYPHOS.sisy_job_idx (self s) =? -1)).
  - apply bind_ok in H as (s2 & finished & H2 & H).
    assert (self s2 = self s) as Hs2.
    { revert H2. unfold SISYPHOS.is_finished.
      destruct (env_finished env (world s) _); [|done]. by intros [= <- _]. }
    destruct finished.
    + apply bind_ok in H as (s3 & [] & [= <-] & [= <- <-]).
      split; [done|]. by intros j Hj%elem_of_nil.
    + apply bind_ok in H as (s3 & cfg & H3 & H).
      unfold index, from_option in H3.
      destruct (py_index file' (SISYPHOS.sisy_job_idx (self s)))
        as [cfg'|] eqn:Hcfg; [|done].
      injection H3 as <- <-.
      apply bind_ok in H as (s4 & j & H4 & [= <- <-]).
      apply new_job_configured in H4 as (Hs4 & _ & Hid & Hc).
      rewrite Hs2 in Hs4, Hc. split; [done|].
      intros j' ->%list_elem_of_singleton. exists cfg'. by rewrite Hid.
  - apply bind_ok in H as (s2 & [] & [= <-] & H).
    apply bind_ok in H as (s3 & [] & H3 & [= <- <-]).
    apply loop_configured in H3 as (Hs3 & new & Hl & Hnew). simpl in *.
    split; [done|]. intros j Hj. rewrite Hl in Hj.
    destruct (Hnew j Hj) as (cfg & Hin & Hc). exists cfg.
    split; [by apply enumerate_index|done].
Qed.
End Made.

(** X7. Every job that [init_sisy_jobs] gives is the job of its own
    index in the benchmark file: its directory is [job_<id>] under the
    work path of the plugin, and with [cfg] the configuration at that
    index, it is a plain job (no options, the flag false) when the
    options of the plugin updated with [cfg] have the key IAM, and else
    carries these options and the flag of the plugin. The plugin is as
    before. *)
Theorem jobs_carry_their_configuration (env : Env)
    (s s' : Frame SISYPHOS.t (list BenchJob.t)) (jobs : list BenchJob.t) :
  SISYPHOS.init_sisy_jobs env s = (s', Ok jobs) →
  ∃ file,
    env_jobs env (world s) (SISYPHOS.work_path (self s)) = Ok file
    ∧ self s' = self s
    ∧ ∀ j, j ∈ jobs →
           ∃ cfg, py_index file (BenchJob.id j) = Some cfg
                  ∧ configured (self s) cfg j.
Proof. apply init_configured. Qed.

(** On the sound engine the plugin makes the jobs 0 and 1 of the
    benchmark file. *)
Lemma jobs_carry_witness :
  BenchJob.id <$> Scenario.made = [0; 1]
  ∧ ∃ file,
      env_jobs (Scenario.sound "n/a") (world Scenario.batch)
               (SISYPHOS.work_path (self Scenario.batch)) = Ok file
      ∧ self (SISYPHOS.init_sisy_jobs (Scenario.sound "n/a")
                Scenario.batch).1 = self Scenario.batch
      ∧ ∀ j, j ∈ Scenario.made →
             ∃ cfg, py_index file (BenchJob.id j) = Some cfg
                    ∧ configured (self Scenario.batch) cfg j.
Proof.
  split; [vm_compute; reflexivity|].
  apply (jobs_carry_their_configuration (Scenario.sound "n/a")
           Scenario.batch
           (SISYPHOS.init_sisy_jobs (Scenario.sound "n/a")
              Scenario.batch).1 Scenario.made).
  vm_compute. reflexivity.
Defined.

(** X8. In the options of a job that [init_sisy_jobs] gives, a key has
    the value of the job's own configuration (of its last entry for the
    key) when the configuration has it, and else the value of the
    options of the plugin; the key IAM is not among them. *)
Theorem job_options_override (env : Env)
    (s s' : Frame SISYPHOS.t (list BenchJob.t)) (jobs : list BenchJob.t)
    (j : BenchJob.t) (params : pydict pyval) :
  SISYPHOS.init_sisy_jobs env s = (s', Ok jobs) →
  j ∈ jobs →
  BenchJob.nos2_params j = Some params →
  ∃ file cfg,
    env_jobs env (world s) (SISYPHOS.work_path (self s)) = Ok file
    ∧ py_index file (BenchJob.id j) = Some cfg
    ∧ (∀ k, Dict.get k params
            = overridden (SISYPHOS.nos2_options (self s)) cfg k)
    ∧ Dict.get "IAM" params = None.
Proof.
  intros H Hj Hp.
  destruct (init_configured env s s' jobs H) as (file & Hfile & _ & Hjobs).
  destruct (Hjobs j Hj) as (cfg & Hcfg & _ & _ & Hc).
  exists file, cfg. split; [done|]. split; [done|].
  destruct (Dict.has "IAM" (merged_options (self s) cfg)) eqn:Hiam.
  - destruct Hc as [Hnone _]. congruence.
  - destruct Hc as [Hsome _]. rewrite Hp in Hsome. injection Hsome as ->.
    split; [intros k; apply get_update|].
    unfold Dict.has in Hiam. apply bool_decide_eq_false in Hiam.
    destruct (Dict.get "IAM" _); [|done]. by destruct Hiam.
Qed.

(** The second job has the method of its configuration and the
    full_HAR of the plugin. *)
Lemma job_options_witness :
  BenchJob.nos2_params Scenario.second_made
  = Some [("method", PyStr "PBE"); ("full_HAR", PyBool true)]
  ∧ ∃ file cfg,
      env_jobs (Scenario.sound "n/a") (world Scenario.batch)
               (SISYPHOS.work_path (self Scenario.batch)) = Ok file
      ∧ py_index file (BenchJob.id Scenario.second_made) = Some cfg
      ∧ (∀ k, Dict.get k [("method", PyStr "PBE"); ("full_HAR", PyBool true)]
              = overridden (SISYPHOS.nos2_options (self Scenario.batch))
                           cfg k)
      ∧ Dict.get "IAM" [("method", PyStr "PBE"); ("full_HAR", PyBool true)]
        = None.
Proof.
  split; [vm_compute; reflexivity|].
  apply (job_options_override (Scenario.sound "n/a") Scenario.batch
           (SISYPHOS.init_sisy_jobs (Scenario.sound "n/a")
              Scenario.batch).1 Scenario.made Scenario.second_made).
  - vm_compute. reflexivity.
  - apply list_elem_of_lookup_2 with 1%nat. vm_compute. reflexivity.
  - vm_compute. reflexivity.
Defined.


(* ===================================================================== *)
(** * The parts of [SISYPHOS.run] *)
(* ===================================================================== *)

Lemma bind_ext {S A B} (m : M S A) (k1 k2 : A → M S B) s :
  (∀ a s', k1 a s' = k2 a s') → bind m k1 s = bind m k2 s.
Proof. intros H. unfold bind. destruct (m s) as [s1 [a|e]]; [apply H|done]. Qed.

Lemma bind_raise {S A B} (m : M S A) (k : A → M S B) s s' e :
  m s = (s', Raise e) → bind m k s = (s', Raise e).
Proof. intros H. unfold bind. by rewrite H. Qed.

Lemma bind_then {S A B} (m : M S A) (k : A → M S B) s s' a :
  m s = (s', Ok a) → bind m k s = k a s'.
Proof. intros H. unfold bind. by rewrite H. Qed.

Section Parts.
Context (env : Env).

Lemma run_unfold s :
  SISYPHOS.run env s
  = (do _ <- read_options env;
     do job_list <- invoke (SISYPHOS.init_sisy_jobs env) [];
     run_jobs env job_list) s.
Proof.
  unfold SISYPHOS.run, read_options.
  rewrite bind_assoc. apply bind_ext. intros v s1.
  rewrite bind_assoc. apply bind_ext. intros _ s2.
  rewrite bind_assoc. apply bind_ext. intros _ s3.
  rewrite bind_assoc. apply bind_ext. intros _ s4. reflexivity.
Qed.

(** The loop over the names of the options sets each of them and no
    other key. *)
Lemma options_loop names (s s' : Frame SISYPHOS.t unit) :
  for_each names (λ param,
    do v <- ask (env_val env) "OV.GetParam"
              [PyStr ("snum.NoSpherA2." +:+ param)];
    modify_self (SISYPHOS.set_option param v)) s = (s', Ok tt) →
  SISYPHOS.work_path (self s') = SISYPHOS.work_path (self s)
  ∧ SISYPHOS.sisy_job_idx (self s') = SISYPHOS.sisy_job_idx (self s)
  ∧ SISYPHOS.use_nosphera2 (self s') = SISYPHOS.use_nosphera2 (self s)
  ∧ (∀ p, p ∈ names →
          is_Some (Dict.get p (SISYPHOS.nos2_options (self s'))))
  ∧ (∀ k, k ∉ names →
          Dict.get k (SISYPHOS.nos2_options (self s'))
          = Dict.get k (SISYPHOS.nos2_options (self s))).
Proof.
  revert s. induction names as [|p names IH]; intros s; simpl.
  - intros [= <-]. repeat split; try done. by intros p Hp%elem_of_nil.
  - intros H. apply bind_ok in H as (s1 & [] & H1 & H).
    apply bind_ok in H1 as (s0 & v & H0 & [= <-]).
    assert (self s0 = self s) as Hs0.
    { revert H0. unfold ask. destruct (env_val _ _ _ _); [|done].
      by intros [= <- _]. }
    apply IH in H as (Hw & Hi & Hu & Hin & Hout). simpl in *.
    rewrite Hs0 in *. repeat split; try done.
    + intros q [->|Hq]%elem_of_cons; [|by apply Hin].
      destruct (decide (p ∈ names)) as [Hq|Hq]; [by apply Hin|].
      rewrite (Hout p Hq), get_set. by rewrite bool_decide_eq_true_2.
    + intros k [Hk Hk']%not_elem_of_cons. rewrite (Hout k Hk'), get_set.
      by rewrite bool_decide_eq_false_2.
Qed.

Lemma read_options_spec (s s' : Frame SISYPHOS.t unit) :
  read_options env s = (s', Ok tt) →
  har_forced (self s')
  ∧ (∀ p, p ∈ SISYPHOS.nos_params →
          is_Some (Dict.get p (SISYPHOS.nos2_options (self s'))))
  ∧ (∀ k, k ∉ SISYPHOS.nos_params →
          Dict.get k (SISYPHOS.nos2_options (self s'))
          = Dict.get k (SISYPHOS.nos2_options (self s)))
  ∧ SISYPHOS.work_path (self s') = SISYPHOS.work_path (self s)
  ∧ SISYPHOS.sisy_job_idx (self s') = SISYPHOS.sisy_job_idx (self s)
  ∧ env_val env (world s) "OV.GetParam" [PyStr "sisyphos.use_nos2"]
    = Ok (SISYPHOS.use_nosphera2 (self s')).
Proof.
  unfold read_options. intros H.
  apply bind_ok in H as (s1 & v & H1 & H).
  assert (self s1 = self s
          ∧ env_val env (world s) "OV.GetParam" [PyStr "sisyphos.use_nos2"]
            = Ok v) as [Hs1 Hv].
  { revert H1. unfold ask. destruct (env_val _ _ _ _); [|done].
    by intros [= <- <-]. }
  apply bind_ok in H as (s2 & [] & [= <-] & H).
  apply bind_ok in H as (s3 & [] & H3 & H).
  apply options_loop in H3 as (Hw & Hi & Hu & Hin & Hout). simpl in *.
  apply bind_ok in H as (s4 & [] & [= <-] & [= <-]). simpl.
  unfold har_forced. simpl. rewrite !get_set. simpl.
  rewrite Hw, Hi, Hu, Hs1. repeat split; try done.
  - intros p Hp. specialize (Hin p Hp). rewrite !get_set.
    by repeat case_bool_decide.
  - intros k Hk. rewrite <- Hs1, <- (Hout k Hk), !get_set.
    assert (k ≠ "full_HAR" ∧ k ≠ "Max_HAR_Cycles") as [??].
    { split; intros ->; apply Hk; unfold SISYPHOS.nos_params;
        rewrite !elem_of_cons; tauto. }
    by rewrite !bool_decide_eq_false_2.
Qed.

Lemma run_jobs_self jobs (s : Frame SISYPHOS.t unit) :
  self (run_jobs env jobs s).1 = self s.
Proof.
  unfold run_jobs. revert s. induction jobs as [|j jobs IH]; intros s; [done|].
  simpl. unfold bind at 1.
  match goal with
  | |- context [bind (print ?t) ?k s] =>
      assert (self (bind (print t) k s).1 = self s) as Hj
  end.
  { unfold bind, print, emit, modify_world, invoke_on. simpl.
    by destruct (BenchJob.run env _) as [s2 [[]|e]]. }
  destruct (bind (print _) _ s) as [s1 [[]|e]]; simpl in *; [|done].
  by rewrite IH.
Qed.
End Parts.

(** X9. When [SISYPHOS.run] returns, the jobs were made by
    [init_sisy_jobs] from a plugin whose options have full_HAR True and
    Max_HAR_Cycles 15, whatever the host answered for these two, and a
    value for every name of [nos_params]; keys that are not such names
    are as they were, and the flag is the answer of the host for
    sisyphos.use_nos2. The plugin is left so. *)
Theorem run_forces_har_options (env : Env) (s s' : Frame SISYPHOS.t unit) :
  SISYPHOS.run env s = (s', Ok tt) →
  ∃ s1 s2 jobs,
    read_options env s = (s1, Ok tt)
    ∧ SISYPHOS.init_sisy_jobs env (listing s1) = (s2, Ok jobs)
    ∧ self s' = self s1
    ∧ har_forced (self s1)
    ∧ (∀ p, p ∈ SISYPHOS.nos_params →
            is_Some (Dict.get p (SISYPHOS.nos2_options (self s1))))
    ∧ (∀ k, k ∉ SISYPHOS.nos_params →
            Dict.get k (SISYPHOS.nos2_options (self s1))
            = Dict.get k (SISYPHOS.nos2_options (self s)))
    ∧ env_val env (world s) "OV.GetParam" [PyStr "sisyphos.use_nos2"]
      = Ok (SISYPHOS.use_nosphera2 (self s1)).
Proof.
  rewrite run_unfold. intros H.
  apply bind_ok in H as (s1 & [] & H1 & H).
  apply bind_ok in H as (s2' & jobs & H2 & H).
  unfold invoke in H2. fold (listing s1) in H2.
  destruct (SISYPHOS.init_sisy_jobs env (listing s1)) as [s2 r2] eqn:Hinit.
  injection H2 as <- ->.
  pose proof (run_jobs_self env jobs
                (MkFrame (world s2) (self s2) (locals s1))) as Hself.
  rewrite H in Hself. simpl in Hself.
  destruct (init_configured env _ _ _ Hinit) as (_ & _ & Hs2 & _).
  simpl in Hs2.
  exists s1, s2, jobs. split; [done|]. split; [done|].
  split; [by rewrite Hself|].
  destruct (read_options_spec env s s1 H1) as (Hf & Hin & Hout & _ & _ & Hu).
  done.
Qed.

(** On the engine with job 0 finished the run returns. *)
Lemma run_forces_witness :
  ∃ s1 s2 jobs,
    read_options Scenario.resumed (Scenario.stage Scenario.disk (-1))
    = (s1, Ok tt)
    ∧ SISYPHOS.init_sisy_jobs Scenario.resumed (listing s1) = (s2, Ok jobs)
    ∧ self (SISYPHOS.run Scenario.resumed
              (Scenario.stage Scenario.disk (-1))).1 = self s1
    ∧ har_forced (self s1)
    ∧ (∀ p, p ∈ SISYPHOS.nos_params →
            is_Some (Dict.get p (SISYPHOS.nos2_options (self s1))))
    ∧ (∀ k, k ∉ SISYPHOS.nos_params →
            Dict.get k (SISYPHOS.nos2_options (self s1))
            = Dict.get k (SISYPHOS.nos2_options
                            (self (Scenario.stage Scenario.disk (-1)))))
    ∧ env_val Scenario.resumed
        (world (Scenario.stage Scenario.disk (-1)))
        "OV.GetParam" [PyStr "sisyphos.use_nos2"]
      = Ok (SISYPHOS.use_nosphera2 (self s1)).
Proof.
  apply (run_forces_har_options Scenario.resumed
           (Scenario.stage Scenario.disk (-1))
           (SISYPHOS.run Scenario.resumed
              (Scenario.stage Scenario.disk (-1))).1).
  vm_compute. reflexivity.
Defined.

Lemma checked_made_new idxs evs made j :
  checked idxs evs made → j ∈ made →
  EvFinished j false ∈ evs ∧ EvNew j ∈ evs.
Proof.
  induction 1 as [idxs|i idxs|i idxs|i idxs evs made Hc IH
                  |i idxs evs made Hc IH];
    rewrite ?elem_of_cons, ?elem_of_nil; try tauto.
  intros [->|Hj]; [tauto|]. destruct (IH Hj). tauto.
Qed.

(** X10. In [SISYPHOS.run] every job is made before any job is run:
    the job that is run was tested and made before, and after the first
    run no job is tested or made any more. *)
Theorem jobs_made_before_any_runs (env : Env) (s : Frame SISYPHOS.t unit)
    (pre post : list event) (i : Z) :
  emitted (SISYPHOS.run env) s = pre ++ EvRun i :: post →
  EvFinished i false ∈ pre
  ∧ EvNew i ∈ pre
  ∧ (∀ j, EvNew j ∉ post)
  ∧ (∀ j b, EvFinished j b ∉ post).
Proof.
  destruct (run_adds env s)
    as (evs & Ht & p & idxs & tests & made & po & -> & Hp & Hnd & Hc & Hpo).
  rewrite (emitted_app _ _ _ Ht), app_assoc. intros Heq.
  rewrite Forall_forall in Hp, Hpo.
  destruct (checked_indices _ _ _ Hc) as (_ & _ & _ & Hrun).
  assert (EvRun i ∉ p ++ tests) as Hnot.
  { intros [H|H]%elem_of_app; [by apply Hp in H|by apply Hrun in H]. }
  apply app_eq_inv in Heq as [(k & H1 & H2)|(k & H1 & H2)].
  - destruct k as [|e k].
    + rewrite app_nil_r in H1. simpl in H2. subst pre po.
      assert (i ∈ made) as Hi.
      { destruct (Hpo (EvRun i)) as [[]|(j & Hj & [= ->])]; [left|done]. }
      destruct (checked_made_new _ _ _ _ Hc Hi) as [Hf Hn].
      rewrite !elem_of_app.
      split; [tauto|]. split; [tauto|].
      split; intros *; intros Hin;
        (assert (ran made (EvNew j) ∨ ran made (EvFinished j true)
                 ∨ ran made (EvFinished j false)) as Hran
           by (first [left; apply Hpo; by right
                     |destruct b; [right; left|right; right];
                      apply Hpo; by right]));
        destruct Hran as [Hr|[Hr|Hr]];
        apply ran_not_tested in Hr as [H1 H2];
        first [by destruct (H2 j)|by destruct (H1 j true)
              |by destruct (H1 j false)].
    + injection H2 as <- _. destruct Hnot. rewrite H1.
      apply elem_of_app. right. left.
  - subst pre po.
    assert (i ∈ made) as Hi.
    { destruct (Hpo (EvRun i)) as [[]|(j & Hj & [= ->])]; [|done].
      apply elem_of_app. right. left. }
    destruct (checked_made_new _ _ _ _ Hc Hi) as [Hf Hn].
    rewrite !elem_of_app.
    split; [tauto|]. split; [tauto|].
    split; intros *; intros Hin;
      (assert (ran made (EvNew j) ∨ ran made (EvFinished j true)
               ∨ ran made (EvFinished j false)) as Hran
         by (first [left; apply Hpo, elem_of_app; right; by right
                   |destruct b; [right; left|right; right];
                    apply Hpo, elem_of_app; right; by right]));
      destruct Hran as [Hr|[Hr|Hr]];
      apply ran_not_tested in Hr as [H1 H2];
      first [by destruct (H2 j)|by destruct (H1 j true)
            |by destruct (H1 j false)].
Qed.

(** Job 0 is finished and job 1 is not: job 1 is tested and made before
    its run, and nothing is made after it. *)
Lemma jobs_made_before_witness :
  EvFinished 1 false
    ∈ take 27 (emitted (SISYPHOS.run Scenario.resumed)
                       (Scenario.stage Scenario.disk (-1)))
  ∧ EvNew 1
    ∈ take 27 (emitted (SISYPHOS.run Scenario.resumed)
                       (Scenario.stage Scenario.disk (-1)))
  ∧ (∀ j, EvNew j
          ∉ drop 28 (emitted (SISYPHOS.run Scenario.resumed)
                             (Scenario.stage Scenario.disk (-1))))
  ∧ (∀ j b, EvFinished j b
            ∉ drop 28 (emitted (SISYPHOS.run Scenario.resumed)
                               (Scenario.stage Scenario.disk (-1)))).
Proof.
  apply (jobs_made_before_any_runs Scenario.resumed
           (Scenario.stage Scenario.disk (-1))).
  vm_compute. reflexivity.
Defined.

Lemma read_options_io (env : Env) :
  adds (λ _ evs, Forall is_io evs) (read_options env).
Proof.
  unfold read_options.
  repeat first
    [ apply adds_for_each
    | apply adds_bind
    | by apply adds_ask
    | by apply adds_quiet
    | intros ].
Qed.

(** X11. When [init_sisy_jobs] raises, as it does when the construction
    of one job fails, [SISYPHOS.run] ends with that exception and runs
    no job at all, not even those whose workspace was made before. *)
Theorem failed_construction_runs_nothing (env : Env)
    (s s1 : Frame SISYPHOS.t unit)
    (s2 : Frame SISYPHOS.t (list BenchJob.t)) (e : exn) :
  read_options env s = (s1, Ok tt) →
  SISYPHOS.init_sisy_jobs env (listing s1) = (s2, Raise e) →
  (SISYPHOS.run env s).2 = Raise e
  ∧ world (SISYPHOS.run env s).1 = world s2
  ∧ ∀ i, EvRun i ∉ emitted (SISYPHOS.run env) s.
Proof.
  intros H1 H2.
  assert (SISYPHOS.run env s
          = (MkFrame (world s2) (self s2) (locals s1), Raise e)) as Hrun.
  { rewrite run_unfold. rewrite (bind_then _ _ _ _ _ H1).
    apply bind_raise. unfold invoke. fold (listing s1). by rewrite H2. }
  split; [by rewrite Hrun|]. split; [by rewrite Hrun|].
  intros i Hin.
  destruct (init_adds env (listing s1))
    as (tests & Ht & idxs & made & _ & Hc & _).
  rewrite H2 in Ht. simpl in Ht.
  destruct (checked_indices _ _ _ Hc) as (_ & _ & _ & Hnorun).
  assert (∃ pre, trace (world s1) = trace (world s) ++ pre
                 ∧ Forall is_io pre) as (pre & Hpre & Hio).
  { destruct (read_options_io env s) as (pre & Hpre & Hio).
    rewrite H1 in Hpre. by exists pre. }
  unfold emitted in Hin. rewrite Hrun in Hin. simpl in Hin.
  rewrite Ht, Hpre, <- app_assoc, drop_app_length in Hin.
  apply elem_of_app in Hin as [Hin|Hin]; [|by apply Hnorun in Hin].
  rewrite Forall_forall in Hio. by apply Hio in Hin.
Qed.

(** Without a model file in the data directory the first construction
    fails, and no job is run. *)
Lemma failed_construction_witness :
  (SISYPHOS.run (Scenario.sound "n/a")
     (Scenario.stage Scenario.disk_no_ins (-1))).2
  = Raise IndexError
  ∧ ∀ i, EvRun i ∉ emitted (SISYPHOS.run (Scenario.sound "n/a"))
                           (Scenario.stage Scenario.disk_no_ins (-1)).
Proof.
  destruct (failed_construction_runs_nothing (Scenario.sound "n/a")
              (Scenario.stage Scenario.disk_no_ins (-1))
              (read_options (Scenario.sound "n/a")
                 (Scenario.stage Scenario.disk_no_ins (-1))).1
              (SISYPHOS.init_sisy_jobs (Scenario.sound "n/a")
                 (listing (read_options (Scenario.sound "n/a")
                    (Scenario.stage Scenario.disk_no_ins (-1))).1)).1
              IndexError) as (Hr & _ & Hn).
  - vm_compute. reflexivity.
  - vm_compute. reflexivity.
  - split; [exact Hr|exact Hn].
Defined.


(* ===================================================================== *)
(** * What [setup_workspace] leaves alone *)
(* ===================================================================== *)

Global Instance spares_preorder (w : path) : PreOrder (spares w).
Proof.
  split.
  - intros f p _. by left.
  - intros f1 f2 f3 H12 H23 p Hp.
    destruct (H12 p Hp) as [H1|(H1 & H1' & Hw)];
      destruct (H23 p Hp) as [H2|(H2 & H2' & Hw')].
    + left. by rewrite H2.
    + right. rewrite <- H1. by repeat split.
    + right. rewrite H2. by repeat split.
    + congruence.
Qed.

Global Instance spared_preorder : PreOrder spared.
Proof.
  split.
  - intros o. split; [done|reflexivity].
  - intros o1 o2 o3 [Hw1 H1] [Hw2 H2]. split; [by rewrite Hw2|].
    rewrite Hw1 in H2. by etrans.
Qed.

Global Instance works_at_stable (w : path) : Stable (works_at w) spared.
Proof. intros o o' Ho [Hw _]. unfold works_at in *. by rewrite Hw. Qed.

(** The directories made on the way overwrite nothing. *)
Lemma mkdir_fold_old (p : path) (qs : list path) (f f1 : gmap path node) :
  [] ∉ qs →
  foldl (FS.mkdir p) (Ok f) qs = Ok f1 →
  ∀ r : path, f1 !! r = f !! r
              ∨ (f !! r = None ∧ f1 !! r = Some Dir ∧ r ∈ qs).
Proof.
  revert f. induction qs as [|q qs IH]; intros f Hne H r.
  - injection H as <-. by left.
  - apply not_elem_of_cons in Hne as [Hq Hne]. simpl in H.
    rewrite lookup_ne in H by done.
    destruct (f !! q) as [[c|]|] eqn:Hfq.
    + by rewrite mkdir_raise in H.
    + destruct (IH f Hne H r) as [Hr|(Hr & Hr' & Hin)]; [by left|].
      right. repeat split; [done..|by right].
    + destruct (IH _ Hne H r) as [Hr|(Hr & Hr' & Hin)].
      * destruct (decide (r = q)) as [->|Hrq].
        -- right. rewrite Hr, lookup_insert_eq. repeat split; [done..|by left].
        -- left. by rewrite Hr, lookup_insert_ne.
      * destruct (decide (r = q)) as [->|Hrq].
        -- by rewrite lookup_insert_eq in Hr.
        -- rewrite lookup_insert_ne in Hr by done. right.
           repeat split; [done..|by right].
Qed.

Lemma makedirs_spares (f f' : gmap path node) (w : path) :
  FS.makedirs f w = Ok f' → spares w f f'.
Proof.
  unfold FS.makedirs. destruct (FS.exists_ f w); [done|]. intros H p Hp.
  destruct (mkdir_fold_old w _ f f' (ancestors_ne w) H p)
    as [Hr|(Hr & Hr' & Hin)]; [by left|].
  right. repeat split; [done..|]. by apply ancestors_prefix.
Qed.

Lemma rmtree_spares (f f' : gmap path node) (w : path) :
  FS.rmtree f w = Ok f' → spares w f f'.
Proof. intros ->%rmtree_ok p Hp. left. by apply outside_kept. Qed.

Lemma copy_spares (f f' : gmap path node) (src w : path) :
  FS.copy f src w = Ok f' → spares w f f'.
Proof.
  unfold FS.copy. destruct (FS.lookup f src) as [[c|]|]; [|done..].
  destruct (bool_decide _); [done|]. intros [= <-] p Hp. left.
  apply lookup_insert_ne. intros <-. apply Hp.
  destruct (FS.isdir f w); [by apply prefix_app_r|done].
Qed.

Section Spared.
Context {L : Type} (w : path).
Local Abbreviation steps_w :=
  (steps (obs (Self := BenchJob.t) (L := L)) (works_at w) spared).

Lemma spared_read_self {A} (k : BenchJob.t → M (Frame BenchJob.t L) A) :
  (∀ me, BenchJob.work_path me = w → steps_w (k me)) →
  steps_w (bind get_self k).
Proof. intros H s Hs. by apply (H (self s) Hs s Hs). Qed.

Lemma spared_fs_try op :
  (∀ f f', op f = Ok f' → spares w f f') → steps_w (fs_try op).
Proof.
  intros H s Hs. unfold fs_try.
  destruct (op (fs (world s))) as [f'|e] eqn:Hop; [|reflexivity].
  split; [done|]. simpl. unfold works_at in Hs. simpl in Hs. rewrite Hs.
  by apply H.
Qed.

Lemma spared_set_ins_file mine :
  steps_w (modify_self (BenchJob.set_ins_file mine)).
Proof. intros s Hs. split; [done|reflexivity]. Qed.

Lemma setup_workspace_spared : steps_w BenchJob.setup_workspace.
Proof.
  steps_with
    ltac:(idtac; lazymatch goal with
          | |- steps obs _ _ (bind get_self _) =>
              apply spared_read_self; intros ? Hme
          | Hme : BenchJob.work_path ?me = _
            |- steps obs _ _ (fs_try (λ f, FS.makedirs f _)) =>
              rewrite Hme; apply spared_fs_try; intros ? ?;
              apply makedirs_spares
          | Hme : BenchJob.work_path ?me = _
            |- steps obs _ _ (fs_try (λ f, FS.rmtree f _)) =>
              rewrite Hme; apply spared_fs_try; intros ? ?;
              apply rmtree_spares
          | Hme : BenchJob.work_path ?me = _
            |- steps obs _ _ (fs_try (λ f, FS.copy f _ _)) =>
              rewrite Hme; apply spared_fs_try; intros ? ?;
              apply copy_spares
          | |- steps obs _ _ (modify_self (BenchJob.set_ins_file _)) =>
              apply spared_set_ins_file
          end).
Qed.
End Spared.

Lemma job_dir_apart (base : path) (i k : Z) (r : path) :
  k ≠ i →
  ¬ BenchJob.job_dir base i `prefix_of` BenchJob.job_dir base k ++ r
  ∧ ¬ BenchJob.job_dir base k ++ r `prefix_of` BenchJob.job_dir base i.
Proof.
  intros Hki. unfold BenchJob.job_dir.
  split; intros [t Ht]; rewrite <- !app_assoc in Ht;
    apply app_inv_head in Ht; simpl in Ht; injection Ht as Ht _;
    apply Hki;
    first [ change (pretty k = pretty i) in Ht
          | change (pretty i = pretty k) in Ht; symmetry in Ht ];
    by apply (inj pretty) in Ht.
Qed.

(** X12. Whether it returns or raises, [setup_workspace] spares what is
    outside of the directory of the job: a path that is not this
    directory or below it has what it had before, or it had nothing and
    is now one of the directories above. So the files of the data
    directory are as they were, and so is all of the directory of every
    other job of the same work path. *)
Theorem setup_workspace_spares_the_rest {L : Type}
    (s : Frame BenchJob.t L) :
  (∀ p : path,
     ¬ BenchJob.work_path (self s) `prefix_of` p →
     fs (world (BenchJob.setup_workspace s).1) !! p = fs (world s) !! p
     ∨ (fs (world s) !! p = None
        ∧ fs (world (BenchJob.setup_workspace s).1) !! p = Some Dir
        ∧ p `prefix_of` BenchJob.work_path (self s)))
  ∧ (∀ (k : Z) (r : path),
       BenchJob.work_path (self s)
       = BenchJob.job_dir (BenchJob.base_work_path (self s))
                          (BenchJob.id (self s)) →
       k ≠ BenchJob.id (self s) →
       fs (world (BenchJob.setup_workspace s).1)
         !! (BenchJob.job_dir (BenchJob.base_work_path (self s)) k ++ r)
       = fs (world s)
           !! (BenchJob.job_dir (BenchJob.base_work_path (self s)) k ++ r)).
Proof.
  destruct (setup_workspace_spared (BenchJob.work_path (self s)) s eq_refl)
    as [_ Hsp]. simpl in Hsp.
  split; [exact Hsp|]. intros k r Hw Hk.
  destruct (job_dir_apart (BenchJob.base_work_path (self s)) _ k r Hk)
    as [H1 H2].
  rewrite Hw in Hsp. by destruct (Hsp _ H1) as [H|(_ & _ & H)].
Qed.

(** The workspace of job 0 is made anew on the disk with leftovers:
    the reflection file of the data directory is as it was. *)
Lemma setup_spares_witness :
  fs (world (BenchJob.setup_workspace Scenario.used).1) !! ["data"; "x.hkl"]
  = Some (File "reflections").
Proof.
  destruct (proj1 (setup_workspace_spares_the_rest Scenario.used)
              ["data"; "x.hkl"]) as [H|(H & _)].
  - intros [t Ht]. vm_compute in Ht. discriminate.
  - etrans; [exact H|]. vm_compute. reflexivity.
  - vm_compute in H. discriminate.
Defined.


(* ===================================================================== *)
(** * The scan of the fields of the cif file *)
(* ===================================================================== *)

Section Fields.
Context (env : Env).
Implicit Types (s : Frame BenchJob.t BenchJob.cif_locals)
               (c : Z * string) (cs : list (Z * string)).

Lemma basic_body_unfold loc :
  BenchJob.basic_body env loc
  = (do lines <- ask (env_strs env) "open" [PyStr loc];
     do _ <- for_each lines (λ line,
               for_each (imap (λ i f, (Z.of_nat i, f)) BenchJob.corr_filts)
                        (field_step line));
     BenchJob.write_log "Basic cif extraction succesfull :)").
Proof. reflexivity. Qed.

Lemma field_step_number line x c k s :
  last_number line = Some x → py_index BenchJob.dat_names c.1 = Some k →
  field_step line c s
  = if PyStr.contains c.2 line
    then (MkFrame (world s) (self s)
            (BenchJob.set_out k (BenchJob.CifNum x) (locals s)), Ok tt)
    else (s, Ok tt).
Proof.
  unfold field_step, last_number, index, py_float. intros Hx Hk.
  destruct (PyStr.contains c.2 line); [|done].
  destruct (py_index (PyStr.split_ws line) (-1)) as [last|]; [|done].
  simpl in Hx. unfold bind, from_option. simpl. rewrite Hx, Hk. done.
Qed.

Lemma field_step_no_number line c s :
  last_number line = None →
  if PyStr.contains c.2 line
  then ∃ e, field_step line c s = (s, Raise e)
  else field_step line c s = (s, Ok tt).
Proof.
  unfold field_step, last_number, index, py_float. intros Hx.
  destruct (PyStr.contains c.2 line); [|done].
  destruct (py_index (PyStr.split_ws line) (-1)) as [last|];
    [|by eexists].
  simpl in Hx. unfold bind, from_option. simpl. rewrite Hx. by eexists.
Qed.

(** One line with a number: every marker it contains gets the number. *)
Lemma line_number line x cs s :
  last_number line = Some x →
  (∀ c, c ∈ cs → is_Some (py_index BenchJob.dat_names c.1)) →
  ∃ l',
    for_each cs (field_step line) s
    = (MkFrame (world s) (self s) l', Ok tt)
    ∧ (∀ k v, Dict.get k (BenchJob.out l') = Some v →
              Dict.get k (BenchJob.out (locals s)) = Some v
              ∨ (v = BenchJob.CifNum x
                 ∧ ∃ c, c ∈ cs ∧ PyStr.contains c.2 line = true
                        ∧ py_index BenchJob.dat_names c.1 = Some k))
    ∧ (∀ c k, c ∈ cs → PyStr.contains c.2 line = true →
              py_index BenchJob.dat_names c.1 = Some k →
              is_Some (Dict.get k (BenchJob.out l')))
    ∧ (∀ k, is_Some (Dict.get k (BenchJob.out (locals s))) →
            is_Some (Dict.get k (BenchJob.out l'))).
Proof.
  intros Hx. revert s. induction cs as [|c cs IH]; intros s Hcs.
  - exists (locals s). split; [by destruct s|]. split; [by left|].
    split; [by intros c k Hc%elem_of_nil|done].
  - destruct (Hcs c) as [k Hk]; [by left|].
    simpl. unfold bind at 1. rewrite (field_step_number line x c k s Hx Hk).
    destruct (PyStr.contains c.2 line) eqn:Hc.
    + destruct (IH (MkFrame (world s) (self s)
                      (BenchJob.set_out k (BenchJob.CifNum x) (locals s))))
        as (l' & Hloop & Hsound & Hcomplete & Hkeep).
      { intros c' Hc'. apply Hcs. by right. }
      exists l'. split; [exact Hloop|]. simpl in *. split; [|split].
      * intros k' v Hv. destruct (Hsound k' v Hv) as [H|(-> & c' & ? & ? & ?)].
        -- rewrite get_set in H. case_bool_decide as Hkk; [|by left].
           injection H as <-. subst k'. right. split; [done|].
           exists c. split; [by left|done].
        -- right. split; [done|]. exists c'. split; [by right|done].
      * intros c' k' [->|Hc']%elem_of_cons Hcont Hk'.
        -- apply Hkeep. rewrite get_set. rewrite Hk in Hk'.
           injection Hk' as ->. by rewrite bool_decide_eq_true_2.
        -- by apply (Hcomplete c').
      * intros k' Hk'. apply Hkeep. rewrite get_set.
        by case_bool_decide.
    + destruct (IH s) as (l' & Hloop & Hsound & Hcomplete & Hkeep).
      { intros c' Hc'. apply Hcs. by right. }
      exists l'. split; [exact Hloop|]. split; [|split; [|done]].
      * intros k' v Hv. destruct (Hsound k' v Hv) as [H|(-> & c' & ? & ? & ?)];
          [by left|].
        right. split; [done|]. exists c'. split; [by right|done].
      * intros c' k' [->|Hc']%elem_of_cons Hcont Hk'; [congruence|].
        by apply (Hcomplete c').
Qed.

(** One line without a number: nothing is stored, and the line raises
    when it contains a marker. *)
Lemma line_no_number line cs s :
  last_number line = None →
  if existsb (λ c, PyStr.contains c.2 line) cs
  then ∃ e, for_each cs (field_step line) s = (s, Raise e)
  else for_each cs (field_step line) s = (s, Ok tt).
Proof.
  intros Hx. induction cs as [|c cs IH]; [done|]. simpl. unfold bind.
  pose proof (field_step_no_number line c s Hx) as Hc.
  destruct (PyStr.contains c.2 line); simpl.
  - destruct Hc as [e ->]. by exists e.
  - by rewrite Hc.
Qed.
End Fields.

Lemma py_index_nat {A} (l : list A) (i : nat) :
  py_index l (Z.of_nat i) = l !! i.
Proof.
  unfold py_index.
  destruct (0 <=? Z.of_nat i) eqn:H0; [|apply Z.leb_gt in H0; lia].
  by rewrite Nat2Z.id.
Qed.

Lemma markers_named :
  ∀ c, c ∈ imap (λ i f, (Z.of_nat i, f)) BenchJob.corr_filts →
       is_Some (py_index BenchJob.dat_names c.1).
Proof.
  apply Forall_forall. unfold BenchJob.corr_filts. simpl.
  repeat (constructor; [by eexists|]). constructor.
Qed.

Lemma markers_marked line :
  existsb (λ c : Z * string, PyStr.contains c.2 line)
          (imap (λ i f, (Z.of_nat i, f)) BenchJob.corr_filts)
  = marked line.
Proof. reflexivity. Qed.

Lemma marker_index (c : Z * string) k :
  c ∈ imap (λ i f, (Z.of_nat i, f)) BenchJob.corr_filts →
  py_index BenchJob.dat_names c.1 = Some k →
  ∃ i : nat, BenchJob.corr_filts !! i = Some c.2
             ∧ BenchJob.dat_names !! i = Some k.
Proof.
  intros (i & f & -> & Hi)%elem_of_lookup_imap. simpl.
  rewrite py_index_nat. eauto.
Qed.

Lemma field_of_more line lines k v :
  field_of lines k v → field_of (line :: lines) k v.
Proof.
  intros (i & f & l & x & ? & ? & ? & ? & ? & ?).
  exists i, f, l, x. repeat split; try done. by right.
Qed.

(** The loop over the lines: it returns when every line is readable,
    and raises at the first that is not. *)
Lemma lines_scan lines (s : Frame BenchJob.t BenchJob.cif_locals) :
  ∃ s' r,
    for_each lines (λ line,
      for_each (imap (λ i f, (Z.of_nat i, f)) BenchJob.corr_filts)
               (field_step line)) s = (s', r)
    ∧ world s' = world s ∧ self s' = self s
    ∧ is_ok r = forallb readable lines
    ∧ (∀ k v, Dict.get k (BenchJob.out (locals s')) = Some v →
              Dict.get k (BenchJob.out (locals s)) = Some v
              ∨ field_of lines k v)
    ∧ (is_ok r = true →
       ∀ k v, field_of lines k v →
              is_Some (Dict.get k (BenchJob.out (locals s'))))
    ∧ (∀ k, is_Some (Dict.get k (BenchJob.out (locals s))) →
            is_Some (Dict.get k (BenchJob.out (locals s')))).
Proof.
  remember (imap (λ i f, (Z.of_nat i, f)) BenchJob.corr_filts) as cs0
    eqn:Hcs0.
  assert (∀ c, c ∈ cs0 → is_Some (py_index BenchJob.dat_names c.1))
    as Hnamed by (subst; apply markers_named).
  assert (∀ line, existsb (λ c : Z * string, PyStr.contains c.2 line) cs0
                  = marked line) as Hmarked by (by subst).
  assert (∀ c k, c ∈ cs0 → py_index BenchJob.dat_names c.1 = Some k →
                 ∃ i : nat, BenchJob.corr_filts !! i = Some c.2
                            ∧ BenchJob.dat_names !! i = Some k) as Hidx
    by (subst; apply marker_index).
  assert (∀ (i : nat) f, BenchJob.corr_filts !! i = Some f →
                         (Z.of_nat i, f) ∈ cs0) as Hin.
  { intros i f Hi. subst. apply elem_of_lookup_imap. by exists i, f. }
  clear Hcs0.
  revert s. induction lines as [|line lines IH]; intros s.
  { exists s, (Ok tt). repeat split; try done; [by left|].
    intros _ k v (? & ? & ? & ? & _ & _ & []%elem_of_nil & _). }
  cbn [for_each forallb]. unfold bind at 1, readable.
  destruct (last_number line) as [x|] eqn:Hx.
  - destruct (line_number line x cs0 s Hx Hnamed)
      as (l' & -> & Hsound & Hcomplete & Hkeep).
    destruct (IH (MkFrame (world s) (self s) l'))
      as (s' & r & -> & Hw & Hs & Hok & Hsound' & Hcomplete' & Hkeep').
    cbn [world self locals] in *. exists s', r. rewrite orb_true_r.
    cbn [andb].
    repeat split; try done.
    + intros k v Hv. destruct (Hsound' k v Hv) as [H|H].
      * destruct (Hsound k v H) as [?|(-> & c & Hc & Hcont & Hk)]; [by left|].
        right. destruct (Hidx c k Hc Hk) as (i & Hi & Hi').
        exists i, c.2, line, x. repeat split; try done. by left.
      * right. by apply field_of_more.
    + intros Hr k v (i & f & l & x' & Hi & Hi' & [->|Hl]%elem_of_cons
                     & Hcont & Hx' & ->).
      * apply Hkeep'. apply (Hcomplete (Z.of_nat i, f)); [by apply Hin|done|].
        cbn [fst]. by rewrite py_index_nat.
      * apply (Hcomplete' Hr k (BenchJob.CifNum x')).
        by exists i, f, l, x'.
    + intros k Hk. by apply Hkeep', Hkeep.
  - pose proof (line_no_number line cs0 s Hx) as Hline.
    rewrite Hmarked in Hline.
    destruct (marked line) eqn:Hm; cbn [negb orb andb].
    + destruct Hline as [e ->]. exists s, (Raise e).
      rewrite bool_decide_eq_false_2 by (by intros [? ?]).
      repeat split; try done. by left.
    + rewrite Hline.
      destruct (IH s)
        as (s' & r & -> & Hw & Hs & Hok & Hsound' & Hcomplete' & Hkeep').
      exists s', r. repeat split; try done.
      * intros k v Hv. destruct (Hsound' k v Hv) as [H|H]; [by left|].
        right. by apply field_of_more.
      * intros Hr k v (i & f & l & x' & Hi & Hi' & [->|Hl]%elem_of_cons
                       & Hcont & Hx' & ->); [congruence|].
        apply (Hcomplete' Hr k (BenchJob.CifNum x')).
        by exists i, f, l, x'.
Qed.

(** The scan of the fields on a file that can be read. *)
Lemma basic_scan_spec (env : Env) (loc : string)
    (s : Frame BenchJob.t BenchJob.cif_locals) (lines : list string) :
  env_strs env (world s) "open" [PyStr loc] = Ok lines →
  FS.content (fs (world (BenchJob.basic_scan env loc s).1))
             (BenchJob.log_path (self s))
  = FS.content (fs (world s)) (BenchJob.log_path (self s))
    +:+ (basic_verdict lines +:+ nl)
  ∧ (∀ k v,
       Dict.get k (BenchJob.out (locals (BenchJob.basic_scan env loc s).1))
       = Some v →
       Dict.get k (BenchJob.out (locals s)) = Some v ∨ field_of lines k v)
  ∧ (forallb readable lines = true →
     ∀ k v, field_of lines k v →
            is_Some (Dict.get k (BenchJob.out
                       (locals (BenchJob.basic_scan env loc s).1)))).
Proof.
  intros Hopen.
  destruct (lines_scan lines
              (MkFrame (add_event (EvCall "open" [PyStr loc]) (world s))
                       (self s) (locals s)))
    as (s' & r & Hloop & Hw & Hs & Hok & Hsound & Hcomplete & _).
  assert (BenchJob.basic_scan env loc s
          = BenchJob.write_log (basic_verdict lines) s') as ->.
  { unfold BenchJob.basic_scan, try_bare. rewrite basic_body_unfold.
    unfold bind at 1, ask. rewrite Hopen. unfold bind. rewrite Hloop.
    unfold basic_verdict. rewrite <- Hok. by destruct r as [[]|e]. }
  cbn [world self locals] in Hw, Hs, Hsound.
  assert (FS.content (fs (world (BenchJob.write_log (basic_verdict lines)
                                   s').1))
                     (BenchJob.log_path (self s))
          = FS.content (fs (world s)) (BenchJob.log_path (self s))
            +:+ (basic_verdict lines +:+ nl)
          ∧ locals (BenchJob.write_log (basic_verdict lines) s').1
            = locals s') as [-> ->].
  { unfold BenchJob.write_log, bind, get_self, modify_world.
    cbn [fst world self locals fs set_fs]. rewrite Hs, Hw. split; [|done].
    apply content_append. }
  split; [done|]. split; [done|]. intros Hall. apply Hcomplete.
  by rewrite Hok.
Qed.

(** X13. When the cif file can be read, the line that the scan of the
    fields leaves in the log says whether every line of the file was
    readable: it reports success when each line that contains one of
    the nine markers ends in a word that [float] accepts, and failure
    otherwise. A value the scan stores under a name is the number of a
    line that contains the marker of that name; on success every marker
    that occurs in the file has its name in the dictionary. *)
Theorem basic_scan_verdict (env : Env) (loc : string)
    (s : Frame BenchJob.t BenchJob.cif_locals) (lines : list string) :
  env_strs env (world s) "open" [PyStr loc] = Ok lines →
  FS.content (fs (world (BenchJob.basic_scan env loc s).1))
             (BenchJob.log_path (self s))
  = FS.content (fs (world s)) (BenchJob.log_path (self s))
    +:+ (basic_verdict lines +:+ nl)
  ∧ (∀ k v,
       Dict.get k (BenchJob.out (locals (BenchJob.basic_scan env loc s).1))
       = Some v →
       Dict.get k (BenchJob.out (locals s)) = Some v ∨ field_of lines k v)
  ∧ (forallb readable lines = true →
     ∀ k v, field_of lines k v →
            is_Some (Dict.get k (BenchJob.out
                       (locals (BenchJob.basic_scan env loc s).1)))).
Proof. apply basic_scan_spec. Qed.

(** The cif file of the sound engine has one marked line, with a
    number: the scan reports success. *)
Lemma basic_scan_witness :
  Scenario.read
    (BenchJob.basic_scan (Scenario.sound "n/a") "job.cif"
       (Scenario.at_work (BenchJob.CifLocals [] false)))
    (BenchJob.log_path Scenario.job)
  = "Basic cif extraction succesfull :)" +:+ nl.
Proof.
  etrans.
  - refine (proj1 (basic_scan_verdict (Scenario.sound "n/a") "job.cif"
                     (Scenario.at_work (BenchJob.CifLocals [] false))
                     [ "_refine_ls_R_factor_all 0.05" +:+ nl;
                       BenchJob.atom_header +:+ nl;
                       " O1 O 0.1 0.2 0.3 0.0123(4) Uani 1 d . . ." +:+ nl;
                       nl ] _)).
    vm_compute. reflexivity.
  - vm_compute. reflexivity.
Defined.


(* ===================================================================== *)
(** * The whole of the covariance matrix of the cell *)
(* ===================================================================== *)

Lemma entry_diag (errors : list float) (a b : nat) e :
  errors !! a = Some e → (b < length errors)%nat →
  BenchJob.entry (BenchJob.diag_pow2 errors) a b
  = Some (if bool_decide (a = b) then Float.mul e e else Float.zero).
Proof.
  intros Ha Hb. unfold BenchJob.entry, BenchJob.diag_pow2, BenchJob.matrix.
  rewrite list_lookup_imap, Ha. simpl.
  case_bool_decide as Hab.
  - subst b. apply list_lookup_insert_eq. by rewrite length_replicate.
  - rewrite list_lookup_insert_ne by done.
    change Float.zero with (Float.mul Float.zero Float.zero).
    by apply lookup_replicate_2.
Qed.

Lemma entry_diag_none (errors : list float) (a b : nat) :
  (length errors ≤ a)%nat ∨ (length errors ≤ b)%nat →
  BenchJob.entry (BenchJob.diag_pow2 errors) a b = None.
Proof.
  intros Hab. unfold BenchJob.entry, BenchJob.diag_pow2, BenchJob.matrix.
  rewrite list_lookup_imap.
  destruct (errors !! a) as [e|] eqn:Ha; [|done]. simpl.
  destruct Hab as [Hab|Hab].
  - apply lookup_ge_None_2 in Hab. congruence.
  - apply lookup_ge_None_2. by rewrite length_insert, length_replicate.
Qed.

(** [m[i, j] = v] changes the entry at [(i, j)] and no other. *)
Lemma set_entry_spec {S} (m m' : BenchJob.matrix) (i j : nat) v (s s' : S) :
  BenchJob.set_entry m i j v s = (s', Ok m') →
  s' = s
  ∧ ∀ a b, BenchJob.entry m' a b
           = if bool_decide (a = i ∧ b = j) then Some v
             else BenchJob.entry m a b.
Proof.
  unfold BenchJob.set_entry, BenchJob.matrix in *.
  destruct (m !! i) as [row|] eqn:Hrow; [|done].
  case_bool_decide as Hj; [|done]. intros [= <- <-]. split; [done|].
  intros a b. unfold BenchJob.entry, BenchJob.matrix.
  destruct (decide (a = i)) as [->|Hai].
  - rewrite list_lookup_insert_eq by (by eapply lookup_lt_Some).
    rewrite Hrow. simpl. destruct (decide (b = j)) as [->|Hbj].
    + rewrite bool_decide_eq_true_2 by done.
      by apply list_lookup_insert_eq.
    + rewrite bool_decide_eq_false_2 by tauto.
      by apply list_lookup_insert_ne.
  - rewrite list_lookup_insert_ne by done.
    by rewrite bool_decide_eq_false_2 by tauto.
Qed.

Lemma math_pow2_value {S} (env : Env) (x v : float) (s s' : S) :
  BenchJob.math_pow2 env x s = (s', Ok v) →
  s' = s ∧ v = BenchJob.pow2_value env x.
Proof.
  unfold BenchJob.math_pow2. simpl. destruct (_ && _).
  - by destruct (_ && _).
  - by intros [= <- <-].
Qed.

(** One turn of the loop: the matrix as it was, or with one value at
    [(i, j)] and at [(j, i)]. *)
Lemma correct_pair_spec {S} (env : Env) (cell_params cell_errors : list float)
    (m m' : BenchJob.matrix) (i j : Z) (s s' : S) :
  BenchJob.correct_pair env cell_params cell_errors m (i, j) s
  = (s', Ok m') →
  m' = m
  ∨ ∃ v, ∀ a b,
      BenchJob.entry m' a b
      = if bool_decide ((a = Z.to_nat i ∧ b = Z.to_nat j)
                        ∨ (a = Z.to_nat j ∧ b = Z.to_nat i))
        then Some v else BenchJob.entry m a b.
Proof.
  unfold BenchJob.correct_pair. intros H.
  apply bind_ok in H as (s1 & sym & _ & H). destruct sym.
  - apply bind_ok in H as (s2 & ei & Hei & H).
    apply bind_ok in H as (s3 & v & [-> ->]%math_pow2_value & H).
    apply bind_ok in H as (s4 & m1 & [-> Hm1]%set_entry_spec & H).
    apply bind_ok in H as (s5 & ei' & Hei' & H).
    assert (ei' = ei ∧ s5 = s2) as [-> ->].
    { revert Hei Hei'. unfold index.
      destruct (py_index cell_errors i); [|done].
      intros [= <- <-] [= <- <-]. done. }
    apply bind_ok in H as (s6 & v' & [-> ->]%math_pow2_value & H).
    apply set_entry_spec in H as [_ Hm']. right. exists (BenchJob.pow2_value env ei).
    intros a b. rewrite Hm', Hm1.
    repeat case_bool_decide; try done; tauto.
  - injection H as _ <-. by left.
Qed.

Lemma fold_pairs_spec {S} (env : Env) (cell_params cell_errors : list float)
    (pairs : list (Z * Z)) (m m' : BenchJob.matrix) (s s' : S) :
  (∀ ij, ij ∈ pairs → ij.1 ≠ ij.2 ∧ 0 ≤ ij.1 < 3 ∧ 0 ≤ ij.2 < 3) →
  BenchJob.fold_pairs env cell_params cell_errors pairs m s = (s', Ok m') →
  (∀ a b, BenchJob.entry m a b = BenchJob.entry m b a) →
  (∀ a b, BenchJob.entry m' a b = BenchJob.entry m' b a)
  ∧ (∀ a b, a = b ∨ (3 ≤ a)%nat ∨ (3 ≤ b)%nat →
            BenchJob.entry m' a b = BenchJob.entry m a b).
Proof.
  revert m s. induction pairs as [|[i j] pairs IH]; intros m s Hp H Hsym.
  - injection H as _ <-. by split.
  - simpl in H. apply bind_ok in H as (s1 & m1 & H1 & H).
    destruct (Hp (i, j)) as (Hij & Hi & Hj); [by left|]. simpl in *.
    assert ((∀ a b, BenchJob.entry m1 a b = BenchJob.entry m1 b a)
            ∧ (∀ a b, a = b ∨ (3 ≤ a)%nat ∨ (3 ≤ b)%nat →
                      BenchJob.entry m1 a b = BenchJob.entry m a b))
      as [Hsym1 Hrest1].
    { apply correct_pair_spec in H1 as [->|[v Hv]]; [by split|]. split.
      - intros a b. rewrite !Hv, Hsym.
        repeat case_bool_decide; try done; tauto.
      - intros a b Hab. rewrite Hv. case_bool_decide as Hc; [|done].
        lia. }
    destruct (IH m1 s1) as [Hsym' Hrest']; [|done..|].
    { intros ij Hin. apply Hp. by right. }
    split; [done|]. intros a b Hab. by rewrite Hrest', Hrest1.
Qed.

(** X14. Whenever the loop over the axes gives a covariance matrix, the
    matrix is symmetric, so that its packed upper triangle loses
    nothing; its diagonal holds the squares of the uncertainties; and
    every entry off the diagonal that involves an angle is zero: only
    the three entries between two lengths can be filled by the
    symmetry rule. *)
Theorem cell_covariance_shape {S} (env : Env)
    (cell_params cell_errors : list float) (s s' : S) (m : BenchJob.matrix) :
  BenchJob.cell_vcv env cell_params cell_errors s = (s', Ok m) →
  (∀ a b, BenchJob.entry m a b = BenchJob.entry m b a)
  ∧ (∀ a e, cell_errors !! a = Some e →
            BenchJob.entry m a a = Some (Float.mul e e))
  ∧ (∀ a b, a ≠ b → (3 ≤ a)%nat ∨ (3 ≤ b)%nat →
            (a < length cell_errors)%nat → (b < length cell_errors)%nat →
            BenchJob.entry m a b = Some Float.zero).
Proof.
  unfold BenchJob.cell_vcv. intros H.
  apply fold_pairs_spec in H as [Hsym Hrest].
  - split; [done|]. split.
    + intros a e Ha. rewrite Hrest by (by left).
      rewrite (entry_diag _ a a e Ha) by (by eapply lookup_lt_Some).
      by rewrite bool_decide_eq_true_2.
    + intros a b Hab H3 Ha Hb. rewrite Hrest by (by right).
      destruct (lookup_lt_is_Some_2 cell_errors a Ha) as [e He].
      rewrite (entry_diag _ a b e He Hb).
      by rewrite bool_decide_eq_false_2.
  - unfold BenchJob.axis_pairs. intros ij Hin.
    repeat (apply elem_of_cons in Hin as [->|Hin]; [simpl; lia|]).
    by apply elem_of_nil in Hin.
  - intros a b.
    destruct (decide (a < length cell_errors)%nat) as [Ha|Ha];
      [destruct (decide (b < length cell_errors)%nat) as [Hb|Hb]|].
    + destruct (lookup_lt_is_Some_2 cell_errors a Ha) as [ea Hea].
      destruct (lookup_lt_is_Some_2 cell_errors b Hb) as [eb Heb].
      rewrite (entry_diag _ a b ea Hea Hb), (entry_diag _ b a eb Heb Ha).
      repeat case_bool_decide; try done; congruence.
    + rewrite !entry_diag_none; [done|left; lia|right; lia].
    + rewrite !entry_diag_none; [done|right; lia|left; lia].
Qed.

(** The cell with a = b = 5.0(1), c = 7.0(2): the entry between a and
    b is filled on both sides, the diagonal has the squares. *)
Lemma cell_covariance_shape_witness :
  ∃ m, BenchJob.cell_vcv (Scenario.sound "n/a")
         (Scenario.num <$> ["5.0"; "5.0"; "7.0"; "90"; "90"; "90"])
         (Scenario.num <$> ["0.01"; "0.01"; "0.02"; "0"; "0"; "0"]) tt
       = (tt, Ok m)
     ∧ BenchJob.entry m 1 0 = BenchJob.entry m 0 1
     ∧ BenchJob.entry m 2 2
       = Some (Float.mul (Scenario.num "0.02") (Scenario.num "0.02"))
     ∧ BenchJob.entry m 0 3 = Some Float.zero.
Proof.
  eexists. split; [vm_compute; reflexivity|].
  match goal with
  | |- BenchJob.entry ?m _ _ = _ ∧ _ =>
      destruct (cell_covariance_shape (Scenario.sound "n/a")
                  (Scenario.num <$> ["5.0"; "5.0"; "7.0"; "90"; "90"; "90"])
                  (Scenario.num <$> ["0.01"; "0.01"; "0.02"; "0"; "0"; "0"])
                  tt tt m) as (Hsym & Hdiag & Hzero)
  end.
  - vm_compute. reflexivity.
  - split; [apply Hsym|]. split.
    + apply (Hdiag 2%nat). vm_compute. reflexivity.
    + apply (Hzero 0%nat 3%nat); [done|right; lia|simpl; lia..].
Defined.


(* ===================================================================== *)
(** * A workspace without a cif file *)
(* ===================================================================== *)

Ltac keeps_rules :=
  idtac;
  lazymatch goal with
  | |- steps locals _ _ (modify_locals _) =>
      apply locals_modify_locals; intros ? ?; reflexivity
  end.

Section NoCif.
Context (env : Env).
Implicit Types s : Frame BenchJob.t BenchJob.locals.

Lemma cell_block_keeps :
  steps locals any (keeps BenchJob.cif_stats) (BenchJob.cell_block env).
Proof. steps_with keeps_rules. Qed.

Lemma hkl_block_keeps :
  steps locals any (keeps BenchJob.cif_stats) (BenchJob.hkl_block env).
Proof. steps_with keeps_rules. Qed.

Lemma set_defaults_keeps :
  steps locals any (keeps BenchJob.cif_stats) BenchJob.set_defaults.
Proof. steps_with keeps_rules. Qed.

Lemma propagation_keeps :
  steps locals any (keeps BenchJob.cif_stats) (BenchJob.propagation env).
Proof. steps_with keeps_rules. Qed.

Lemma kept_cif {A} (m : M (Frame BenchJob.t BenchJob.locals) A) s s1 r :
  steps locals any (keeps BenchJob.cif_stats) m → m s = (s1, r) →
  BenchJob.cif_stats (locals s1) = BenchJob.cif_stats (locals s).
Proof. intros Hm Heq. specialize (Hm s I). by rewrite Heq in Hm. Qed.

(** The lookup of the cif file finds nothing: the block assigns
    nothing. *)
Lemma cif_block_empty s :
  (∀ w args, env_strs env w "glob.glob" args = Ok []) →
  BenchJob.cif_stats (locals (BenchJob.cif_block env s).1)
  = BenchJob.cif_stats (locals s).
Proof.
  intros Hglob. unfold BenchJob.cif_block, try_except, BenchJob.cif_body,
    bind, get_self, ask. by rewrite Hglob.
Qed.

(** The results are written from [cif_stats]. *)
Lemma write_results_needs s s' :
  BenchJob.write_results env s = (s', Ok tt) →
  is_Some (BenchJob.cif_stats (locals s)).
Proof.
  unfold BenchJob.write_results. intros H.
  apply bind_ok in H as (? & me & [= <- <-] & H).
  apply bind_ok in H as (s1 & [] & H1 & H).
  apply bind_ok in H as (s2 & [] & H2 & H).
  apply bind_ok in H as (s3 & [] & H3 & H).
  apply bind_ok in H as (? & l & [= <- <-] & H).
  apply bind_ok in H as (s4 & [] & _ & H).
  apply bind_ok in H as (s5 & [] & _ & H).
  apply bind_ok in H as (s6 & [] & _ & H).
  apply bind_ok in H as (s7 & [] & _ & H).
  apply bind_ok in H as (s8 & cif & H8 & _).
  assert (locals s3 = locals s) as <-.
  { assert (∀ A (m : M (Frame BenchJob.t BenchJob.locals) A),
              steps locals any eq m → ∀ a b r, m a = (b, r) →
              locals b = locals a) as Hkept.
    { intros A m Hm a b r Heq. specialize (Hm a I). by rewrite Heq in Hm. }
    apply Hkept in H3; [|steps_tac]. apply Hkept in H2; [|steps_tac].
    apply Hkept in H1; [|steps_tac]. congruence. }
  unfold from_option in H8. by destruct (BenchJob.cif_stats (locals s3)).
Qed.

Lemma extraction_needs_cif s :
  (∀ w args, env_strs env w "glob.glob" args = Ok []) →
  BenchJob.cif_stats (locals s) = None →
  is_ok (BenchJob.extract_info env s).2 = false.
Proof.
  intros Hglob Hnone.
  destruct (BenchJob.extract_info env s) as [s' [[]|e]] eqn:H; [|done].
  exfalso. unfold BenchJob.extract_info in H.
  apply bind_ok in H as (s1 & [] & H1 & H).
  apply bind_ok in H as (s2 & [] & H2 & H).
  apply bind_ok in H as (s3 & [] & H3 & H).
  apply bind_ok in H as (s4 & [] & H4 & H).
  apply bind_ok in H as (s5 & [] & H5 & H).
  apply write_results_needs in H as [cif Hcif].
  rewrite (kept_cif _ _ _ _ propagation_keeps H5) in Hcif.
  rewrite (kept_cif _ _ _ _ set_defaults_keeps H4) in Hcif.
  pose proof (cif_block_empty s2 Hglob) as Hc. rewrite H3 in Hc.
  simpl in Hc. rewrite Hc in Hcif.
  rewrite (kept_cif _ _ _ _ hkl_block_keeps H2) in Hcif.
  rewrite (kept_cif _ _ _ _ cell_block_keeps H1) in Hcif.
  congruence.
Qed.
End NoCif.

Section NoMarker.
Context (env : Env) {L : Type}.

Lemma run_refinement_appended :
  steps (obs (L := L)) any appended (BenchJob.run_refinement env).
Proof. steps_with appended_rules. Qed.

Lemma extract_info_appended :
  steps obs any appended (BenchJob.extract_info env).
Proof. steps_with appended_rules. Qed.
End NoMarker.

(** X15. When the lookup of the cif file finds nothing, [extract_info]
    cannot return: the failure of the lookup is caught, but the results
    are then written from [cif_stats], which was never assigned. So
    [run] creates no done marker for the job, and when it returns, the
    last thing it printed is the message of the failure and the log
    ends with the line of the failure. *)
Theorem missing_cif_leaves_no_marker (env : Env) {L : Type}
    (r : Frame BenchJob.t L) :
  (∀ w args, env_strs env w "glob.glob" args = Ok []) →
  (∀ s : Frame BenchJob.t BenchJob.locals,
     BenchJob.cif_stats (locals s) = None →
     is_ok (BenchJob.extract_info env s).2 = false)
  ∧ fs (world (BenchJob.run env r).1) !! BenchJob.done_path (self r)
    = fs (world r) !! BenchJob.done_path (self r)
  ∧ ((BenchJob.run env r).2 = Ok tt →
     last (trace (world (BenchJob.run env r).1))
     = Some (EvPrint "Faield to extract information")
     ∧ ∃ logged,
         FS.content (fs (world (BenchJob.run env r).1))
                    (BenchJob.log_path (self r))
         = FS.content (fs (world r)) (BenchJob.log_path (self r))
           +:+ logged +:+ ("Failed to extract information!" +:+ nl)).
Proof.
  intros Hglob. split; [intros s; by apply extraction_needs_cif|].
  pose proof (run_refinement_effects env r I) as He1.
  pose proof (run_refinement_appended env r I) as Ha1.
  destruct (BenchJob.run_refinement env r) as [r1 res1] eqn:H1.
  destruct res1 as [[]|e].
  2:{ assert (BenchJob.run env r = (r1, Raise e)) as ->.
      { unfold BenchJob.run, bind. by rewrite H1. }
      apply effects_done in He1 as [_ He1]. by split. }
  set (s1 := MkFrame (world r1) (self r1) BenchJob.no_locals).
  pose proof (extract_info_any env s1 I) as He2.
  pose proof (extract_info_appended env s1 I) as Ha2.
  pose proof (extraction_needs_cif env s1 Hglob eq_refl) as Hraise.
  destruct (BenchJob.extract_info env s1) as [s2 res2] eqn:H2.
  destruct res2 as [[]|e]; [done|]. clear Hraise.
  assert (BenchJob.run env r
          = (MkFrame
               (set_fs (λ f, FS.append f (BenchJob.log_path (self s2))
                               ("Failed to extract information!" +:+ nl))
                  (add_event (EvPrint "Faield to extract information")
                             (world s2)))
               (self s2) (locals r1), Ok tt)) as ->.
  { unfold BenchJob.run, bind. rewrite H1.
    unfold BenchJob.run_extraction, bind, try_bare, invoke.
    fold s1. by rewrite H2. }
  cbn [fst snd world self locals fs trace set_fs add_event] in *.
  apply effects_done in He1 as [Hp1 Hf1].
  apply effects_done in He2 as [Hp2 Hf2]. simpl in Hp1, Hf1, Hp2, Hf2.
  destruct Ha1 as [Hw1 Ha1]. destruct Ha2 as [Hw2 Ha2].
  simpl in Hw1, Ha1, Hw2, Ha2.
  assert (BenchJob.log_path (self s2) = BenchJob.log_path (self r)) as Hlog.
  { unfold BenchJob.log_path. by rewrite Hw2, Hw1. }
  split.
  - unfold FS.append. rewrite lookup_insert_ne.
    + by rewrite <- Hp1, Hf2, Hp1, Hf1.
    + rewrite Hlog. unfold BenchJob.log_path, BenchJob.done_path.
      by intros [=]%(inj (app _)).
  - intros _. split; [apply last_snoc|].
    destruct (Ha1 "out.log") as [t1 Ht1]; [by left|].
    destruct (Ha2 "out.log") as [t2 Ht2]; [by left|].
    exists (t1 +:+ t2). rewrite Hlog, content_append.
    fold (BenchJob.log_path (self r1)) in Ht2.
    fold (BenchJob.log_path (self r)) in Ht1.
    assert (BenchJob.log_path (self r1) = BenchJob.log_path (self r)) as Hlog1.
    { unfold BenchJob.log_path. by rewrite Hw1. }
    rewrite Hlog1 in Ht2. rewrite Ht2, Ht1. by rewrite !string_app_assoc.
Qed.

(** On the engine that finds no cif file the run of the job returns
    and leaves no marker. *)
Lemma missing_cif_witness :
  (BenchJob.run Scenario.no_cif (Scenario.at_work tt)).2 = Ok tt
  ∧ fs (world (BenchJob.run Scenario.no_cif (Scenario.at_work tt)).1)
      !! BenchJob.done_path Scenario.job = None.
Proof.
  split; [vm_compute; reflexivity|].
  etrans.
  - refine (proj1 (proj2 (missing_cif_leaves_no_marker Scenario.no_cif
                            (Scenario.at_work tt) _))).
    intros w args. vm_compute. reflexivity.
  - vm_compute. reflexivity.
Defined.


(* ===================================================================== *)
(** * A failure in the propagation of uncertainties (C2) *)
(* ===================================================================== *)

Global Instance same_rfactors_preorder : PreOrder same_rfactors.
Proof.
  split.
  - by intros l.
  - intros l1 l2 l3 (?&?&?) (?&?&?). unfold same_rfactors.
    by repeat split; etrans.
Qed.

Section Propagation.
Context (env : Env).
Implicit Types s : Frame BenchJob.t BenchJob.locals.

Lemma prop_build_locals :
  steps locals any eq (BenchJob.prop_build env).
Proof. steps_tac. Qed.

Lemma prop_covariance_locals :
  steps locals any eq (BenchJob.prop_covariance env).
Proof. steps_tac. Qed.

Lemma prop_distances_rfactors sl packed :
  steps locals any same_rfactors (BenchJob.prop_distances env sl packed).
Proof. steps_tac. Qed.
End Propagation.

(** The covariance matrix cannot be retrieved: the exception is caught,
    [extract_info] returns, and the results file has the R factors that
    were computed before, 0.05, 0.04 and 0.12, with empty bond tables. *)
Lemma propagation_partial_outputs :
  (BenchJob.extract_info (Scenario.failing Scenario.covariance)
     (Scenario.at_work BenchJob.no_locals)).2 = Ok tt
  ∧ (BenchJob.prop_body (Scenario.failing Scenario.covariance)
       (BenchJob.set_defaults (Scenario.at_work BenchJob.no_locals)).1).2
    = Raise (Scenario.boom Scenario.covariance)
  ∧ ¬ outputs_default
        (locals (BenchJob.extract_info (Scenario.failing Scenario.covariance)
                   (Scenario.at_work BenchJob.no_locals)).1)
  ∧ Scenario.read
      (BenchJob.extract_info (Scenario.failing Scenario.covariance)
         (Scenario.at_work BenchJob.no_locals))
      (BenchJob.results_path Scenario.job)
    = results_block ""
        "TotalReflections:100,"
        ("a:False,b:False,c:False,alpha:False,beta:False,gamma:False,"
         +:+ "volume:False,Z:False,Zprime:False,")
        "R_all:0.05,O1_ueq:(0.0123, 4),"
        ("max_peak:False,max_hole:False,res_rms:False,goof:False,"
         +:+ "max_shift_over_esd:False,hooft_str:False,")
        "R1_all:0.05,R1_gt:0.04,wR2:0.12,cycles:0,time:0.0,"
        "" "" "False" "0".
Proof.
  split; [by vm_compute|]. split; [by vm_compute|]. split; [|by vm_compute].
  intros (H & _). by vm_compute in H.
Qed.

Section Failure.
Context (env : Env).
Implicit Types s : Frame BenchJob.t BenchJob.locals.

(** [extract_info] returns: so did the part before the propagation, the
    propagation and the writing of the results. *)
Lemma extract_info_split s s' :
  BenchJob.extract_info env s = (s', Ok tt) →
  ∃ s4 s5,
    before_propagation env s = (s4, Ok tt)
    ∧ BenchJob.propagation env s4 = (s5, Ok tt)
    ∧ BenchJob.write_results env s5 = (s', Ok tt).
Proof.
  intros H. unfold BenchJob.extract_info in H.
  apply bind_ok in H as (s1 & [] & H1 & H).
  apply bind_ok in H as (s2 & [] & H2 & H).
  apply bind_ok in H as (s3 & [] & H3 & H).
  apply bind_ok in H as (s4 & [] & H4 & H).
  apply bind_ok in H as (s5 & [] & H5 & H).
  exists s4, s5. split; [|done].
  unfold before_propagation, bind. by rewrite H1, H2, H3.
Qed.

(** The propagation is entered with the derived quantities at their
    defaults. *)
Lemma before_propagation_defaults s s4 :
  before_propagation env s = (s4, Ok tt) → outputs_default (locals s4).
Proof.
  intros H. unfold before_propagation in H.
  apply bind_ok in H as (s1 & [] & _ & H).
  apply bind_ok in H as (s2 & [] & _ & H).
  apply bind_ok in H as (s3 & [] & _ & H).
  injection H as <-. by repeat split.
Qed.

Lemma before_propagation_quiet s :
  wrote "" s (before_propagation env s).1.
Proof. apply quiet_wrote; steps_tac. Qed.

Lemma prop_body_quiet s : wrote "" s (BenchJob.prop_body env s).1.
Proof. apply quiet_wrote; steps_tac. Qed.

Lemma propagation_quiet s : wrote "" s (BenchJob.propagation env s).1.
Proof. apply quiet_wrote; steps_tac. Qed.

Lemma write_results_effects :
  steps obs any (effects is_io (λ n, n = "results.txt"))
        (BenchJob.write_results env).
Proof. steps_tac. Qed.

(** The values of the R factors once they are computed are those of
    the state in which the propagation stops. *)
Lemma prop_body_rfactors s s1 s2 :
  BenchJob.prop_build env s = (s1, Ok tt) →
  BenchJob.prop_rfactors env s1 = (s2, Ok tt) →
  same_rfactors (locals s2) (locals (BenchJob.prop_body env s).1).
Proof.
  intros Hbuild Hrf. unfold BenchJob.prop_body, bind.
  rewrite Hbuild, Hrf.
  pose proof (prop_covariance_locals env s2 I) as Hc.
  destruct (BenchJob.prop_covariance env s2) as [s3 [c|e]]; simpl in Hc.
  2:{ by rewrite Hc. }
  pose proof (prop_distances_rfactors env c.1 c.2 s3 I) as Hd.
  by rewrite Hc.
Qed.
End Failure.

(** C2, as the code has it. A step of the propagation raises an
    [Exception] in an [extract_info] that then returns. The exception
    is printed, then the line that no uncertainties could be obtained;
    both are logged; and nothing is reset: the results file grows by
    one block whose derived quantities are those of the moment the step
    raised. When the step is the building of the normal equations,
    these are the defaults, the three R factors written as 0.0 and both
    bond tables empty; when the R factors were computed before the
    step, the results have the values computed, whatever failed after
    them. *)
Theorem propagation_failure_keeps_assigned (env : Env)
    (s s4 s5 s' : Frame BenchJob.t BenchJob.locals) (cls msg : string) :
  before_propagation env s = (s4, Ok tt) →
  BenchJob.prop_body env s4 = (s5, Raise (Exc cls msg)) →
  BenchJob.extract_info env s = (s', Ok tt) →
  (∃ rest,
     trace (world s')
     = trace (world s5)
       ++ [ EvPrint msg;
            EvPrint ("Could not obtain cctbx object and calculate ESDs!"
                     +:+ nl) ]
       ++ rest)
  ∧ FS.content (fs (world s')) (BenchJob.log_path (self s))
    = FS.content (fs (world s5)) (BenchJob.log_path (self s))
      +:+ (msg +:+ nl) +:+ ("Failed to extract distances" +:+ nl)
  ∧ (∃ (vals : list pyval) (weight npd : pyval),
       length vals = length BenchJob.refine_keys
       ∧ FS.content (fs (world s')) (BenchJob.results_path (self s))
         = FS.content (fs (world s)) (BenchJob.results_path (self s))
           +:+ results_block
                 (nos_section (self s))
                 (items py_str (BenchJob.hkl_stats (locals s5)))
                 (items py_str (BenchJob.cell_stats (locals s5)))
                 (items BenchJob.cif_str
                    (default [] (BenchJob.cif_stats (locals s5))))
                 (items py_str (zip BenchJob.refine_keys vals))
                 (rfactor_line (self s) (locals s5))
                 (items Float.repr (BenchJob.dist_stats (locals s5)))
                 (items Float.repr
                    (bond_errors (BenchJob.dist_stats (locals s5))
                                 (BenchJob.dist_errs (locals s5))))
                 (py_str weight) (py_str npd))
  ∧ (∀ s1 e,
       BenchJob.prop_build env s4 = (s1, Raise e) →
       rfactor_line (self s) (locals s5)
       = "R1_all:0.0,R1_gt:0.0,wR2:0.0,cycles:"
         +:+ py_str (BenchJob.cycles_needed (self s))
         +:+ ",time:" +:+ py_str (BenchJob.time_needed (self s)) +:+ ","
       ∧ BenchJob.dist_stats (locals s5) = []
       ∧ BenchJob.dist_errs (locals s5) = [])
  ∧ (∀ s1 s2,
       BenchJob.prop_build env s4 = (s1, Ok tt) →
       BenchJob.prop_rfactors env s1 = (s2, Ok tt) →
       same_rfactors (locals s2) (locals s5)).
Proof.
  intros Hbefore Hbody H.
  destruct (extract_info_split env s s' H) as (s4' & s5' & Hb & Hprop & Hw).
  rewrite Hbefore in Hb. injection Hb as <-.
  pose proof (before_propagation_quiet env s) as W0. rewrite Hbefore in W0.
  pose proof (prop_body_quiet env s4) as W1. rewrite Hbody in W1.
  pose proof (propagation_quiet env s4) as W2. rewrite Hprop in W2.
  simpl in W0, W1, W2.
  destruct W0 as [Hself4 Hres0]. destruct W1 as [Hself5 _].
  assert (trace (world s5')
          = trace (world s5)
            ++ [ EvPrint msg;
                 EvPrint ("Could not obtain cctbx object and calculate ESDs!"
                          +:+ nl) ]
          ∧ fs (world s5')
            = FS.append
                (FS.append (fs (world s5)) (BenchJob.log_path (self s5))
                           (msg +:+ nl))
                (BenchJob.log_path (self s5))
                ("Failed to extract distances" +:+ nl)
          ∧ self s5' = self s5 ∧ locals s5' = locals s5)
    as (Htrace & Hlog & Hself5' & Hlocals).
  { unfold BenchJob.propagation, try_except in Hprop.
    rewrite Hbody in Hprop. injection Hprop as <-. simpl.
    by rewrite <- app_assoc. }
  pose proof (write_results_effects env s5' I) as (_ & (rest & Hrest & _) & Hfs).
  rewrite Hw in Hrest, Hfs. simpl in Hrest, Hfs.
  destruct (write_results_wrote env s5' s' Hw)
    as (vals & weight & npd & Hlen & _ & Hres).
  destruct W2 as [_ Hres2].
  rewrite Hself5', Hself5, Hself4 in Hres, Hfs.
  rewrite Hself4 in Hres2. rewrite Hself5, Hself4 in Hlog.
  rewrite Hlocals in Hres.
  split; [|split; [|split; [|split]]].
  - exists rest. by rewrite Hrest, Htrace, <- app_assoc.
  - transitivity (FS.content (fs (world s5')) (BenchJob.log_path (self s))).
    + unfold FS.content. rewrite Hfs; [done|]. intros name -> Heq.
      by apply (inj (λ l, BenchJob.work_path (self s) ++ l)) in Heq.
    + by rewrite Hlog, !content_append, string_app_assoc.
  - exists vals, weight, npd. split; [done|].
    by rewrite Hres, Hres2, Hres0, !string_app_nil_r.
  - intros s1 e Hbuild.
    assert (s5 = s1) as ->.
    { unfold BenchJob.prop_body, bind in Hbody. rewrite Hbuild in Hbody.
      by injection Hbody as <-. }
    pose proof (prop_build_locals env s4 I) as Hl. rewrite Hbuild in Hl.
    simpl in Hl.
    destruct (before_propagation_defaults env s s4 Hbefore)
      as (Ha & Hg & Hr & Hd & He).
    rewrite <- Hl. split; [|done].
    unfold rfactor_line. by rewrite Ha, Hg, Hr.
  - intros s1 s2 Hbuild Hrf.
    pose proof (prop_body_rfactors env s4 s1 s2 Hbuild Hrf) as Hsame.
    by rewrite Hbody in Hsame.
Qed.

(** The normal equations cannot be built: the failure is printed and
    the results are written from the defaults. *)
Lemma propagation_failure_witness :
  (∃ rest,
     trace (world (BenchJob.extract_info (Scenario.failing "fmr.run")
                     (Scenario.at_work BenchJob.no_locals)).1)
     = trace (world (BenchJob.prop_body (Scenario.failing "fmr.run")
                       (before_propagation (Scenario.failing "fmr.run")
                          (Scenario.at_work BenchJob.no_locals)).1).1)
       ++ [ EvPrint "fmr.run failed";
            EvPrint ("Could not obtain cctbx object and calculate ESDs!"
                     +:+ nl) ]
       ++ rest)
  ∧ rfactor_line Scenario.job
      (locals (BenchJob.prop_body (Scenario.failing "fmr.run")
                 (before_propagation (Scenario.failing "fmr.run")
                    (Scenario.at_work BenchJob.no_locals)).1).1)
    = "R1_all:0.0,R1_gt:0.0,wR2:0.0,cycles:0,time:0.0,".
Proof.
  pose proof (propagation_failure_keeps_assigned (Scenario.failing "fmr.run")
                (Scenario.at_work BenchJob.no_locals)
                (before_propagation (Scenario.failing "fmr.run")
                   (Scenario.at_work BenchJob.no_locals)).1
                (BenchJob.prop_body (Scenario.failing "fmr.run")
                   (before_propagation (Scenario.failing "fmr.run")
                      (Scenario.at_work BenchJob.no_locals)).1).1
                (BenchJob.extract_info (Scenario.failing "fmr.run")
                   (Scenario.at_work BenchJob.no_locals)).1
                "RuntimeError" "fmr.run failed") as H.
  destruct H as (Hprint & _ & _ & Hbuild & _).
  - vm_compute. reflexivity.
  - vm_compute. reflexivity.
  - vm_compute. reflexivity.
  - split; [exact Hprint|].
    destruct (Hbuild
                (BenchJob.prop_build (Scenario.failing "fmr.run")
                   (before_propagation (Scenario.failing "fmr.run")
                      (Scenario.at_work BenchJob.no_locals)).1).1
                (Scenario.boom "fmr.run")) as (Hline & _).
    + vm_compute. reflexivity.
    + etrans; [exact Hline|]. vm_compute. reflexivity.
Defined.


(* ===================================================================== *)
(** * The guards of the extraction (C3) *)
(* ===================================================================== *)


(** The workspace holds no cif file: the failure is caught and logged,
    but the results are written from a variable that was never assigned;
    [extract_info] raises with the results file cut short. *)
Lemma missing_cif_cuts_results :
  (BenchJob.extract_info Scenario.no_cif
     (Scenario.at_work BenchJob.no_locals)).2
  = Raise (Exc "UnboundLocalError"
             "local variable 'cif_stats' referenced before assignment")
  ∧ Scenario.read
      (BenchJob.extract_info Scenario.no_cif
         (Scenario.at_work BenchJob.no_locals))
      (BenchJob.results_path Scenario.job)
    = ("NoSpherA2_Dict:" +:+ nl)
      +:+ (nl +:+ "Stats-GetHklStat:" +:+ nl) +:+ "TotalReflections:100,"
      +:+ (nl +:+ "Cell-Stats:" +:+ nl)
      +:+ ("a:False,b:False,c:False,alpha:False,beta:False,gamma:False,"
           +:+ "volume:False,Z:False,Zprime:False,")
      +:+ (nl +:+ "CIF-stats:" +:+ nl).
Proof. by vm_compute. Qed.

Section Guards.
Context (env : Env).







End Guards.

Section Onward.
Context (env : Env).
Implicit Types s : Frame BenchJob.t BenchJob.locals.

















(** ** The scans of the cif file *)






End Onward.




(* ===================================================================== *)
(** * A bond without its uncertainty *)
(* ===================================================================== *)

Lemma get_elem {V} (d : pydict V) k v :
  Dict.get k d = Some v → (k, v) ∈ d.
Proof.
  induction d as [|[k0 v0] d IH]; [done|]. simpl.
  case_bool_decide as Hk.
  - intros [= ->]. subst. by left.
  - intros H. right. by apply IH.
Qed.

Section Bonds.
Context (env : Env).
Implicit Types s : Frame BenchJob.t BenchJob.locals.

Lemma kept_locals {A} (m : M (Frame BenchJob.t BenchJob.locals) A) s s1 r :
  steps locals any eq m → m s = (s1, r) → locals s1 = locals s.
Proof. intros Hm Heq. specialize (Hm s I). by rewrite Heq in Hm. Qed.

(** The loop of the section of the uncertainties returns only when
    every bond has one. *)
Lemma bond_errors_loop (stats : pydict float) (errs : pydict float) s s' :
  for_each stats (λ kv,
    do e <- from_option (Dict.get kv.1 errs)
              (Exc "KeyError" ("'" +:+ kv.1 +:+ "'"));
    BenchJob.out_write (kv.1 +:+ ":" +:+ Float.repr e +:+ ",")) s
  = (s', Ok tt) →
  ∀ kv, kv ∈ stats → is_Some (Dict.get kv.1 errs).
Proof.
  revert s. induction stats as [|kv0 stats IH]; intros s H kv Hin.
  - by apply elem_of_nil in Hin.
  - simpl in H. apply bind_ok in H as (s1 & [] & H1 & H).
    apply elem_of_cons in Hin as [->|Hin]; [|by eapply IH].
    apply bind_ok in H1 as (s0 & e & H0 & _).
    unfold from_option in H0. by destruct (Dict.get kv0.1 errs).
Qed.

Lemma write_results_bonds s s' :
  BenchJob.write_results env s = (s', Ok tt) →
  ∀ kv, kv ∈ BenchJob.dist_stats (locals s) →
        is_Some (Dict.get kv.1 (BenchJob.dist_errs (locals s))).
Proof.
  unfold BenchJob.write_results. intros H.
  apply bind_ok in H as (? & me & [= <- <-] & H).
  apply bind_ok in H as (s1 & [] & H1 & H).
  apply bind_ok in H as (s2 & [] & H2 & H).
  apply bind_ok in H as (s3 & [] & H3 & H).
  apply bind_ok in H as (? & l & [= <- <-] & H).
  assert (locals s3 = locals s) as Hl.
  { apply kept_locals in H3; [|steps_tac].
    apply kept_locals in H2; [|steps_tac].
    apply kept_locals in H1; [|steps_tac]. congruence. }
  rewrite Hl in H.
  do 12 (apply bind_ok in H as (? & ? & _ & H)).
  apply bind_ok in H as (sa & [] & Hloop & _).
  exact (bond_errors_loop _ _ _ _ Hloop).
Qed.
End Bonds.

(** X16. A negative variance stops the loop over the distances between
    its two tables: [math.sqrt] raises, and the bond has its distance
    and no uncertainty. With such a bond the results file cannot be
    written to its end: [write_results], and with it [extract_info],
    does not return. *)
Theorem bond_without_uncertainty (env : Env) :
  (∀ (sl : list string) (i a b : Z) (la lb : string) (d v : float)
     (s : Frame BenchJob.t BenchJob.locals),
     py_index sl a = Some la → py_index sl b = Some lb →
     env_float env (world s) "distances.distances" [PyInt i] = Ok d →
     env_float env
       (add_event (EvCall "distances.distances" [PyInt i]) (world s))
       "distances.variances" [PyInt i] = Ok v →
     Float.ltb v Float.zero = true →
     (BenchJob.bond_step env sl (i, Ok (a, b)) s).2
     = Raise (Exc "ValueError" "math domain error")
     ∧ Dict.get (la +:+ "-" +:+ lb)
         (BenchJob.dist_stats
            (locals (BenchJob.bond_step env sl (i, Ok (a, b)) s).1))
       = Some d
     ∧ BenchJob.dist_errs
         (locals (BenchJob.bond_step env sl (i, Ok (a, b)) s).1)
       = BenchJob.dist_errs (locals s))
  ∧ (∀ (s : Frame BenchJob.t BenchJob.locals) (bond : string),
       is_Some (Dict.get bond (BenchJob.dist_stats (locals s))) →
       Dict.get bond (BenchJob.dist_errs (locals s)) = None →
       is_ok (BenchJob.write_results env s).2 = false).
Proof.
  split.
  - intros sl i a b la lb d v s Ha Hb Hd Hv Hneg.
    unfold BenchJob.bond_step, bind, index, from_option, ask,
      modify_locals, BenchJob.math_sqrt. simpl.
    rewrite Ha, Hb. simpl. rewrite Hd. simpl. rewrite Hv, Hneg. simpl.
    split; [done|]. split; [|done].
    rewrite get_set. by rewrite bool_decide_eq_true_2.
  - intros s bond [d Hd] Hnone.
    destruct (BenchJob.write_results env s) as [s' [[]|e]] eqn:H; [|done].
    exfalso. apply get_elem in Hd.
    destruct (write_results_bonds env s s' H _ Hd) as [e He].
    simpl in He. congruence.
Qed.

(** On the engine with negative variances the extraction of the job
    ends with the key error of the bond. *)
Lemma bond_without_uncertainty_witness :
  (BenchJob.extract_info Scenario.negative_variance
     (Scenario.at_work BenchJob.no_locals)).2
  = Raise (Exc "KeyError" "'O1-H1'")
  ∧ is_ok (BenchJob.write_results Scenario.negative_variance
             (BenchJob.propagation Scenario.negative_variance
                (BenchJob.set_defaults
                   (BenchJob.cif_block Scenario.negative_variance
                      (BenchJob.hkl_block Scenario.negative_variance
                         (BenchJob.cell_block Scenario.negative_variance
                            (Scenario.at_work BenchJob.no_locals)).1).1).1
                ).1).1).2
    = false.
Proof.
  split; [vm_compute; reflexivity|].
  apply (proj2 (bond_without_uncertainty Scenario.negative_variance) _
           "O1-H1").
  - vm_compute. by eexists.
  - vm_compute. reflexivity.
Defined.


(* ===================================================================== *)
(** * Reading [def.txt] *)
(* ===================================================================== *)

Section Split.
Context (sep : ascii).
Implicit Types l cur : list ascii.

Lemma split_on_go_first l cur :
  is_Some (PyStr.split_on_go sep l cur !! 0%nat).
Proof.
  revert cur. induction l as [|c l IH]; intros cur; simpl; [by eexists|].
  destruct (Ascii.eqb c sep); [by eexists|apply IH].
Qed.

(** There is a second piece when the separator occurs, and only then. *)
Lemma split_on_go_second l cur :
  is_Some (PyStr.split_on_go sep l cur !! 1%nat) ↔ sep ∈ l.
Proof.
  revert cur. induction l as [|c l IH]; intros cur; simpl.
  - split; [by intros [? [=]]|by intros ?%elem_of_nil].
  - destruct (Ascii.eqb c sep) eqn:Hc.
    + apply Ascii.eqb_eq in Hc as ->. simpl. split; [by left|].
      intros _. apply split_on_go_first.
    + apply Ascii.eqb_neq in Hc. rewrite IH, elem_of_cons.
      split; [by right|]. intros [Heq|Hin]; [congruence|done].
Qed.

(** The pieces of a text whose first separator comes after [k]. *)
Lemma split_on_go_app k rest cur :
  sep ∉ k →
  PyStr.split_on_go sep (k ++ sep :: rest) cur
  = implode (reverse cur ++ k) :: PyStr.split_on_go sep rest [].
Proof.
  revert cur. induction k as [|c k IH]; intros cur Hk; simpl.
  - by rewrite Ascii.eqb_refl, app_nil_r.
  - apply not_elem_of_cons in Hk as [Hc Hk].
    assert (Ascii.eqb c sep = false) as -> by (apply Ascii.eqb_neq; congruence).
    rewrite IH by done. by rewrite reverse_cons, <- app_assoc.
Qed.

Lemma split_on_go_none v cur :
  sep ∉ v → PyStr.split_on_go sep v cur = [implode (reverse cur ++ v)].
Proof.
  revert cur. induction v as [|c v IH]; intros cur Hv; simpl.
  - by rewrite app_nil_r.
  - apply not_elem_of_cons in Hv as [Hc Hv].
    assert (Ascii.eqb c sep = false) as -> by (apply Ascii.eqb_neq; congruence).
    rewrite IH by done. by rewrite reverse_cons, <- app_assoc.
Qed.
End Split.

Lemma implode_explode (s : string) : implode (explode s) = s.
Proof. apply Strings.String.string_of_list_ascii_of_string. Qed.

Lemma step_legible (d : pydict string) (line : string) :
  is_ok (DefTxt.step d line) = legible line
  ∧ ∀ e, DefTxt.step d line = Raise e → e = IndexError.
Proof.
  unfold DefTxt.step, legible, significant, has_equals.
  destruct (bool_decide (DefTxt.strip line = EmptyString)
            || PyStr.startswith (DefTxt.strip line) "#"); [done|].
  simpl. unfold PyStr.split_on.
  pose proof (split_on_go_second "=" (explode (DefTxt.strip line)) [])
    as Hsecond.
  pose proof (split_on_go_first "=" (explode (DefTxt.strip line)) [])
    as [k Hk].
  change (py_index ?l 1) with (l !! 1%nat).
  change (py_index ?l 0) with (l !! 0%nat). rewrite Hk.
  destruct (PyStr.split_on_go "=" (explode (DefTxt.strip line)) [] !! 1%nat)
    as [v|]; simpl.
  - split; [|done]. symmetry. apply bool_decide_eq_true. apply Hsecond.
    by eexists.
  - split; [|by intros e [= <-]]. symmetry. apply bool_decide_eq_false.
    intros Hin%Hsecond. by destruct Hin.
Qed.

Lemma loop_legible (l : list string) (d : pydict string) :
  is_ok (DefTxt.loop l d) = forallb legible l
  ∧ ∀ e, DefTxt.loop l d = Raise e → e = IndexError.
Proof.
  revert d. induction l as [|line l IH]; intros d; simpl; [done|].
  destruct (step_legible d line) as [Hok Hraise]. rewrite <- Hok.
  destruct (DefTxt.step d line) as [d'|e]; simpl.
  - apply IH.
  - split; [done|]. intros e' [= <-]. by apply Hraise.
Qed.

(** X17. The lines of [def.txt] are read into the dictionary exactly
    when each of them, stripped, is blank, starts with a hash, or has an
    equals sign; the first line that is none of these ends the import
    with an index error. In a line that is read, the key is what
    precedes the first equals sign and the value what lies between the
    first and the second, both stripped: what follows a second equals
    sign is dropped. The import then goes on exactly when the file
    could be opened, the keys p_name, p_htm, p_img and p_scope are
    there, and [eval] gives a value for the text of p_img. *)
Theorem def_txt_is_read (l : list string) :
  is_ok (DefTxt.d l) = forallb legible l
  ∧ (∀ e, DefTxt.d l = Raise e → e = IndexError)
  ∧ (∀ (d : pydict string) (line : string) (k v more : list ascii),
       significant line = true →
       explode (DefTxt.strip line) = k ++ "="%char :: v ++ more →
       "="%char ∉ k → "="%char ∉ v →
       more = [] ∨ (∃ rest, more = "="%char :: rest) →
       DefTxt.step d line
       = Ok (Dict.set (DefTxt.strip (implode k)) (DefTxt.strip (implode v))
                      d))
  ∧ (∀ eval : string → result pyval,
       is_ok (DefTxt.load eval (Ok l))
       = match DefTxt.d l with
         | Ok d =>
             Dict.has "p_name" d && Dict.has "p_htm" d
             && match Dict.get "p_img" d with
                | Some text => is_ok (eval text)
                | None => false
                end
             && Dict.has "p_scope" d
         | Raise _ => false
         end)
  ∧ (∀ eval e, DefTxt.load eval (Raise e) = Raise e).
Proof.
  split; [apply loop_legible|]. split; [apply loop_legible|].
  split; [|split; [|done]].
  - intros d line k v more Hsig Hline Hk Hv Hmore.
    unfold DefTxt.step. unfold significant in Hsig.
    apply negb_true_iff in Hsig. rewrite Hsig.
    unfold PyStr.split_on. rewrite Hline.
    rewrite (split_on_go_app "=" k (v ++ more) [] Hk). simpl.
    assert (∃ tail, PyStr.split_on_go "=" (v ++ more) []
                    = implode v :: tail) as [tail ->].
    { destruct Hmore as [->|[rest ->]].
      - rewrite app_nil_r, split_on_go_none by done. by eexists.
      - rewrite split_on_go_app by done. by eexists. }
    done.
  - intros eval. unfold DefTxt.load, DefTxt.item, Dict.has.
    destruct (DefTxt.d l) as [d|e]; [|done]. simpl.
    destruct (Dict.get "p_name" d); simpl; [|done].
    destruct (Dict.get "p_htm" d); simpl; [|done].
    destruct (Dict.get "p_img" d) as [text|]; simpl; [|done].
    destruct (eval text); simpl; [|done].
    by destruct (Dict.get "p_scope" d).
Qed.

(** A file with a comment, a blank line, and a value with a second
    equals sign. *)
Lemma def_txt_witness :
  DefTxt.d [ "# names" +:+ nl; "p_name = SISYPHOS" +:+ nl; nl;
             "p_htm=a=b" +:+ nl ]
  = Ok [("p_name", "SISYPHOS"); ("p_htm", "a")]
  ∧ DefTxt.step [] ("p_htm=a=b" +:+ nl) = Ok [("p_htm", "a")].
Proof.
  split; [vm_compute; reflexivity|].
  etrans.
  - apply (proj1 (proj2 (proj2 (def_txt_is_read [])))
             [] ("p_htm=a=b" +:+ nl)
             (explode "p_htm") (explode "a") (explode "=b")).
    + vm_compute. reflexivity.
    + vm_compute. reflexivity.
    + vm_compute. intros H. repeat (apply elem_of_cons in H as [[=]|H]).
      by apply elem_of_nil in H.
    + vm_compute. intros H. repeat (apply elem_of_cons in H as [[=]|H]).
      by apply elem_of_nil in H.
    + right. by eexists.
  - vm_compute. reflexivity.
Defined.


(* ===================================================================== *)
(** * The dictionary of [parse_cif] *)
(* ===================================================================== *)

Global Instance atoms_added_preorder : PreOrder atoms_added.
Proof.
  split.
  - intros l. split; [by left|done].
  - intros l1 l2 l3 [H12 K12] [H23 K23]. split.
    + intros k v Hv. destruct (H23 k v Hv) as [H|H]; [|by right].
      by apply H12.
    + intros k Hk. by rewrite K23, K12.
Qed.

Global Instance fields_added_preorder : PreOrder fields_added.
Proof.
  split.
  - intros l k v Hv. by left.
  - intros l1 l2 l3 H12 H23 k v Hv.
    destruct (H23 k v Hv) as [H|H]; [|by right]. by apply H12.
Qed.

(** No name of a field is the key of a displacement. *)
Lemma explode_app (a b : string) : explode (a +:+ b) = explode a ++ explode b.
Proof. induction a as [|c a IH]; [done|]. simpl. by rewrite IH. Qed.

Lemma is_prefix_app p l : PyStr.is_prefix p (p ++ l) = true.
Proof.
  induction p as [|c p IH]; [done|]. simpl. by rewrite Ascii.eqb_refl, IH.
Qed.

Lemma ueq_key_ends (atom : string) :
  PyStr.endswith (atom +:+ "_ueq") "_ueq" = true.
Proof.
  unfold PyStr.endswith. rewrite explode_app, reverse_app.
  apply is_prefix_app.
Qed.

Lemma field_not_ueq (k atom : string) :
  k ∈ BenchJob.dat_names → k ≠ atom +:+ "_ueq".
Proof.
  intros Hk ->. pose proof (ueq_key_ends atom) as Hend.
  unfold BenchJob.dat_names in Hk.
  repeat (apply elem_of_cons in Hk as [Hk|Hk];
          [rewrite Hk in Hend; by vm_compute in Hend|]).
  by apply elem_of_nil in Hk.
Qed.

Section Shape.
Context (env : Env).
Implicit Types s : Frame BenchJob.t BenchJob.cif_locals.

Lemma set_ueq_added atom x d (l : BenchJob.cif_locals) :
  atoms_added l
    (BenchJob.set_out (atom +:+ "_ueq") (BenchJob.CifUeq x d) l).
Proof.
  split.
  - intros k v. simpl. rewrite get_set. case_bool_decide as Hk.
    + intros [= <-]. right. by exists atom, x, d.
    + by left.
  - intros k Hk. simpl. rewrite get_set.
    rewrite bool_decide_eq_false_2; [done|].
    intros Heq. by apply (field_not_ueq k atom).
Qed.

Lemma extended_scan_added loc :
  steps locals any atoms_added (BenchJob.extended_scan env loc).
Proof.
  steps_with
    ltac:(idtac; lazymatch goal with
          | |- steps locals _ _ (modify_locals (BenchJob.set_switch2 _)) =>
              apply locals_modify_locals; intros ? ?;
              split; [by left|done]
          | |- steps locals _ _ (modify_locals (BenchJob.set_out _ _)) =>
              apply locals_modify_locals; intros ? ?; apply set_ueq_added
          end).
Qed.

Lemma field_of_field lines k v : field_of lines k v → is_field k v.
Proof.
  intros (i & f & line & x & _ & Hk & _ & _ & _ & ->). split.
  - by eapply list_elem_of_lookup_2.
  - by exists x.
Qed.

Lemma basic_scan_added loc s :
  fields_added (locals s) (locals (BenchJob.basic_scan env loc s).1).
Proof.
  destruct (env_strs env (world s) "open" [PyStr loc]) as [lines|e] eqn:Hopen.
  - destruct (basic_scan_spec env loc s lines Hopen) as (_ & Hsound & _).
    intros k v Hv. destruct (Hsound k v Hv) as [H|H]; [by left|].
    right. by eapply field_of_field.
  - unfold BenchJob.basic_scan, try_bare. rewrite basic_body_unfold.
    unfold bind at 1, ask. rewrite Hopen. simpl. by intros k v; left.
Qed.
End Shape.

(** X18. The dictionary [parse_cif] returns holds nothing but numbers
    under the nine names of the fields and displacements, with the
    digits of their uncertainty, under keys made of a label and _ueq.
    The scan of the atom block never touches a field: under each of the
    nine names the dictionary has what the scan of the fields left. *)
Theorem parse_cif_dictionary (env : Env) (loc : string)
    (s : Frame BenchJob.t BenchJob.cif_locals) (d : pydict BenchJob.cifval) :
  (BenchJob.parse_cif env loc s).2 = Ok d →
  (∀ k v, Dict.get k d = Some v → is_field k v ∨ is_ueq k v)
  ∧ (∀ k, k ∈ BenchJob.dat_names →
          Dict.get k d
          = Dict.get k
              (BenchJob.out
                 (locals
                    (BenchJob.basic_scan env loc
                       (MkFrame (world s) (self s)
                          (BenchJob.CifLocals []
                             (BenchJob.switch2 (locals s))))).1))).
Proof.
  unfold BenchJob.parse_cif, bind at 1, modify_locals.
  set (s0 := MkFrame (world s) (self s)
               (BenchJob.CifLocals [] (BenchJob.switch2 (locals s)))).
  pose proof (basic_scan_added env loc s0) as Hfields.
  unfold bind at 1.
  destruct (BenchJob.basic_scan env loc s0) as [s1 r1]. simpl in Hfields.
  destruct r1 as [[]|e]; [|done].
  pose proof (extended_scan_added env loc s1 I) as [Hatoms Hkept].
  unfold bind at 1.
  destruct (BenchJob.extended_scan env loc s1) as [s2 r2].
  simpl in Hatoms, Hkept. destruct r2 as [[]|e]; [|done].
  intros [= <-]. split; [|exact Hkept].
  intros k v Hv. destruct (Hatoms k v Hv) as [H|H]; [|by right].
  destruct (Hfields k v H) as [H0|H0]; [done|by left].
Qed.

(** The cif file of the sound engine: one field and one atom. *)
Lemma parse_cif_dictionary_witness :
  (BenchJob.parse_cif (Scenario.sound "n/a") "job.cif"
     (Scenario.at_work (BenchJob.CifLocals [] false))).2
  = Ok [ ("R_all", BenchJob.CifNum (Scenario.num "0.05"));
         ("O1_ueq", BenchJob.CifUeq (Scenario.num "0.0123") 4) ]
  ∧ (is_field "O1_ueq" (BenchJob.CifUeq (Scenario.num "0.0123") 4)
     ∨ is_ueq "O1_ueq" (BenchJob.CifUeq (Scenario.num "0.0123") 4)).
Proof.
  assert ((BenchJob.parse_cif (Scenario.sound "n/a") "job.cif"
             (Scenario.at_work (BenchJob.CifLocals [] false))).2
          = Ok [ ("R_all", BenchJob.CifNum (Scenario.num "0.05"));
                 ("O1_ueq", BenchJob.CifUeq (Scenario.num "0.0123") 4) ])
    as H by (vm_compute; reflexivity).
  split; [exact H|].
  apply (proj1 (parse_cif_dictionary _ _ _ _ H) "O1_ueq").
  vm_compute. reflexivity.
Defined.


(* ===================================================================== *)
(** * The order of the runs *)
(* ===================================================================== *)

Lemma io_no_marks evs :
  Forall is_io evs → omap run_mark evs = [] ∧ omap new_mark evs = [].
Proof.
  induction 1 as [|e evs He _ [IH1 IH2]]; [done|].
  by destruct e.
Qed.

Lemma checked_marks idxs evs made :
  checked idxs evs made →
  omap run_mark evs = [] ∧ omap new_mark evs `sublist_of` idxs.
Proof.
  induction 1 as [idxs|i idxs|i idxs|i idxs evs made _ [IH1 IH2]
                  |i idxs evs made _ [IH1 IH2]]; simpl.
  - split; [done|apply sublist_nil_l].
  - split; [done|apply sublist_nil_l].
  - split; [done|]. apply sublist_skip, sublist_nil_l.
  - split; [done|]. by apply sublist_cons.
  - split; [done|]. by apply sublist_skip.
Qed.

Section Order.
Context (env : Env).

(** The run of a job: its mark, then calls of the host and lines. *)
Lemma job_run_marks {L} (s : Frame BenchJob.t L) :
  ∃ rest,
    trace (world (BenchJob.run env s).1)
    = trace (world s) ++ EvRun (BenchJob.id (self s)) :: rest
    ∧ Forall is_io rest.
Proof.
  set (s1 := MkFrame (add_event (EvRun (BenchJob.id (self s))) (world s))
               (self s) (locals s)).
  assert (BenchJob.run env s
          = bind (bind (BenchJob.refine env)
                       (λ _, BenchJob.write_log_header "Finished Refinement"))
                 (λ _, BenchJob.run_extraction env) s1) as ->
    by reflexivity.
  assert (steps (obs (L := L)) any (effects is_io any)
            (bind (bind (BenchJob.refine env)
                        (λ _, BenchJob.write_log_header "Finished Refinement"))
                  (λ _, BenchJob.run_extraction env))) as Hm.
  { steps_with
      ltac:(idtac; lazymatch goal with
            | |- steps obs _ _ (bind get_self (λ me, modify_world _)) =>
                apply steps_read_self; intros s' _;
                by apply (effects_file _ _ "done" (File "") s')
            end). }
  destruct (Hm s1 I) as (_ & (rest & Ht & Hio) & _). exists rest.
  split; [|done]. simpl in Ht. rewrite Ht. by rewrite <- app_assoc.
Qed.

(** The loop over the jobs: each job that is reached is run once, in
    the order of the list. *)
Lemma run_jobs_marks jobs (s : Frame SISYPHOS.t unit) :
  ∃ evs,
    trace (world (run_jobs env jobs s).1) = trace (world s) ++ evs
    ∧ omap new_mark evs = []
    ∧ omap run_mark evs `prefix_of` (BenchJob.id <$> jobs)
    ∧ ((run_jobs env jobs s).2 = Ok tt →
       omap run_mark evs = BenchJob.id <$> jobs).
Proof.
  revert s. induction jobs as [|j jobs IH]; intros s.
  { exists []. rewrite app_nil_r. by repeat split. }
  unfold run_jobs. cbn [for_each]. fold (run_jobs env jobs).
  unfold bind, print, emit, modify_world, invoke_on.
  cbn [fst snd world self locals].
  set (sj := MkFrame (add_event (EvPrint (SISYPHOS.banner (BenchJob.id j)))
                        (world s)) j tt).
  destruct (job_run_marks sj) as (rest & Ht & Hio).
  destruct (io_no_marks rest Hio) as [Hr Hn].
  destruct (BenchJob.run env sj) as [s2 [[]|e]];
    cbn [fst snd world self locals ret raise] in *.
  - destruct (IH (MkFrame (world s2) (self s) (locals s)))
      as (evs & Ht' & Hn' & Hp & Hok).
    exists ([EvPrint (SISYPHOS.banner (BenchJob.id j));
             EvRun (BenchJob.id j)] ++ rest ++ evs).
    rewrite !omap_app, Hr, Hn, Hn'.
    split; [|split; [|split]].
    + rewrite Ht'. cbn [world]. rewrite Ht. subst sj.
      cbn [world self trace add_event]. by rewrite <- !app_assoc.
    + done.
    + by apply prefix_cons.
    + intros H. by rewrite (Hok H).
  - exists ([EvPrint (SISYPHOS.banner (BenchJob.id j));
             EvRun (BenchJob.id j)] ++ rest).
    rewrite !omap_app, Hr, Hn.
    split; [|split; [|split]].
    + rewrite Ht. subst sj. cbn [world self trace add_event].
      by rewrite <- !app_assoc.
    + done.
    + apply prefix_cons, prefix_nil.
    + done.
Qed.

(** The loop over the configurations, when it returns: the jobs made
    are the jobs appended, in order. *)
Lemma loop_new_marks cs (s s' : Frame SISYPHOS.t (list BenchJob.t)) :
  for_each cs (SISYPHOS.batch_step env) s = (s', Ok tt) →
  ∃ evs new,
    trace (world s') = trace (world s) ++ evs
    ∧ locals s' = locals s ++ new
    ∧ omap new_mark evs = BenchJob.id <$> new.
Proof.
  revert s. induction cs as [|c cs IH]; intros s.
  { intros [= <-]. exists [], []. by rewrite !app_nil_r. }
  cbn [for_each]. intros H. apply bind_ok in H as (s1 & [] & H1 & H).
  pose proof (batch_step_spec env c s) as Hstep. rewrite H1 in Hstep.
  apply IH in H as (evs & new & Ht & Hl & Hm).
  destruct Hstep as [[Ht1 Hl1]|(j & Ht1 & Hl1 & Hid)].
  - eexists _, new. split; [|split].
    + rewrite Ht, Ht1, <- app_assoc. reflexivity.
    + by rewrite Hl, Hl1.
    + by rewrite omap_app, Hm.
  - eexists _, (j :: new). split; [|split].
    + rewrite Ht, Ht1, <- app_assoc. reflexivity.
    + by rewrite Hl, Hl1, <- app_assoc.
    + rewrite omap_app, Hm. simpl. by rewrite Hid.
Qed.

Lemma init_new_marks (s s' : Frame SISYPHOS.t (list BenchJob.t)) jobs :
  SISYPHOS.init_sisy_jobs env s = (s', Ok jobs) →
  ∃ evs, trace (world s') = trace (world s) ++ evs
         ∧ omap new_mark evs = BenchJob.id <$> jobs.
Proof.
  unfold SISYPHOS.init_sisy_jobs. intros H.
  apply bind_ok in H as (? & me & [= <- <-] & H).
  apply bind_ok in H as (s1 & file & H1 & H).
  unfold SISYPHOS.SisyphosBenchmarkFile in H1.
  destruct (env_jobs env (world s) (SISYPHOS.work_path (self s)))
    as [file'|e]; [|done].
  injection H1 as <- <-.
  destruct (negb (SISYPHOS.sisy_job_idx (self s) =? -1)).
  - apply bind_ok in H as (s2 & finished & H2 & H).
    assert (trace (world s2)
            = trace (world s)
              ++ [EvFinished (SISYPHOS.sisy_job_idx (self s)) finished])
      as Ht2.
    { revert H2. unfold SISYPHOS.is_finished.
      destruct (env_finished env (world s) _); [|done]. by intros [= <- <-]. }
    destruct finished.
    + apply bind_ok in H as (s3 & [] & [= <-] & [= <- <-]).
      eexists. split; [cbn [world trace add_event]; rewrite Ht2,
                         <- app_assoc; reflexivity|done].
    + apply bind_ok in H as (s3 & cfg & H3 & H).
      unfold index, from_option in H3.
      destruct (py_index file' (SISYPHOS.sisy_job_idx (self s)))
        as [cfg'|]; [|done].
      injection H3 as <- <-.
      apply bind_ok in H as (s4 & j & H4 & [= <- <-]).
      apply new_job_spec in H4 as (Ht4 & _ & Hid).
      eexists. split; [rewrite Ht4, Ht2, <- app_assoc; reflexivity|].
      simpl. by rewrite (Hid j).
  - apply bind_ok in H as (s2 & [] & [= <-] & H).
    apply bind_ok in H as (s3 & [] & H3 & [= <- <-]).
    apply loop_new_marks in H3 as (evs & new & Ht & Hl & Hm).
    cbn [world locals app] in *. exists evs. split; [done|].
    by rewrite Hl.
Qed.

Lemma init_marks (s : Frame SISYPHOS.t (list BenchJob.t)) :
  ∃ evs,
    trace (world (SISYPHOS.init_sisy_jobs env s).1) = trace (world s) ++ evs
    ∧ omap run_mark evs = []
    ∧ NoDup (omap new_mark evs)
    ∧ ∀ jobs, (SISYPHOS.init_sisy_jobs env s).2 = Ok jobs →
              omap new_mark evs = BenchJob.id <$> jobs.
Proof.
  destruct (init_adds env s) as (evs & Ht & idxs & made & Hnd & Hc & _).
  destruct (checked_marks _ _ _ Hc) as [Hr Hsub].
  exists evs. split; [done|]. split; [done|].
  split; [by eapply sublist_NoDup|].
  intros jobs Hjobs.
  destruct (SISYPHOS.init_sisy_jobs env s) as [s' r] eqn:H.
  cbn [fst snd] in *. subst r.
  apply init_new_marks in H as (evs' & Ht' & Hm).
  rewrite Ht in Ht'. apply app_inv_head in Ht'. by subst evs'.
Qed.
Lemma run_marks (s : Frame SISYPHOS.t unit) :
  ∃ evs,
    trace (world (SISYPHOS.run env s).1) = trace (world s) ++ evs
    ∧ omap run_mark evs `prefix_of` omap new_mark evs
    ∧ NoDup (omap new_mark evs)
    ∧ ((SISYPHOS.run env s).2 = Ok tt →
       omap run_mark evs = omap new_mark evs).
Proof.
  destruct (SISYPHOS.run env s) as [s' r] eqn:Hrun. cbn [fst snd].
  rewrite run_unfold in Hrun.
  destruct (read_options_io env s) as (pre & Hpre & Hio).
  destruct (io_no_marks pre Hio) as [Hpr Hpn].
  unfold bind at 1 in Hrun.
  destruct (read_options env s) as [s1 [[]|e]]; cbn [fst snd] in *.
  2:{ injection Hrun as <- <-. exists pre. rewrite Hpr, Hpn.
      split; [done|]. split; [done|]. split; [constructor|done]. }
  unfold bind at 1, invoke in Hrun. fold (listing s1) in Hrun.
  destruct (init_marks (listing s1)) as (tests & Ht & Htr & Hnd & Hjobs).
  destruct (SISYPHOS.init_sisy_jobs env (listing s1)) as [s2 [jobs|e]];
    unfold listing in Ht; cbn [fst snd world] in *.
  2:{ injection Hrun as <- <-. exists (pre ++ tests). cbn [world].
      rewrite Ht, Hpre, <- app_assoc, !omap_app, Hpr, Hpn, Htr.
      split; [done|]. split; [apply prefix_nil|]. split; [done|done]. }
  specialize (Hjobs jobs eq_refl).
  destruct (run_jobs_marks jobs (MkFrame (world s2) (self s2) (locals s1)))
    as (post & Ht' & Hn' & Hp & Hok).
  rewrite Hrun in Ht', Hok. cbn [fst snd world] in *.
  exists (pre ++ tests ++ post).
  rewrite Ht', Ht, Hpre, <- !app_assoc, !omap_app.
  rewrite Hpr, Hpn, Htr, Hn', app_nil_r, Hjobs. cbn [app].
  split; [done|]. split; [done|]. split; [by rewrite <- Hjobs|done].
Qed.
End Order.

(** X19. In [SISYPHOS.run] the jobs are run in the order in which they
    were made, each once: the identifiers of the runs, in order, are
    the beginning of the identifiers of the constructions, of which no
    two are the same, and they are all of them when [run] returns. *)
Theorem runs_follow_constructions (env : Env) (s : Frame SISYPHOS.t unit) :
  omap run_mark (emitted (SISYPHOS.run env) s)
    `prefix_of` omap new_mark (emitted (SISYPHOS.run env) s)
  ∧ NoDup (omap new_mark (emitted (SISYPHOS.run env) s))
  ∧ ((SISYPHOS.run env s).2 = Ok tt →
     omap run_mark (emitted (SISYPHOS.run env) s)
     = omap new_mark (emitted (SISYPHOS.run env) s)).
Proof.
  destruct (run_marks env s) as (evs & Ht & Hp & Hnd & Hok).
  by rewrite (emitted_app _ _ _ Ht).
Qed.

(** Job 0 is finished and job 1 is not: job 1 is made, and run. *)
Lemma runs_follow_witness :
  omap run_mark (emitted (SISYPHOS.run Scenario.resumed)
                         (Scenario.stage Scenario.disk (-1))) = [1]
  ∧ omap new_mark (emitted (SISYPHOS.run Scenario.resumed)
                           (Scenario.stage Scenario.disk (-1))) = [1].
Proof.
  assert (omap new_mark (emitted (SISYPHOS.run Scenario.resumed)
                                 (Scenario.stage Scenario.disk (-1))) = [1])
    as Hnew by (vm_compute; reflexivity).
  split; [|exact Hnew]. rewrite <- Hnew.
  apply (proj2 (proj2 (runs_follow_constructions Scenario.resumed
                         (Scenario.stage Scenario.disk (-1))))).
  vm_compute. reflexivity.
Defined.


(* ===================================================================== *)
(** * The parameters [refine] sets *)
(* ===================================================================== *)

(** A second invariant that the computation keeps. *)
Lemma issues_and {L A X} (proj : event → option X)
    (I1 I2 : BenchJob.t → Prop) T (m : M (Frame BenchJob.t L) A) :
  issues proj I1 T m →
  (∀ s s' a, I2 (self s) → m s = (s', Ok a) → I2 (self s')) →
  issues proj (λ me, I1 me ∧ I2 me) T m.
Proof.
  intros Hm H2 s s' a [Hs1 Hs2] Heq.
  destruct (Hm s s' a Hs1 Heq) as [Hs1' Hevs]. split; [|done].
  split; [done|]. by eapply H2.
Qed.

Lemma issues_true {L A X} (proj : event → option X)
    (I : BenchJob.t → Prop) T (m : M (Frame BenchJob.t L) A) :
  issues proj (λ _, True) T m →
  (∀ s s' a, I (self s) → m s = (s', Ok a) → I (self s')) →
  issues proj I T m.
Proof.
  intros Hm HI s s' a Hs Heq.
  destruct (Hm s s' a Logic.I Heq) as [_ Hevs]. split; [|done].
  by eapply HI.
Qed.

Section MoreRules.
Context {L X : Type} (proj : event → option X) (I : BenchJob.t → Prop).

Lemma issues_assoc {A B C} T (m : M (Frame BenchJob.t L) A)
    (f : A → M (Frame BenchJob.t L) B) (k : B → M (Frame BenchJob.t L) C) :
  issues proj I T (bind m (λ a, bind (f a) k)) →
  issues proj I T (bind (bind m f) k).
Proof. intros H s s' c Hs Heq. rewrite bind_assoc in Heq. by apply (H s s' c). Qed.

Lemma issues_then {A B} T1 T2 (T : list X → Prop)
    (m : M (Frame BenchJob.t L) A) (k : A → M (Frame BenchJob.t L) B) :
  issues proj I T1 m → (∀ a, issues proj I T2 (k a)) →
  (∀ l1 l2, T1 l1 → T2 l2 → T (l1 ++ l2)) →
  issues proj I T (bind m k).
Proof.
  intros Hm Hk HT s s' b Hs H. apply bind_ok in H as (s1 & a & H1 & H2).
  destruct (Hm s s1 a Hs H1) as (Hs1 & e1 & Ht1 & Hl1).
  destruct (Hk a s1 s' b Hs1 H2) as (Hs' & e2 & Ht2 & Hl2).
  split; [done|]. exists (e1 ++ e2). split.
  - by rewrite Ht2, Ht1, <- app_assoc.
  - rewrite omap_app. by apply HT.
Qed.
End MoreRules.

(** One step of a computation whose parameters are collected in the
    statement that follows. *)
Ltac push_step :=
  lazymatch goal with
  | |- ∀ _, _ => intros
  | |- issues _ _ _ (bind get_self _) => apply issues_read_self; intros ? ?
  | |- issues _ _ _ (bind (if ?b then _ else _) _) => destruct b
  | |- issues _ _ _ (bind (bind _ _) _) => apply issues_assoc
  | |- issues _ _ _ (bind _ _) =>
      eapply issues_push;
      [ first [ apply issues_ask_is; reflexivity
              | apply issues_write_log
              | apply issues_from_option
              | apply issues_ret
              | apply issues_raise ] | ]
  | |- issues _ _ _ (ret _) => eapply issues_is; [apply issues_ret|]
  end.

Section Settings.
Context (env : Env) {L : Type} (p : option (pydict pyval)) (u : bool).

(** The job has the options [p], and NoSpherA2 is selected or not as
    [u] says. *)
Local Abbreviation job_has :=
  (λ me, BenchJob.nos2_params me = p ∧ truthy (BenchJob.use_nos2 me) = u).

Lemma refine_start_settings :
  issues (L := L) set_param job_has (λ l, ∃ w, l = weight_settings w)
    (BenchJob.refine_start env).
Proof.
  unfold BenchJob.refine_start, BenchJob.olex_m, BenchJob.SetParam,
    BenchJob.GetParam, BenchJob.write_log_header.
  simpl for_each. repeat push_step; by eexists.
Qed.

Lemma extinction_branch_settings exti :
  issues (L := L) set_param job_has (eq [])
    (BenchJob.extinction_branch env exti).
Proof.
  unfold BenchJob.extinction_branch, index, py_float.
  destruct (bool_decide (exti = "n/a")); simpl; [apply issues_ret|].
  destruct (py_index (PyStr.split_on "(" exti) 0) as [head|]; simpl;
    [|apply issues_raise_bind].
  apply issues_ret_bind.
  destruct (PyStr.float_of_string head) as [x|]; simpl;
    [|apply issues_raise_bind].
  apply issues_ret_bind.
  destruct (Float.ltb x BenchJob.exti_threshold);
    eapply issues_is; issues_tac; reflexivity.
Qed.

Lemma configure_ORCA_self (s : Frame BenchJob.t L) :
  self (BenchJob.configure_ORCA env s).1 = self s.
Proof.
  assert (steps (self (L := L)) any eq (BenchJob.configure_ORCA env)) as H
    by steps_tac.
  symmetry. exact (H s I).
Qed.

Lemma advanced_pass_settings :
  issues (L := L) set_param job_has (advanced_settings p u)
    (BenchJob.advanced_pass env) ∨ u = false.
Proof.
  destruct u; [left|by right]. unfold BenchJob.advanced_pass.
  assert (∀ a : unit,
            issues (L := L) set_param
              (λ me, BenchJob.nos2_params me = p
                     ∧ truthy (BenchJob.use_nos2 me) = true)
              (eq [])
              (do _ <- BenchJob.write_log
                         "Starting iterative NoSpherA2 refinement";
               do start <- ask (env_float env) "time.perf_counter" [];
               do _ <- BenchJob.olex_m env "refine 20";
               do end_ <- ask (env_float env) "time.perf_counter" [];
               do _ <- BenchJob.write_log
                         ("Refinement took "
                          +:+ Float.repr (Float.sub end_ start)
                          +:+ " seconds");
               do cycles <- ask (env_val env) "OV.GetVar"
                              [PyStr "Run_number"];
               do _ <- BenchJob.write_log
                         ("Refinement took " +:+ py_str cycles +:+ " cycles");
               do _ <- modify_self
                         (BenchJob.set_time_needed
                            (PyFloat (Float.sub end_ start)));
               do cycles' <- ask (env_val env) "OV.GetVar"
                               [PyStr "Run_number"];
               modify_self (BenchJob.set_cycles_needed cycles'))) as Hrest.
  { intros _. eapply issues_is;
      [issues_with
         ltac:(idtac; lazymatch goal with
               | |- issues _ _ (eq _) (modify_self _) =>
                   apply issues_modify_self; intros j Hj; exact Hj
               | |- issues _ _ (eq _) (bind (modify_self _) _) =>
                   apply (issues_seq _ _ []);
                   [apply issues_modify_self; intros j Hj; exact Hj|]
               end)|reflexivity]. }
  destruct p as [params|].
  - eapply issues_then; [|exact Hrest|].
    + apply (issues_and set_param
               (λ me, BenchJob.nos2_params me = Some params)
               (λ me, truthy (BenchJob.use_nos2 me) = true)).
      * apply configure_ORCA_issues.
      * intros s s' a Hs Heq. pose proof (configure_ORCA_self s) as Hself.
        rewrite Heq in Hself. simpl in Hself. by rewrite Hself.
    + intros l1 l2 (tail & -> & Htail) <-. rewrite app_nil_r.
      by exists params, tail.
  - eapply issues_then; [|exact Hrest|].
    + apply (issues_and set_param
               (λ me, BenchJob.nos2_params me = None)
               (λ me, truthy (BenchJob.use_nos2 me) = true)).
      * apply configure_ORCA_needs_options.
      * intros s s' a Hs Heq. pose proof (configure_ORCA_self s) as Hself.
        rewrite Heq in Hself. simpl in Hself. by rewrite Hself.
    + by intros l1 l2 [].
Qed.

Lemma refine_end_settings :
  issues (L := L) set_param job_has (advanced_settings p u)
    (BenchJob.refine_end env).
Proof.
  unfold BenchJob.refine_end.
  apply (issues_push _ _ []); [by apply issues_ask_is|]. intros _.
  apply issues_read_self. intros me [Hp Hu]. rewrite Hu.
  destruct advanced_pass_settings as [H| ->].
  - revert H. destruct u; intros H; [exact H|].
    apply (issues_is _ _ []); [apply issues_ret|done].
  - apply (issues_is _ _ []); [apply issues_ret|done].
Qed.

Lemma refine_body_settings :
  issues (L := L) set_param job_has
    (λ l, ∃ w rest, l = weight_settings w ++ rest
                    ∧ advanced_settings p u rest)
    (refine_body env).
Proof.
  unfold refine_body.
  eapply issues_then; [apply refine_start_settings| |].
  - intros _. apply (issues_push _ _ []); [by apply issues_ask_is|].
    intros exti. apply (issues_push _ _ []); [apply issues_write_log|].
    intros _. apply (issues_push _ _ []);
      [apply extinction_branch_settings|].
    intros _. apply refine_end_settings.
  - intros l1 l2 [w ->] H2. by exists w, l2.
Qed.
End Settings.

(** X20. When the body of [refine] completes, the parameters it has set
    are, in this order: the update of the weights, True or False; the
    aspherical model off; and for a job with NoSpherA2 the parameters
    of [configure_ORCA], which set it on again. A job without
    NoSpherA2 sets nothing else, and so leaves the aspherical model
    off. *)
Theorem refine_parameter_protocol (env : Env) {L : Type}
    (s s' : Frame BenchJob.t L) :
  refine_body env s = (s', Ok tt) →
  ∃ w rest,
    omap set_param (emitted (BenchJob.refine env) s)
    = weight_settings w ++ rest
    ∧ advanced_settings (BenchJob.nos2_params (self s))
                        (truthy (BenchJob.use_nos2 (self s))) rest.
Proof.
  intros H.
  assert (emitted (BenchJob.refine env) s = emitted (refine_body env) s)
    as ->.
  { unfold emitted. rewrite refine_unfold. unfold try_except. by rewrite H. }
  destruct (refine_body_settings env _ _ s s' tt (conj eq_refl eq_refl) H)
    as (_ & evs & Ht & w & rest & Hl & Hrest).
  exists w, rest. split; [|done].
  unfold emitted. rewrite H. simpl. by rewrite Ht, drop_app_length.
Qed.

(** The plain job on the sound engine: the weights are kept, the
    aspherical model is off, nothing else is set. *)
Lemma refine_parameter_witness :
  omap set_param
    (emitted (BenchJob.refine (Scenario.sound "n/a")) (Scenario.at_work tt))
  = weight_settings false.
Proof.
  destruct (refine_parameter_protocol (Scenario.sound "n/a")
              (Scenario.at_work tt)
              (refine_body (Scenario.sound "n/a") (Scenario.at_work tt)).1)
    as (w & rest & _ & _).
  { vm_compute. reflexivity. }
  vm_compute. reflexivity.
Defined.

